(** * BitcoinArmory: block-file reader and parallel blockchain scanner

    A shallow embedding of
      - [cppForSwig/BlockUtils.cpp]: the two [scanFor]s, the class
        [BitcoinQtBlockFiles] ([detectAllBlkFiles], [offsetAtStartOfFile],
        [readRawBlocks], [readRawBlocksFromFile], [readHeadersFromFile],
        [readHeaders]) and [BlockDataManagerConfig::stripQuotes] and
        [appendPath];
      - the scanner translation unit ([BlockData::deserialize],
        [BlockchainScanner::scan], [readBlockData], [scanBlockData],
        [accumulateDataBeforeBatchWrite], [writeBlockData],
        [processAndCommitTxHints]).

    Fixed-width integers are [Z] with the wrap-around written at every
    arithmetic step of the source; byte buffers are [list byte]; the C++
    [std::map]s are stdpp [gmap]s.  Code that is declared outside the two
    files (the address filter, [BtcUtils], [BinaryRefReader], the block
    loader, the transaction reader) is a parameter, given as a type
    class. *)

From Stdlib Require Import ZArith List Lia Bool.
From Stdlib Require Import Strings.Byte Strings.Ascii Strings.String.
From stdpp Require Import base decidable countable gmap list strings fin_maps.

Import ListNotations.
Import Ascii.
Local Open Scope Z_scope.

(** ** Machine integers *)

Definition UINT16_MAX : Z := 65535.
Definition UINT32_MOD : Z := 2 ^ 32.
Definition UINT64_MOD : Z := 2 ^ 64.
Definition UINT64_MAX : Z := 2 ^ 64 - 1.

Definition wrap32 (z : Z) : Z := z mod UINT32_MOD.
Definition wrap64 (z : Z) : Z := z mod UINT64_MOD.

(** ** Bytes and [BinaryData] *)

Abbreviation BinaryData := (list byte).

#[global] Instance byte_eq_decision : EqDecision byte := Byte.byte_eq_dec.

#[global] Program Instance byte_countable : Countable byte :=
  inj_countable Byte.to_N Byte.of_N _.
Next Obligation. intros b. apply Byte.of_to_N. Qed.

(** [BinaryData::operator==]: same length and same bytes. *)
Definition bd_eqb (a b : BinaryData) : bool := bool_decide (a = b).

(** The bytes [[pos, pos+n)] of a buffer, cut at the end of the buffer. *)
Definition slice (buf : BinaryData) (pos n : Z) : BinaryData :=
  let size := Z.of_nat (length buf) in
  if size <=? pos then []
  else firstn (Z.to_nat (Z.min n (size - pos))) (skipn (Z.to_nat pos) buf).

Fixpoint le_decode (bs : BinaryData) : Z :=
  match bs with
  | [] => 0
  | b :: bs' => Z.of_N (Byte.to_N b) + 256 * le_decode bs'
  end.

(** [READ_UINT32_LE(ptr)]: the four bytes at [ptr], least significant first. *)
Definition READ_UINT32_LE (buf : BinaryData) (pos : Z) : Z :=
  le_decode (slice buf pos 4).

(** ** Outcomes of fallible code

    A C++ function either returns, throws, or does not end in a defined
    way ([Fault]): it performs an access outside the object it was given, or
    an exception leaves one of its threads and the process is terminated.
    [OutOfFuel] is the outcome of a loop model whose bounded unrolling ended
    before the loop did. *)

Inductive exn : Type :=
| runtime_error (what : string)
| range_error
| out_of_range
| StopReading
| stopReadingHeaders (fnum pos : Z)
| debug_replay_blocks.

(** [catch (std::exception&)] catches the standard exceptions and
    [StopReading], which derives from [std::exception]; the classes
    [stopReadingHeaders] and [debug_replay_blocks] do not. *)
Definition is_std_exception (e : exn) : bool :=
  match e with
  | runtime_error _ | range_error | out_of_range | StopReading => true
  | stopReadingHeaders _ _ | debug_replay_blocks => false
  end.

Inductive result (A : Type) : Type :=
| Ok (a : A)
| Raise (e : exn)
| Fault
| OutOfFuel.
Arguments Ok {A} a.
Arguments Raise {A} e.
Arguments Fault {A}.
Arguments OutOfFuel {A}.

Definition rbind {A B} (r : result A) (k : A -> result B) : result B :=
  match r with
  | Ok a => k a
  | Raise e => Raise e
  | Fault => Fault
  | OutOfFuel => OutOfFuel
  end.

#[global] Instance result_ret : MRet result := fun A a => Ok a.
#[global] Instance result_bind : MBind result :=
  fun A B k r => rbind r k.
#[global] Instance result_fmap : FMap result :=
  fun A B g r => rbind r (fun a => Ok (g a)).

Definition is_ok {A} (r : result A) : bool :=
  match r with
  | Ok _ => true
  | _ => false
  end.

(** A failed outcome, at another result type. *)
Definition failed {A B} (r : result A) : result B :=
  match r with
  | Ok _ | Fault => Fault
  | Raise e => Raise e
  | OutOfFuel => OutOfFuel
  end.

(** * BlockUtils.cpp *)

Module BlockUtils.

(** ** [scanFor] (pointer version) *)

(** The inner [for] loop of [scanFor]: compares [in[i]] with [bytes[i]] for
    [i = 0 .. len-1], leaving at the first difference.  [mem] is the memory
    readable from [in]; a read past it is [None]. *)
Fixpoint match_here (mem bytes : BinaryData) : option bool :=
  match bytes with
  | [] => Some true
  | b :: bytes' =>
      match mem with
      | [] => None
      | a :: mem' =>
          if Byte.eqb a b then match_here mem' bytes' else Some false
      end
  end.

(** The [do { ... } while (offset + len < inLen)] loop, entered with [in]
    pointing at [mem] and the running [offset]. *)
Fixpoint scanFor_loop (mem : BinaryData) (inLen : Z) (bytes : BinaryData)
    (offset : Z) : option Z :=
  match match_here mem bytes with
  | None => None
  | Some true => Some offset
  | Some false =>
      match mem with
      | [] => None
      | _ :: mem' =>
          let offset' := wrap64 (offset + 1) in
          if wrap64 (offset' + Z.of_nat (length bytes)) <? inLen
          then scanFor_loop mem' inLen bytes offset'
          else Some UINT64_MAX
      end
  end.

(** [scanFor(in, inLen, bytes, len)] with [len = length bytes].  [None] is a
    read outside the buffer. *)
Definition scanFor (mem : BinaryData) (inLen : Z) (bytes : BinaryData)
    : option Z :=
  scanFor_loop mem inLen bytes 0.

(** ** [BlockDataManagerConfig::stripQuotes] *)

(** [input.c_str()[i]] for a [size_t] index: the characters of the string,
    then the terminating NUL at index [size()]; any other index is outside
    the string's storage. *)
Definition c_str_at (input : string) (i : Z) : result ascii :=
  let size := Z.of_nat (String.length input) in
  if (0 <=? i) && (i <? size) then
    match String.get (Z.to_nat i) input with
    | Some c => Ok c
    | None => Fault
    end
  else if i =? size then Ok "000"%char
  else Fault.

(** [std::string::substr(pos, n)]: throws [out_of_range] when [pos > size()],
    otherwise the characters [[pos, min (pos + n) size())]. *)
Definition substr (input : string) (pos n : Z) : result string :=
  let size := Z.of_nat (String.length input) in
  if size <? pos then Raise out_of_range
  else Ok (String.substring (Z.to_nat pos) (Z.to_nat (Z.min n (size - pos))) input).

Definition dquote : ascii := "034"%char.
Definition squote : ascii := "039"%char.

Definition is_quote (c : ascii) : bool :=
  Ascii.eqb c dquote || Ascii.eqb c squote.

Definition stripQuotes (input : string) : result string :=
  let start := 0 in
  let len := Z.of_nat (String.length input) in
  let first_char := c_str_at input 0 in
  let last_char := c_str_at input (wrap64 (len - 1)) in
  c0 ← first_char;
  let '(start, len) :=
    if is_quote c0 then (1, wrap64 (len - 1)) else (start, len) in
  c1 ← last_char;
  let len := if is_quote c1 then wrap64 (len - 1) else len in
  substr input start len.

(** ** [BitcoinQtBlockFiles::detectAllBlkFiles] *)

Record BlkFile : Type := mkBlkFile {
  fnum : Z;
  path : string;
  filesize : Z;
  filesizeCumul : Z
}.

Record BlkFiles : Type := mkBlkFiles {
  blkFiles_ : list BlkFile;
  totalBlockchainBytes_ : Z
}.

(** The state the constructor leaves. *)
Definition BlkFiles_init : BlkFiles :=
  {| blkFiles_ := []; totalBlockchainBytes_ := 0 |}.

Definition totalBlockchainBytes (s : BlkFiles) : Z := totalBlockchainBytes_ s.
Definition numBlockFiles (s : BlkFiles) : Z :=
  wrap32 (Z.of_nat (length (blkFiles_ s))).

(** [v.back()] and [v.pop_back()] of a non-empty vector. *)
Definition pop_back {A} (v : list A) : option (list A * A) :=
  match rev v with
  | [] => None
  | back :: r => Some (rev r, back)
  end.

Section Detect.
(** [BtcUtils::getBlkFilename(blkFileLocation_, n)] and
    [BtcUtils::GetFileSize(path)] are not part of this translation unit.
    The first is a parameter; the second is the directory as it is when
    the call is made: [None] stands for [FILE_DOES_NOT_EXIST]. *)
Variable getBlkFilename : Z -> string.

Definition Disk : Type := string -> option Z.

(** The [while (numBlkFiles < UINT16_MAX)] loop.  It runs at most
    [UINT16_MAX - numBlkFiles] times; [n] counts these turns down. *)
Fixpoint detect_loop (n : nat) (GetFileSize : Disk) (numBlkFiles : Z)
    (s : BlkFiles) : BlkFiles * Z :=
  match n with
  | O => (s, numBlkFiles)
  | S n' =>
      if numBlkFiles <? UINT16_MAX then
        let path := getBlkFilename numBlkFiles in
        match GetFileSize path with
        | None => (s, numBlkFiles)
        | Some filesize =>
            let f := {| fnum := numBlkFiles; path := path;
                        filesize := filesize;
                        filesizeCumul := totalBlockchainBytes_ s |} in
            detect_loop n' GetFileSize (wrap32 (numBlkFiles + 1))
              {| blkFiles_ := blkFiles_ s ++ [f];
                 totalBlockchainBytes_ :=
                   wrap64 (totalBlockchainBytes_ s + filesize) |}
        end
      else (s, numBlkFiles)
  end.

(** The state after the call, and whether the call returned or threw. *)
Definition detectAllBlkFiles (GetFileSize : Disk) (s : BlkFiles)
    : BlkFiles * result unit :=
  let '(numBlkFiles, s1) :=
    match pop_back (blkFiles_ s) with
    | Some (rest, back) =>
        (wrap32 (Z.of_nat (length (blkFiles_ s)) - 1),
         {| blkFiles_ := rest;
            totalBlockchainBytes_ :=
              wrap64 (totalBlockchainBytes_ s - filesize back) |})
    | None => (0, s)
    end in
  let '(s2, numBlkFiles) :=
    detect_loop (Z.to_nat (UINT16_MAX - numBlkFiles)) GetFileSize
      numBlkFiles s1 in
  if numBlkFiles =? UINT16_MAX
  then (s2, Raise (runtime_error "Error finding blockchain files (blkXXXX.dat)"))
  else (s2, Ok tt).

(** Successive calls, one per observed directory state. *)
Fixpoint detect_run (disks : list Disk) (s : BlkFiles) : list BlkFiles :=
  match disks with
  | [] => []
  | d :: disks' =>
      let s' := fst (detectAllBlkFiles d s) in
      s' :: detect_run disks' s'
  end.
End Detect.

(** ** Reading block files *)

Inductive ReadEvent : Type :=
| LOGERR_wrong_network (path : string) (fileMagic : BinaryData)
| LOGERR_no_more_blocks (path : string)
| LOGERR_next_header (pos : Z)
| LOGERR_callback (e : exn) (blockFileOffset : Z) (blkSize : Z)
| LOGINFO_finished (fnum : Z) (blockFileOffset : Z)
| blockDataCallback (data : BinaryData) (pos : Z * Z) (blksize : Z).


(** The message of the wrong-network error, up to the two hexadecimal dumps
    that follow it in the source. *)
Definition wrong_network_what (path : string) : string :=
  String.append "Block file '" (String.append path "' is the wrong network!").

(** Bytes [[pos, pos+n)] of a mapped region; a read that leaves the region
    is a [Fault]. *)
Definition read_at (mas : BinaryData) (pos n : Z) : result BinaryData :=
  if (0 <=? pos) && (pos + n <=? Z.of_nat (length mas))
  then Ok (slice mas pos n)
  else Fault.

(** The content of the block-file directory, by path. *)
Definition FileSystem : Type := string -> option BinaryData.

(** [getMapOfFile(path, fileSize)]: the first [fileSize] bytes of the file. *)
Definition getMapOfFile (fs : FileSystem) (path : string) (fileSize : Z)
    : result BinaryData :=
  match fs path with
  | None => Raise (runtime_error "failed to open file")
  | Some bytes => Ok (firstn (Z.to_nat fileSize) bytes)
  end.

(** *** Input streams ([std::ifstream])

    Only what the readers use: the read position and the [eofbit] and
    [failbit] flags.  A read that reaches the end of the file sets both
    flags; once a flag is set every read fails; [seekg] clears [eofbit]
    and does nothing while [failbit] is set. *)
Record istream : Type := mkIstream {
  is_content : BinaryData;
  is_pos : Z;
  is_eofbit : bool;
  is_failbit : bool
}.

Definition ifstream (fs : FileSystem) (path : string) : istream :=
  match fs path with
  | Some bytes => mkIstream bytes 0 false false
  | None => mkIstream [] 0 false true
  end.

Definition is_good (i : istream) : bool :=
  negb (is_eofbit i) && negb (is_failbit i).

Definition is_eof (i : istream) : bool := is_eofbit i.

(** [is.read(buf, n)]: the stream after the call, the buffer after the call
    and [gcount()]. *)
Definition is_read (i : istream) (buf : BinaryData) (n : Z)
    : istream * BinaryData * Z :=
  if is_good i then
    let avail := Z.max 0 (Z.of_nat (length (is_content i)) - is_pos i) in
    if n <=? avail then
      (mkIstream (is_content i) (is_pos i + n) false false,
       slice (is_content i) (is_pos i) n ++ skipn (Z.to_nat n) buf, n)
    else
      (mkIstream (is_content i) (is_pos i + avail) true true,
       slice (is_content i) (is_pos i) avail ++ skipn (Z.to_nat avail) buf,
       avail)
  else (mkIstream (is_content i) (is_pos i) (is_eofbit i) true, buf, 0).

(** [is.get()] stored into a [uint8_t]: at the end of the file it yields
    [EOF], whose low byte is [0xff]. *)
Definition is_get (i : istream) : istream * byte :=
  if is_good i then
    if is_pos i <? Z.of_nat (length (is_content i)) then
      match nth_error (is_content i) (Z.to_nat (is_pos i)) with
      | Some b => (mkIstream (is_content i) (is_pos i + 1) false false, b)
      | None => (mkIstream (is_content i) (is_pos i) true true, xff)
      end
    else (mkIstream (is_content i) (is_pos i) true true, xff)
  else (mkIstream (is_content i) (is_pos i) (is_eofbit i) true, xff).

Definition seekg_beg (i : istream) (off : Z) : istream :=
  if is_failbit i then mkIstream (is_content i) (is_pos i) false true
  else mkIstream (is_content i) off false false.

Definition seekg_cur (i : istream) (off : Z) : istream :=
  if is_failbit i then mkIstream (is_content i) (is_pos i) false true
  else mkIstream (is_content i) (is_pos i + off) false false.

(** *** [scanFor] (stream version) *)

(** Where a reader stands after it looked for the magic. *)
Inductive Resync : Type :=
| AtMagic
| FoundLater (pos : Z)
| NotFound.

(** [ahead[(i+offset)%len] == bytes[i]] for all [i < len]. *)
Definition ring_matches (ahead bytes : BinaryData) (offset : Z) : bool :=
  let len := Z.of_nat (length bytes) in
  forallb
    (fun i =>
       match nth_error ahead (Z.to_nat ((Z.of_nat i + offset) mod len)),
             nth_error bytes i with
       | Some a, Some b => Byte.eqb a b
       | _, _ => false
       end)
    (seq 0 (length bytes)).

Fixpoint scanFor_is_loop (fuel : nat) (i : istream) (ahead bytes : BinaryData)
    (offset : Z) : istream * result bool :=
  match fuel with
  | O => (i, OutOfFuel)
  | S fuel' =>
      if ring_matches ahead bytes offset then (i, Ok true)
      else
        let len := Z.of_nat (length bytes) in
        let '(i', c) := is_get i in
        let ahead' := <[Z.to_nat (offset mod len) := c]> ahead in
        let offset' := wrap32 (offset + 1) in
        if is_eof i' then (i', Ok false)
        else scanFor_is_loop fuel' i' ahead' bytes offset'
  end.

Definition scanFor_is (i : istream) (bytes : BinaryData)
    : istream * result bool :=
  let len := Z.of_nat (length bytes) in
  let '(i', ahead, count) := is_read i (repeat x00 (length bytes)) len in
  if count <? len then (i', Ok false)
  else scanFor_is_loop (S (length (is_content i))) i' ahead bytes 0.

Section Readers.
Variable magicBytes_ : BinaryData.

(** The caller's callback with the state it captures: it returns, or
    throws. *)
Variable CB : Type.
Definition Callback : Type :=
  CB -> BinaryData -> Z * Z -> Z -> CB * option exn.

(** What a reader did: the callback's state, the log and callback events in
    order, and how it ended. *)
Record Run (A : Type) : Type := mkRun {
  run_cb : CB;
  run_trace : list ReadEvent;
  run_res : result A
}.
Arguments mkRun {A}.
Arguments run_cb {A}.
Arguments run_trace {A}.
Arguments run_res {A}.

(** *** [readRawBlocksFromFile] *)

(** The [while (pos < min(f.filesize, stopBefore))] loop. *)
Fixpoint readRawBlocks_loop (fuel : nat) (mas : BinaryData) (f : BlkFile)
    (stopBefore : Z) (cb : Callback) (pos blockFileOffset : Z) (c : CB)
    (tr : list ReadEvent) : Run Z :=
  if negb (pos <? Z.min (filesize f) stopBefore)
  then mkRun c tr (Ok blockFileOffset)
  else
    match fuel with
    | O => mkRun c tr OutOfFuel
    | S fuel' =>
        let magicAt := pos in
        let pos := wrap64 (pos + 4) in
        if filesize f <=? pos then mkRun c tr (Ok blockFileOffset)
        else
          match read_at mas magicAt 4 with
          | Ok magic =>
              (* resynchronise when the magic is not there *)
              let resync : result (option (Z * list ReadEvent)) :=
                if bd_eqb magic magicBytes_ then Ok (Some (pos, tr))
                else
                  match scanFor (skipn (Z.to_nat pos) mas)
                          (wrap64 (filesize f - pos)) magicBytes_ with
                  | None => Fault
                  | Some offset =>
                      if offset =? UINT64_MAX
                      then Ok None
                      else
                        let pos' := wrap64 (pos + wrap64 (offset + 4)) in
                        Ok (Some (pos',
                                  tr ++ [LOGERR_next_header (wrap64 (pos' - 4))]))
                  end in
              match resync with
              | Ok None =>
                  mkRun c (tr ++ [LOGERR_no_more_blocks (path f)])
                    (Ok blockFileOffset)
              | Ok (Some (pos, tr)) =>
                  match read_at mas pos 4 with
                  | Ok szstr =>
                      let pos := wrap64 (pos + 4) in
                      let blkSize := le_decode szstr in
                      if filesize f <=? pos
                      then mkRun c tr (Ok blockFileOffset)
                      else
                        let rawBlk := slice mas pos blkSize in
                        let pos := wrap64 (pos + blkSize) in
                        let ev :=
                          blockDataCallback rawBlk (fnum f, blockFileOffset)
                            blkSize in
                        match cb c rawBlk (fnum f, blockFileOffset) blkSize with
                        | (c', None) =>
                            readRawBlocks_loop fuel' mas f stopBefore cb pos
                              pos c' (tr ++ [ev])
                        | (c', Some e) =>
                            if is_std_exception e then
                              readRawBlocks_loop fuel' mas f stopBefore cb
                                pos pos c'
                                (tr ++ [ev; LOGERR_callback e blockFileOffset
                                              blkSize])
                            else mkRun c' (tr ++ [ev]) (Raise e)
                        end
                  | r => mkRun c tr (failed r)
                  end
              | r => mkRun c tr (failed r)
              end
          | r => mkRun c tr (failed r)
          end
    end.

Definition readRawBlocksFromFile (fs : FileSystem) (f : BlkFile)
    (blockFileOffset stopBefore : Z) (cb : Callback) (c : CB) : Run Z :=
  if stopBefore <=? blockFileOffset then mkRun c [] (Ok blockFileOffset)
  else
    match getMapOfFile fs (path f) (filesize f) with
    | Ok mas =>
        match read_at mas 0 4 with
        | Ok fileMagic =>
            let tr :=
              if bd_eqb fileMagic magicBytes_ then []
              else [LOGERR_wrong_network (path f) fileMagic] in
            let r :=
              readRawBlocks_loop (S (Z.to_nat (filesize f))) mas f stopBefore
                cb blockFileOffset blockFileOffset c tr in
            match run_res r with
            | Ok off =>
                mkRun (run_cb r)
                  (run_trace r ++ [LOGINFO_finished (fnum f) off]) (Ok off)
            | _ => r
            end
        | r => mkRun c [] (failed r)
        end
    | r => mkRun c [] (failed r)
    end.

(** *** [readHeadersFromFile] *)

Definition HEADER_SIZE : Z := 80.
Definition HEAD_AND_NTX_SZ : Z := wrap32 (HEADER_SIZE + 10).

(** The [while (!is.eof())] loop; [magic], [szstr] and [rawHead] are the
    three buffers, which keep their bytes from one turn to the next. *)
Fixpoint readHeaders_loop (fuel : nat) (f : BlkFile) (cb : Callback)
    (i : istream) (magic szstr rawHead : BinaryData) (blockFileOffset : Z)
    (c : CB) (tr : list ReadEvent) : Run Z :=
  if is_eof i then mkRun c tr (Ok blockFileOffset)
  else
    match fuel with
    | O => mkRun c tr OutOfFuel
    | S fuel' =>
        let '(i, magic, _) := is_read i magic 4 in
        if is_eof i then mkRun c tr (Ok blockFileOffset)
        else
          let '(i, found) :=
            if bd_eqb magic magicBytes_ then (i, Ok AtMagic)
            else
              let '(i', r) := scanFor_is i magicBytes_ in
              (i', (fun b : bool =>
                      if b then FoundLater (is_pos i' - 4) else NotFound)
                     <$> r) in
          match found with
          | Ok NotFound => mkRun c tr (Ok blockFileOffset)
          | Ok ((AtMagic | FoundLater _) as rs) =>
              let tr :=
                tr ++ match rs with
                      | FoundLater p => [LOGERR_next_header p]
                      | _ => []
                      end in
              let '(i, szstr, _) := is_read i szstr 4 in
              let nextBlkSize := le_decode szstr in
              if is_eof i then mkRun c tr (Ok blockFileOffset)
              else
                let '(i, rawHead, _) := is_read i rawHead HEAD_AND_NTX_SZ in
                let ev :=
                  blockDataCallback rawHead (fnum f, blockFileOffset)
                    nextBlkSize in
                let next :=
                  wrap64 (blockFileOffset + wrap32 (nextBlkSize + 8)) in
                match cb c rawHead (fnum f, blockFileOffset) nextBlkSize with
                | (c', Some debug_replay_blocks) =>
                    mkRun c' (tr ++ [ev])
                      (Raise (stopReadingHeaders (fnum f) next))
                | (c', Some e) => mkRun c' (tr ++ [ev]) (Raise e)
                | (c', None) =>
                    let i :=
                      seekg_cur i (wrap32 (nextBlkSize - HEAD_AND_NTX_SZ)) in
                    readHeaders_loop fuel' f cb i magic szstr rawHead next c'
                      (tr ++ [ev])
                end
          | r => mkRun c tr (failed r)
          end
    end.

Definition readHeadersFromFile (fuel : nat) (fs : FileSystem) (f : BlkFile)
    (blockFileOffset : Z) (cb : Callback) (c : CB) : Run Z :=
  let i := ifstream fs (path f) in
  let '(i, fileMagic, _) := is_read i (repeat x00 4) 4 in
  if negb (bd_eqb fileMagic magicBytes_)
  then mkRun c [] (Raise (runtime_error (wrong_network_what (path f))))
  else
    let i := seekg_beg i blockFileOffset in
    readHeaders_loop fuel f cb i (repeat x00 4) (repeat x00 4)
      (repeat x00 (Z.to_nat HEAD_AND_NTX_SZ)) blockFileOffset c [].

(** *** [readHeaders] *)


End Readers.

Arguments mkRun {CB A}.
Arguments run_cb {CB A}.
Arguments run_trace {CB A}.
Arguments run_res {CB A}.

(** ** [BitcoinQtBlockFiles::offsetAtStartOfFile] *)

Definition offsetAtStartOfFile (s : BlkFiles) (fnum : Z) : result Z :=
  if fnum =? 0 then Ok 0
  else if Z.of_nat (length (blkFiles_ s)) <=? fnum then Raise range_error
  else
    match blkFiles_ s !! Z.to_nat fnum with
    | Some f => Ok (filesizeCumul f)
    | None => Fault
    end.

(** ** [BitcoinQtBlockFiles::readRawBlocks] *)

Section RawBlocks.
Variable magicBytes_ : BinaryData.
Variable CB : Type.

(** The [while (startAt.first <= stopAt.first)] loop; [n] bounds the turns
    left.  When [startAt.first] is the size of the vector,
    [blkFiles_[startAt.first]] binds [f] to the element after its end.  The
    turn reads that element for [f.filesize] when [startAt.first] is below
    [stopAt.first], and for [f.path] in [readRawBlocksFromFile] unless the
    short circuit [blockFileOffset >= stopBefore] returns first. *)
Fixpoint readRawBlocks_files (n : nat) (fs : FileSystem) (s : BlkFiles)
    (cb : Callback CB) (first second stopFirst stopSecond finishLocation : Z)
    (c : CB) (tr : list ReadEvent) : Run CB (Z * Z) :=
  if first <=? stopFirst then
    match n with
    | O => mkRun c tr OutOfFuel
    | S n' =>
        match blkFiles_ s !! Z.to_nat first with
        | None =>
            if first <? stopFirst then mkRun c tr Fault
            else if stopSecond <=? second then
              readRawBlocks_files n' fs s cb (wrap64 (first + 1)) 0
                stopFirst stopSecond second c tr
            else mkRun c tr Fault
        | Some f =>
            let stopAtOffset :=
              if first <? stopFirst then filesize f else stopSecond in
            let r :=
              readRawBlocksFromFile magicBytes_ CB fs f second stopAtOffset
                cb c in
            let tr' := tr ++ run_trace r in
            match run_res r with
            | Ok off =>
                readRawBlocks_files n' fs s cb (wrap64 (first + 1)) 0
                  stopFirst stopSecond off (run_cb r) tr'
            | res => mkRun (run_cb r) tr' (failed res)
            end
        end
    end
  else mkRun c tr (Ok (wrap64 (first - 1), finishLocation)).

Definition readRawBlocks (fs : FileSystem) (s : BlkFiles)
    (startAt stopAt : Z * Z) (cb : Callback CB) (c : CB) : Run CB (Z * Z) :=
  let size := Z.of_nat (length (blkFiles_ s)) in
  if fst startAt =? size then mkRun c [] (Ok startAt)
  else if size <? fst startAt
  then mkRun c [] (Raise (runtime_error "blkFile out of range"))
  else
    let stopFirst := Z.min (fst stopAt) size in
    readRawBlocks_files (Z.to_nat (stopFirst - fst startAt + 1)) fs s cb
      (fst startAt) (snd startAt) stopFirst (snd stopAt) (snd stopAt) c [].
End RawBlocks.

(** ** [BlockDataManagerConfig::appendPath] *)

Definition is_separator (c : ascii) : bool :=
  Ascii.eqb c "\"%char || Ascii.eqb c "/"%char.

(** The new value of [base]. *)
Definition appendPath (base add : string) : result string :=
  if (String.length add =? 0)%nat then Ok base
  else
    firstChar ← c_str_at add 0;
    lastChar ← c_str_at base (wrap64 (Z.of_nat (String.length base) - 1));
    let base :=
      if negb (is_separator firstChar) && negb (is_separator lastChar)
      then String.append base "/" else base in
    Ok (String.append base add).

End BlockUtils.

(** * The blockchain scanner *)

Module Scanner.

(** ** Data *)

(** Modelled from the spec: [DBUtils::getBlkDataKeyNoPrefix] and
    [DBUtils::heightAndDupToHgtx] are declared outside this translation
    unit.  A key is kept as the list of the components the spec makes it of
    (block height, dup-id, then tx index, then tx-output or tx-input index)
    rather than as their byte serialisation. *)
Abbreviation DBKey := (list Z).

Definition heightAndDupToHgtx (height dup : Z) : DBKey := [height; dup].
Definition getBlkDataKeyNoPrefix2 (height dup : Z) : DBKey := [height; dup].
Definition getBlkDataKeyNoPrefix3 (height dup txIdx : Z) : DBKey :=
  [height; dup; txIdx].
Definition getBlkDataKeyNoPrefix4 (height dup txIdx ioIdx : Z) : DBKey :=
  [height; dup; txIdx; ioIdx].

Record BlockHeader : Type := mkBlockHeader {
  getBlockHeight : Z;
  getDuplicateID : Z;
  getBlockFileNum : Z;
  getThisHash : BinaryData;
  getNumTx : Z
}.

(** Modelled from the spec: class [Blockchain] is declared outside this
    translation unit.  It holds the canonical chain by height and the current
    top; [getHeaderByHeight] throws [range_error] for a height the chain does
    not have, which is what the handlers in [scan] expect. *)
Record Blockchain : Type := mkBlockchain {
  headersByHeight : list BlockHeader;
  top : BlockHeader
}.

Definition getHeaderByHeight (bc : Blockchain) (height : Z)
    : result BlockHeader :=
  if height <? 0 then Raise range_error
  else
    match nth_error (headersByHeight bc) (Z.to_nat height) with
    | Some h => Ok h
    | None => Raise range_error
    end.

(** [BCTX]: a transaction inside the block buffer.  [txHash_] is what
    [getHash()] returns; [txins_] and [txouts_] are the (offset, size) pairs
    [BlockData::deserialize] pushes. *)
Record BCTX : Type := mkBCTX {
  data_ : BinaryData;
  txHash_ : BinaryData;
  txins_ : list (Z * Z);
  txouts_ : list (Z * Z)
}.

Record BlockData : Type := mkBlockData {
  header : BlockHeader;
  txns_ : list BCTX
}.

Inductive Spentness : Type :=
| TXOUT_UNSPENT
| TXOUT_SPENT.

Record StoredTxOut : Type := mkStoredTxOut {
  dataCopy_ : BinaryData;
  parentHash_ : BinaryData;
  blockHeight_ : Z;
  duplicateID_ : Z;
  txIndex_ : Z;
  txOutIndex_ : Z;
  scrAddr_ : BinaryData;
  spentness_ : Spentness;
  spentByTxInKey_ : DBKey
}.

(** [StoredTxOut::getValue]: the 8-byte little-endian amount that opens the
    serialised output. *)
Definition getValue (stxo : StoredTxOut) : Z :=
  le_decode (slice (dataCopy_ stxo) 0 8).

Definition getDBKey (stxo : StoredTxOut) : DBKey :=
  getBlkDataKeyNoPrefix4 (blockHeight_ stxo) (duplicateID_ stxo)
    (txIndex_ stxo) (txOutIndex_ stxo).

Definition getDBKeyOfParentTx (stxo : StoredTxOut) : DBKey :=
  getBlkDataKeyNoPrefix3 (blockHeight_ stxo) (duplicateID_ stxo)
    (txIndex_ stxo).

Record TxIOPair : Type := mkTxIOPair {
  txio_value : Z;
  txio_txout : DBKey;
  txio_txin : option DBKey
}.

(** [map<BinaryData, map<unsigned, StoredTxOut>>] *)
Abbreviation UtxoMap := (gmap BinaryData (gmap Z StoredTxOut)).

(** [ssh_]: script address, then hgtx ([subHistMap_]), then txio key
    ([txioMap_]). *)
Abbreviation SshMap := (gmap BinaryData (gmap DBKey (gmap DBKey TxIOPair))).

Record BlockDataBatch : Type := mkBatch {
  start_ : Z;
  end_ : Z;
  highestProcessedHeight_ : Z;
  utxos_ : UtxoMap;
  ssh_ : SshMap;
  spentTxOuts_ : list StoredTxOut
}.

(** [BlockDataBatch(start, end)] *)
Definition new_batch (start end' : Z) : BlockDataBatch :=
  mkBatch start end' 0 ∅ ∅ [].

(** ** [std::map] operations *)

(** [m.insert(make_pair(k, v))]: an existing entry is kept. *)
Definition map_insert `{Countable K} {V} (k : K) (v : V) (m : gmap K V)
    : gmap K V :=
  match m !! k with
  | Some _ => m
  | None => <[k := v]> m
  end.

(** [m[k]], which creates an empty entry when there is none. *)
Definition map_at `{Countable K} `{Empty V} (k : K) (m : gmap K V) : V :=
  default ∅ (m !! k).

(** ** The interfaces the scanner is given *)

(** [ScrAddrFilter::hasScrAddress] *)
Class ScrAddrFilter : Type := {
  hasScrAddress : BinaryData -> bool
}.

(** [BtcUtils::getTxOutScrAddr], from a script to its address. *)
Class BtcUtils : Type := {
  getTxOutScrAddr : BinaryData -> BinaryData
}.

(** [BinaryRefReader brr(txout.first)], [brr.advance(8)],
    [brr.get_var_int()] and [brr.get_BinaryDataRef(scriptSize)]: the bytes
    the reader yields for the script of an output.  The scanner builds the
    reader from the integer [txout.first] alone, an offset into the
    transaction, and never hands it the transaction's bytes; the
    constructor that takes the integer is declared outside this translation
    unit. *)
Class OffsetReader : Type := {
  script_from_offset : Z -> BinaryData
}.

Section Passes.
Context `{ScrAddrFilter} `{BtcUtils} `{OffsetReader}.

(** The script address the output pass gives the output whose offset in
    its transaction is [offset]: the reader is built from [offset], not
    from [txn.data_ + offset]. *)
Definition txout_scrAddr (offset : Z) : BinaryData :=
  getTxOutScrAddr (script_from_offset offset).

(** *** [txoutParser] *)

(** The body of the loop over [y], for output [y] of transaction [i]. *)
Definition txout_step (hdr : BlockHeader) (i : Z) (txn : BCTX) (y : Z)
    (txout : Z * Z) (batch : BlockDataBatch) : BlockDataBatch :=
  let scrAddr := txout_scrAddr (fst txout) in
  if negb (hasScrAddress scrAddr) then batch
  else
    let txHash := txHash_ txn in
    let stxo :=
      {| dataCopy_ := slice (data_ txn) (fst txout) (snd txout);
         parentHash_ := txHash;
         blockHeight_ := getBlockHeight hdr;
         duplicateID_ := getDuplicateID hdr;
         txIndex_ := i;
         txOutIndex_ := y;
         scrAddr_ := scrAddr;
         spentness_ := TXOUT_UNSPENT;
         spentByTxInKey_ := [] |} in
    let value := getValue stxo in
    let hgtx := heightAndDupToHgtx (blockHeight_ stxo) (duplicateID_ stxo) in
    let txioKey :=
      getBlkDataKeyNoPrefix4 (blockHeight_ stxo) (duplicateID_ stxo) i y in
    (* update utxos_ *)
    let stxoHashMap := map_at txHash (utxos_ batch) in
    let stxoHashMap := map_insert i stxo stxoHashMap in
    let utxos := <[txHash := stxoHashMap]> (utxos_ batch) in
    (* update ssh_ *)
    let ssh := map_at scrAddr (ssh_ batch) in
    let subssh := map_at hgtx ssh in
    let txio :=
      {| txio_value := value; txio_txout := txioKey; txio_txin := None |} in
    let subssh := map_insert txioKey txio subssh in
    let ssh' := <[scrAddr := <[hgtx := subssh]> ssh]> (ssh_ batch) in
    mkBatch (start_ batch) (end_ batch) (highestProcessedHeight_ batch)
      utxos ssh' (spentTxOuts_ batch).

(** A [for] loop over [l] with its index, from [idx] on. *)
Fixpoint for_indexed {A S : Type} (body : Z -> A -> S -> S) (idx : Z)
    (l : list A) (s : S) : S :=
  match l with
  | [] => s
  | a :: l' => for_indexed body (idx + 1) l' (body idx a s)
  end.

Definition txoutParser (blockdata : BlockData) (batch : BlockDataBatch)
    : BlockDataBatch :=
  let hdr := header blockdata in
  let topHeight := getBlockHeight hdr in
  let batch :=
    mkBatch (start_ batch) (end_ batch) topHeight (utxos_ batch)
      (ssh_ batch) (spentTxOuts_ batch) in
  for_indexed
    (fun i txn => for_indexed (txout_step hdr i txn) 0 (txouts_ txn))
    0 (txns_ blockdata) batch.

(** *** [txinParser] *)

(** The body of the loop over [y], for input [y] of transaction [i];
    [utxoMap] is the scanner's shared [utxoMap_]. *)
Definition txin_step (utxoMap : UtxoMap) (hdr : BlockHeader) (i : Z)
    (txn : BCTX) (y : Z) (txin : Z * Z) (batch : BlockDataBatch)
    : BlockDataBatch :=
  let outHash := slice (data_ txn) (fst txin) 32 in
  match utxoMap !! outHash with
  | None => batch
  | Some utxos =>
      let txOutId := READ_UINT32_LE (data_ txn) (fst txin + 32) in
      match utxos !! txOutId with
      | None => batch
      | Some found =>
          let hgtx :=
            getBlkDataKeyNoPrefix2 (getBlockHeight hdr) (getDuplicateID hdr) in
          let txinkey :=
            getBlkDataKeyNoPrefix4 (getBlockHeight hdr) (getDuplicateID hdr)
              i y in
          let stxo :=
            {| dataCopy_ := dataCopy_ found;
               parentHash_ := parentHash_ found;
               blockHeight_ := blockHeight_ found;
               duplicateID_ := duplicateID_ found;
               txIndex_ := txIndex_ found;
               txOutIndex_ := txOutIndex_ found;
               scrAddr_ := scrAddr_ found;
               spentness_ := TXOUT_SPENT;
               spentByTxInKey_ := txinkey |} in
          (* add to spentTxOuts_ *)
          let spent := spentTxOuts_ batch ++ [stxo] in
          (* add to ssh_ *)
          let ssh := map_at (scrAddr_ stxo) (ssh_ batch) in
          let subssh := map_at hgtx ssh in
          let txio :=
            {| txio_txout := getDBKey stxo;
               txio_txin := Some txinkey;
               txio_value := getValue stxo |} in
          let subssh := map_insert txinkey txio subssh in
          let ssh' :=
            <[scrAddr_ stxo := <[hgtx := subssh]> ssh]> (ssh_ batch) in
          mkBatch (start_ batch) (end_ batch)
            (highestProcessedHeight_ batch) (utxos_ batch) ssh' spent
      end
  end.

Definition txinParser (utxoMap : UtxoMap) (blockdata : BlockData)
    (batch : BlockDataBatch) : BlockDataBatch :=
  let hdr := header blockdata in
  for_indexed
    (fun i txn => for_indexed (txin_step utxoMap hdr i txn) 0 (txins_ txn))
    0 (txns_ blockdata) batch.

(** [blockDataLoop(callback)]: the callback on every block of the link
    chain, in order. *)
Definition blockDataLoop
    (callback : BlockData -> BlockDataBatch -> BlockDataBatch)
    (links : list BlockData) (batch : BlockDataBatch) : BlockDataBatch :=
  fold_left (fun b blk => callback blk b) links batch.
End Passes.

(** ** Reading a batch *)

(** [blockDataLoader_.get(filenum)] followed by [BlockData::deserialize] at
    the header's position: the block the files hold for a header, or the
    exception [deserialize] throws.  The block files are read outside this
    translation unit. *)
Class BlockDataLoader : Type := {
  loadBlock : BlockHeader -> result BlockData
}.

Record Config : Type := mkConfig {
  blockchain_ : Blockchain;
  nBlockFilesPerBatch_ : Z;
  totalThreadCount_ : Z;
  nBlocksLookAhead_ : Z
}.

Section Scan.
Context `{ScrAddrFilter} `{BtcUtils} `{OffsetReader} `{BlockDataLoader}.
Variable cfg : Config.

(** The [while (currentBlock >= batch->end_)] loop of [readBlockData]: the
    blocks posted so far and how the loop ended.  A turn either throws
    or moves [currentBlock] up by [totalThreadCount_]. *)
Fixpoint readBlockData_loop (fuel : nat) (batch_end currentBlock : Z)
    (posted : list BlockData) : list BlockData * result unit :=
  if currentBlock >=? batch_end then
    match fuel with
    | O => (posted, OutOfFuel)
    | S fuel' =>
        match getHeaderByHeight (blockchain_ cfg) currentBlock with
        | Ok blockheader =>
            match loadBlock blockheader with
            | Ok blockdata =>
                readBlockData_loop fuel' batch_end
                  (wrap32 (currentBlock + totalThreadCount_ cfg))
                  (posted ++ [blockdata])
            | r => (posted, failed r)
            end
        | r => (posted, failed r)
        end
    end
  else (posted, Ok tt).

(** [readBlockData(batch)]: the [BlockDataLink]s posted, in order; when the
    outcome is [Ok] the terminating empty link follows them. *)
Definition readBlockData (batch : BlockDataBatch)
    : list BlockData * result unit :=
  readBlockData_loop (S (length (headersByHeight (blockchain_ cfg))))
    (end_ batch) (start_ batch) [].

(** ** [scanBlockData], before and after it waits on the batch mutex *)

Definition scanBlockData_txouts (links : list BlockData)
    (batch : BlockDataBatch) : BlockDataBatch :=
  blockDataLoop txoutParser links batch.

Definition scanBlockData_txins (utxoMap : UtxoMap) (links : list BlockData)
    (batch : BlockDataBatch) : BlockDataBatch :=
  blockDataLoop (txinParser utxoMap) links batch.

(** ** The scanner object *)

Record ScannerState : Type := mkScanner {
  utxoMap_ : UtxoMap;
  topScannedBlockHash_ : BinaryData
}.

Record BatchLink : Type := mkBatchLink {
  batchVec_ : list BlockDataBatch;
  link_topScannedBlockHash_ : BinaryData
}.

(** [utxoMap_.insert(batch->utxos_.begin(), batch->utxos_.end())] for every
    batch: an entry [utxoMap_] has already is kept. *)
Definition update_utxoMap (utxoMap : UtxoMap)
    (batchVec : list BlockDataBatch) : UtxoMap :=
  fold_left (fun m batch => m ∪ utxos_ batch) batchVec utxoMap.

(** *** [accumulateDataBeforeBatchWrite] *)

Definition prune_spent (utxoMap : UtxoMap) (spentTxOut : StoredTxOut)
    : UtxoMap :=
  match utxoMap !! parentHash_ spentTxOut with
  | None => utxoMap
  | Some utxos =>
      match utxos !! txOutIndex_ spentTxOut with
      | None => utxoMap
      | Some _ =>
          let utxos' := delete (txOutIndex_ spentTxOut) utxos in
          if bool_decide (size utxos' = 0%nat)
          then delete (parentHash_ spentTxOut) utxoMap
          else <[parentHash_ spentTxOut := utxos']> utxoMap
      end
  end.

Definition accumulateDataBeforeBatchWrite (st : ScannerState)
    (batchVec : list BlockDataBatch) : ScannerState * result unit :=
  let spentTxOuts := flat_map spentTxOuts_ batchVec in
  let utxoMap := fold_left prune_spent spentTxOuts (utxoMap_ st) in
  let topScannedBlockHeight :=
    fold_left (fun t batch => if t <? end_ batch then end_ batch else t)
      batchVec 0 in
  match getHeaderByHeight (blockchain_ cfg) topScannedBlockHeight with
  | Ok hdr => (mkScanner utxoMap (getThisHash hdr), Ok tt)
  | r => (mkScanner utxoMap (topScannedBlockHash_ st), failed r)
  end.

(** *** [scan] *)

Inductive ScanEvent : Type :=
| LOGWARN_beyond_top
| start_write_thread
| start_read_thread (batch_start batch_end : Z)
| start_scan_thread (batch_start batch_end : Z)
| utxo_scans_done
| release_batch_mutexes
| join_scan_threads
| push_batch (link : BatchLink)
| LOGERR_failed_to_grab (startHeight : Z)
| LOGERR_no_block_data
| push_termination
| join_write_thread.

(** The inner [while (currentHeader->getBlockFileNum() < targetBlkFileNum)]:
    [targetHeight] when the loop is left, and how it was left. *)
Fixpoint targetHeight_loop (fuel : nat) (targetBlkFileNum : Z)
    (currentHeader : BlockHeader) (targetHeight : Z) : Z * result unit :=
  if getBlockFileNum currentHeader <? targetBlkFileNum then
    match fuel with
    | O => (targetHeight, OutOfFuel)
    | S fuel' =>
        let targetHeight := wrap32 (targetHeight + 1) in
        match getHeaderByHeight (blockchain_ cfg) targetHeight with
        | Ok h => targetHeight_loop fuel' targetBlkFileNum h targetHeight
        | r => (targetHeight, failed r)
        end
    end
  else (targetHeight, Ok tt).

(** The [try]/[catch] that sets [targetHeight] for a batch group. *)
Definition find_targetHeight (startHeight : Z) : result Z :=
  let topHeight := getBlockHeight (top (blockchain_ cfg)) in
  let '(targetHeight, r) :=
    match getHeaderByHeight (blockchain_ cfg) startHeight with
    | Ok currentHeader =>
        let currentBlkFileNum := getBlockFileNum currentHeader in
        let targetBlkFileNum :=
          wrap32 (currentBlkFileNum + nBlockFilesPerBatch_ cfg) in
        targetHeight_loop (S (length (headersByHeight (blockchain_ cfg))))
          targetBlkFileNum currentHeader startHeight
    | r => (0, failed r)
    end in
  match r with
  | Ok _ => Ok targetHeight
  | Raise range_error =>
      if targetHeight <? topHeight then Raise range_error else Ok topHeight
  | r => failed r
  end.

(** [startHeight += endHeight + 1], the last statement of a turn of the
    loop of [scan]. *)
Definition next_startHeight (startHeight endHeight : Z) : Z :=
  wrap32 (startHeight + wrap32 (endHeight + 1)).

(** [scan(scanFrom)].  After the sanity check [scan] starts the write thread
    on a copy of [batchLinkFuture], which is default-constructed at that
    point and has no shared state; the promises of the loop are bound to
    [scan]'s own variable, never to the copy.  [writeBlockData] begins with
    [batchFuture.get()] on the copy, so a run that gets past the sanity
    check does not end in a defined way.  Nor do the threads of a
    turn hand anything on: [readBlockData] assigns its promises to a local
    copy of [batch->first_], and [scan] reads [doneScanningUtxos_] while the
    scan threads assign it.  The trace of such a run is given up to the
    start of the write thread. *)
Definition scan (st : ScannerState) (scanFrom : Z)
    : ScannerState * list ScanEvent * result unit :=
  let topBlock := top (blockchain_ cfg) in
  if getBlockHeight topBlock <? scanFrom
  then (st, [LOGWARN_beyond_top], Ok tt)
  else (st, [start_write_thread], Fault).

(** The batch groups a run of [scan] handed to the write thread. *)
Definition pushed_links (tr : list ScanEvent) : list BatchLink :=
  flat_map (fun e => match e with push_batch l => [l] | _ => [] end) tr.

End Scan.

(** ** The write thread *)

Inductive DBName : Type :=
| HISTORY
| STXO
| TXHINTS.

Inductive TxMode : Type :=
| ReadOnly
| ReadWrite.

Record StoredTxHints : Type := mkStoredTxHints {
  txHashPrefix_ : BinaryData;
  dbKeyList_ : list DBKey;
  preferredDBKey_ : DBKey
}.

#[global] Instance StoredTxHints_empty : Empty StoredTxHints :=
  mkStoredTxHints [] [] [].

(** What the threads of the writer do to the database, one event per call. *)
Inductive DBEvent : Type :=
| start_hints_thread
| join_hints_thread
| beginDBTransaction (db : DBName) (mode : TxMode)
| endDBTransaction (db : DBName) (mode : TxMode)
| putValue_STXO (key : DBKey) (value : list StoredTxOut)
| putValue_HISTORY (key : BinaryData * DBKey) (value : list (gmap DBKey TxIOPair))
| putValue_TXHINTS (key : BinaryData) (value : StoredTxHints)
| getStoredDBInfo (db : DBName)
| putStoredDBInfo (db : DBName) (topBlkHash : BinaryData)
| getStoredTxHints (prefix : BinaryData).

Section Writer.
(** Modelled from the spec: [LMDBBlockDatabase::getStoredTxHints] is
    declared outside this translation unit.  [txhints_db] is the content of
    the [TXHINTS] sub-db when the hints thread reads it; the call loads the
    stored hints of a prefix, and leaves its argument as it is when the
    sub-db has none. *)
Variable txhints_db : gmap BinaryData StoredTxHints.

Definition load_hints (stxh : StoredTxHints) (prefix : BinaryData)
    : StoredTxHints :=
  default stxh (txhints_db !! prefix).

(** A value serialised into [m[key]]: it is appended to what the
    [BinaryWriter] of that key holds. *)
Definition serialize_into `{Countable K} {V} (key : K) (v : V)
    (m : gmap K (list V)) : gmap K (list V) :=
  <[key := default [] (m !! key) ++ [v]]> m.

(** [serializedSubSSH] after the first pass of [writeBlockData]. *)
Definition serialize_subssh (batchVec : list BlockDataBatch)
    : gmap (BinaryData * DBKey) (list (gmap DBKey TxIOPair)) :=
  fold_left
    (fun m batch =>
       fold_left
         (fun m '(scrAddr, subHistMap) =>
            fold_left
              (fun m '(hgtx, subssh) => serialize_into (scrAddr, hgtx) subssh m)
              (map_to_list (subHistMap : gmap DBKey (gmap DBKey TxIOPair))) m)
         (map_to_list (ssh_ batch)) m)
    batchVec ∅.

(** [serializedStxo] after the first pass: every utxo of every batch. *)
Definition serialize_utxos (batchVec : list BlockDataBatch)
    : gmap DBKey (list StoredTxOut) :=
  fold_left
    (fun m batch =>
       fold_left
         (fun m '(_, utxos) =>
            fold_left
              (fun m '(_, utxo) => serialize_into (getDBKey utxo) utxo m)
              (map_to_list (utxos : gmap Z StoredTxOut)) m)
         (map_to_list (utxos_ batch)) m)
    batchVec ∅.

(** The second pass: a spent txout replaces what its key holds. *)
Definition serialize_spent (batchVec : list BlockDataBatch)
    (m : gmap DBKey (list StoredTxOut)) : gmap DBKey (list StoredTxOut) :=
  fold_left
    (fun m batch =>
       fold_left (fun m stxo => <[getDBKey stxo := [stxo]]> m)
         (spentTxOuts_ batch) m)
    batchVec m.

(** The body of one turn of the loop of [writeBlockData], between the start
    of the hints thread and the wait for it. *)
Definition writeBlockData_body (link : BatchLink) : list DBEvent :=
  let serializedSubSSH := serialize_subssh (batchVec_ link) in
  let serializedStxo :=
    serialize_spent (batchVec_ link) (serialize_utxos (batchVec_ link)) in
  (* txouts *)
  [beginDBTransaction STXO ReadWrite]
  ++ map (fun '(k, v) => putValue_STXO k v) (map_to_list serializedStxo)
  ++ [endDBTransaction STXO ReadWrite]
  (* subssh *)
  ++ [beginDBTransaction HISTORY ReadWrite]
  ++ map (fun '(k, v) => putValue_HISTORY k v) (map_to_list serializedSubSSH)
  (* update SDBI in HISTORY db *)
  ++ [getStoredDBInfo HISTORY;
      putStoredDBInfo HISTORY (link_topScannedBlockHash_ link);
      endDBTransaction HISTORY ReadWrite].

(** [processAndCommitTxHints]: the hints gathered, with the reads made on
    the way. *)
Definition gather_hints (batchVec : list BlockDataBatch)
    : gmap BinaryData StoredTxHints * list DBEvent :=
  fold_left
    (fun acc batch =>
       fold_left
         (fun '(txHints, evs) '(txHash, utxos) =>
            let txHashPrefix := slice txHash 0 4 in
            let stxh := map_at txHashPrefix txHints in
            let stxh := load_hints stxh txHashPrefix in
            let keys :=
              dbKeyList_ stxh
              ++ map (fun '(_, utxo) => getDBKeyOfParentTx utxo)
                   (map_to_list (utxos : gmap Z StoredTxOut)) in
            let stxh :=
              mkStoredTxHints (txHashPrefix_ stxh) keys (hd [] keys) in
            (<[txHashPrefix := stxh]> txHints,
             evs ++ [getStoredTxHints txHashPrefix]))
         (map_to_list (utxos_ batch)) acc)
    batchVec (∅, []).

Definition processAndCommitTxHints (batchVec : list BlockDataBatch)
    : list DBEvent :=
  let '(txHints, reads) := gather_hints batchVec in
  [beginDBTransaction TXHINTS ReadOnly]
  ++ reads
  ++ [beginDBTransaction TXHINTS ReadWrite]
  ++ map (fun '(k, v) => putValue_TXHINTS k v) (map_to_list txHints)
  ++ [endDBTransaction TXHINTS ReadWrite; endDBTransaction TXHINTS ReadOnly].

(** The schedules of two threads: every merge of their event sequences
    that keeps the order inside each. *)
Inductive interleave {A : Type} : list A -> list A -> list A -> Prop :=
| interleave_nil : interleave [] [] []
| interleave_left a l r m :
    interleave l r m -> interleave (a :: l) r (a :: m)
| interleave_right a l r m :
    interleave l r m -> interleave l (a :: r) (a :: m).

(** One turn of the loop of [writeBlockData]: the hints thread is started
    first and joined last; in between it runs beside the writer. *)
Definition write_group (link : BatchLink) (tr : list DBEvent) : Prop :=
  exists m,
    interleave (writeBlockData_body link)
      (processAndCommitTxHints (batchVec_ link)) m
    /\ tr = start_hints_thread :: m ++ [join_hints_thread].

(** [writeBlockData] over the batch groups it receives, up to the
    termination marker. *)
Inductive writeBlockData : list BatchLink -> list DBEvent -> Prop :=
| write_done : writeBlockData [] []
| write_next link links tr trs :
    write_group link tr ->
    writeBlockData links trs ->
    writeBlockData (link :: links) (tr ++ trs).

Definition is_record_put (db : DBName) (e : DBEvent) : bool :=
  match db, e with
  | STXO, putValue_STXO _ _ => true
  | HISTORY, putValue_HISTORY _ _ => true
  | TXHINTS, putValue_TXHINTS _ _ => true
  | _, _ => false
  end.

Definition is_sdbi_update (e : DBEvent) : bool :=
  match e with
  | putStoredDBInfo HISTORY _ => true
  | _ => false
  end.

(** In [tr] every event that satisfies [p] comes before every event that
    satisfies [q]. *)
Definition all_before (p q : DBEvent -> bool) (tr : list DBEvent) : Prop :=
  forall i j e1 e2,
    tr !! i = Some e1 -> tr !! j = Some e2 ->
    p e1 = true -> q e2 = true -> (i < j)%nat.
End Writer.

(** ** [BlockData::deserialize] *)

(** What [deserialize] stores for a transaction: the [BCTX] with its
    version and lock time. *)
Record ParsedTx : Type := mkParsedTx {
  ptx : BCTX;
  version_ : Z;
  lockTime_ : Z
}.

(** The byte-level helpers [deserialize] calls, which are declared outside
    this translation unit:
    - the double SHA-256 by which a header and a transaction are named;
    - [BinaryRefReader::get_var_int] on the bytes the reader has left: the
      value and the number of bytes it took, or what it does when the bytes
      do not hold one;
    - [BinaryRefReader::advance(n)] on a reader that has [left] bytes left:
      the number of bytes it moves by, or what it does when [n] is more than
      it has;
    - [BtcUtils::TxCalcLength], which gives the size of the transaction at
      the head of a buffer and fills the vectors of input and output
      offsets, or throws. *)
Class TxReader : Type := {
  getHash256 : BinaryData -> BinaryData;
  brr_get_var_int : BinaryData -> result (Z * Z);
  brr_advance : Z -> Z -> result Z;
  TxCalcLength : BinaryData -> result (Z * list Z * list Z)
}.

Section Deserialize.
Context `{TxReader}.

(** The loops that turn offsets into (offset, size) pairs, from index [y]
    on: [for (y = 0; y < offsets.size() - 1; y++)].  On an empty vector
    [size() - 1] wraps around and [offsets[0]] is outside the vector. *)
Fixpoint offset_pairs (offsets : list Z) : list (Z * Z) :=
  match offsets with
  | o :: ((o' :: _) as rest) => (o, wrap64 (o' - o)) :: offset_pairs rest
  | _ => []
  end.

Definition offsets_to_pairs (offsets : list Z) : result (list (Z * Z)) :=
  match offsets with
  | [] => Fault
  | _ => Ok (offset_pairs offsets)
  end.

(** [offsetOuts.back()] *)
Definition back (offsets : list Z) : result Z :=
  match List.last (map Some offsets) None with
  | Some o => Ok o
  | None => Fault
  end.

(** The loop over the transactions: [n] transactions are left to read and
    the reader stands at [pos] in [data]. *)
Fixpoint deserialize_txns (n : nat) (data : BinaryData) (pos : Z)
    (txns : list ParsedTx) : result (list ParsedTx) :=
  match n with
  | O => Ok txns
  | S n' =>
      let cur := skipn (Z.to_nat pos) data in
      '(txSize, offsetIns, offsetOuts) ← TxCalcLength cur;
      let bytes := slice data pos txSize in
      let version := READ_UINT32_LE data pos in
      txins ← offsets_to_pairs offsetIns;
      txouts ← offsets_to_pairs offsetOuts;
      lockAt ← back offsetOuts;
      let tx :=
        {| ptx := {| data_ := bytes; txHash_ := getHash256 bytes;
                     txins_ := txins; txouts_ := txouts |};
           version_ := version;
           lockTime_ := READ_UINT32_LE data (pos + lockAt) |} in
      moved ← brr_advance (Z.of_nat (length cur)) txSize;
      deserialize_txns n' data (pos + moved) (txns ++ [tx])
  end.

(** [deserialize(data, size, blockHeader)] on an empty [BlockData]. *)
Definition deserialize (data : BinaryData) (blockHeader : BlockHeader)
    : result (BlockHeader * list ParsedTx) :=
  let size := Z.of_nat (length data) in
  if size <? BlockUtils.HEADER_SIZE
  then Raise (runtime_error "raw data is smaller than HEADER_SIZE")
  else
    let bh := getHash256 (slice data 0 BlockUtils.HEADER_SIZE) in
    if negb (bd_eqb bh (getThisHash blockHeader))
    then Raise (runtime_error "raw data does not back expected block hash")
    else
      '(v, used) ←
        brr_get_var_int (skipn (Z.to_nat BlockUtils.HEADER_SIZE) data);
      let numTx := wrap32 v in
      if negb (numTx =? getNumTx blockHeader)
      then Raise (runtime_error "tx count mismatch in deser header")
      else
        txns ←
          deserialize_txns (Z.to_nat numTx) data
            (BlockUtils.HEADER_SIZE + used) [];
        Ok (blockHeader, txns).
End Deserialize.

End Scanner.

(** * Specification vocabulary

    The notions the properties below are stated with. *)

Module Spec.
Import BlockUtils Scanner.

(** ** [stripQuotes] *)

Definition strip_leading_quote (s : string) : string :=
  match s with
  | String c s' => if is_quote c then s' else s
  | EmptyString => EmptyString
  end.

Fixpoint strip_trailing_quote (s : string) : string :=
  match s with
  | EmptyString => EmptyString
  | String c EmptyString => if is_quote c then EmptyString else s
  | String c s' => String c (strip_trailing_quote s')
  end.

Fixpoint last_char (s : string) : option ascii :=
  match s with
  | EmptyString => None
  | String c EmptyString => Some c
  | String _ s' => last_char s'
  end.

(** ** [scanFor] *)

(** [pat] occurs in [mem] at offset [j]. *)
Definition occurs_at (mem pat : BinaryData) (j : nat) : Prop :=
  firstn (length pat) (skipn j mem) = pat.

(** ** [detectAllBlkFiles] *)

Section DetectSpec.
Variable name : Z -> string.

(** The detected set is [blk0 .. blk(N-1)], in order. *)
Definition gapless (s : BlkFiles) : Prop :=
  forall (i : nat) f,
    blkFiles_ s !! i = Some f ->
    fnum f = Z.of_nat i /\ path f = name (Z.of_nat i).

(** File sizes are what [GetFileSize] can return. *)
Definition valid_disk (d : Disk) : Prop :=
  forall p sz, d p = Some sz -> 0 <= sz.

(** Files are only appended or grown. *)
Definition grows (d d' : Disk) : Prop :=
  forall p sz, d p = Some sz -> exists sz', d' p = Some sz' /\ sz <= sz'.

(** The bytes of the files [blk k, blk (k+1), ...] that are on disk
    without a gap, at most [n] of them. *)
Fixpoint prefix_total (n : nat) (d : Disk) (k : nat) : Z :=
  match n with
  | O => 0
  | S n' =>
      match d (name (Z.of_nat k)) with
      | Some sz => sz + prefix_total n' d (S k)
      | None => 0
      end
  end.

Definition disk_total (d : Disk) : Z :=
  prefix_total (Z.to_nat UINT16_MAX) d 0.

(** The block files on disk together hold fewer than 2^64 bytes. *)
Definition fits (d : Disk) : Prop := disk_total d < UINT64_MOD.

Definition sum_sizes (l : list BlkFile) : Z :=
  fold_right Z.add 0 (map filesize l).

Definition recorded_on (d : Disk) (l : list BlkFile) : Prop :=
  forall (i : nat) f,
    l !! i = Some f ->
    exists sz, d (name (Z.of_nat i)) = Some sz /\ 0 <= filesize f <= sz.

(** What every call of [detectAllBlkFiles] keeps. *)
Definition detect_inv (d : Disk) (s : BlkFiles) : Prop :=
  gapless s
  /\ (length (blkFiles_ s) <= Z.to_nat UINT16_MAX)%nat
  /\ recorded_on d (blkFiles_ s)
  /\ totalBlockchainBytes_ s = wrap64 (sum_sizes (blkFiles_ s)).

(** Directory states observed one after the other. *)
Fixpoint growing (d : Disk) (disks : list Disk) : Prop :=
  match disks with
  | [] => True
  | d' :: disks' => grows d d' /\ growing d' disks'
  end.
End DetectSpec.

(** ** The scanner *)

Definition starts_thread (e : ScanEvent) : bool :=
  match e with
  | start_write_thread | start_read_thread _ _ | start_scan_thread _ _ => true
  | _ => false
  end.

(** The outpoint a transaction input names: the 32-byte hash of the previous
    transaction and the output index after it. *)
Definition txin_outpoint (txn : BCTX) (txin : Z * Z) : BinaryData * Z :=
  (slice (data_ txn) (fst txin) 32,
   READ_UINT32_LE (data_ txn) (fst txin + 32)).

(** The outpoint named by the input a txin key designates, in the blocks
    scanned. *)
Definition txin_at (blocks : list BlockData) (key : DBKey)
    : option (BinaryData * Z) :=
  match key with
  | [height; dup; i; y] =>
      blk ← List.find
              (fun b => (getBlockHeight (header b) =? height)
                        && (getDuplicateID (header b) =? dup)) blocks;
      txn ← txns_ blk !! Z.to_nat i;
      txin ← txins_ txn !! Z.to_nat y;
      Some (txin_outpoint txn txin)
  | _ => None
  end.

Section Outputs.
Context `{ScrAddrFilter} `{BtcUtils} `{OffsetReader}.

(** The watched outputs of a block, as (tx hash, output index): those for
    which the filter has the address the output pass reads,
    [txout_scrAddr] of the output's offset. *)
Definition watched_outputs (blk : BlockData) : list (BinaryData * Z) :=
  flat_map
    (fun txn =>
       flat_map
         (fun '(y, txout) =>
            if hasScrAddress (txout_scrAddr (fst txout))
            then [(txHash_ txn, Z.of_nat y)] else [])
         (imap pair (txouts_ txn)))
    (txns_ blk).
End Outputs.

(** [utxoMap] holds, under the transaction's hash, a [StoredTxOut] for
    output [snd o]. *)
Definition in_utxoMap (utxoMap : UtxoMap) (o : BinaryData * Z) : bool :=
  match utxoMap !! fst o with
  | Some utxos =>
      existsb (fun '(_, stxo) => txOutIndex_ stxo =? snd o) (map_to_list utxos)
  | None => false
  end.

(** Every entry of a utxo map sits under its parent hash and, inside, under
    the index of its transaction in the block. *)
Definition keyed_by_txIndex (m : UtxoMap) : Prop :=
  forall h (utxos : gmap Z StoredTxOut) k stxo,
    m !! h = Some utxos -> utxos !! k = Some stxo ->
    parentHash_ stxo = h /\ txIndex_ stxo = k.

(** ** The write thread *)

Definition is_join (e : DBEvent) : bool :=
  match e with
  | join_hints_thread => true
  | _ => false
  end.

Definition is_hint_read (e : DBEvent) : bool :=
  match e with
  | getStoredTxHints _ => true
  | _ => false
  end.

Definition none_of (p : DBEvent -> bool) (l : list DBEvent) : Prop :=
  forall e, e ∈ l -> p e = false.

(** ** Entries of a utxo map *)

(** The [StoredTxOut] that [utxoMap] holds under hash [h] and key [k]. *)
Definition lookup2 (utxoMap : UtxoMap) (h : BinaryData) (k : Z)
    : option StoredTxOut :=
  match utxoMap !! h with
  | Some utxos => utxos !! k
  | None => None
  end.

(** No transaction hash has an empty map of outputs. *)
Definition no_empty_entry (utxoMap : UtxoMap) : Prop :=
  forall h (utxos : gmap Z StoredTxOut), utxoMap !! h = Some utxos -> utxos ≠ ∅.

(** The entry of [h] in the first batch that has one. *)
Definition first_utxos (batchVec : list BlockDataBatch) (h : BinaryData)
    : option (gmap Z StoredTxOut) :=
  head (omap (fun b => utxos_ b !! h) batchVec).

(** An entry with its spentness set, as the input pass reports it. *)
Definition mark_spent (found : StoredTxOut) (txinkey : DBKey) : StoredTxOut :=
  {| dataCopy_ := dataCopy_ found;
     parentHash_ := parentHash_ found;
     blockHeight_ := blockHeight_ found;
     duplicateID_ := duplicateID_ found;
     txIndex_ := txIndex_ found;
     txOutIndex_ := txOutIndex_ found;
     scrAddr_ := scrAddr_ found;
     spentness_ := TXOUT_SPENT;
     spentByTxInKey_ := txinkey |}.

Section Records.
Context `{ScrAddrFilter} `{BtcUtils} `{OffsetReader}.

(** The record of output [y] of transaction [i] of a block. *)
Definition stxo_of (hdr : BlockHeader) (i : Z) (txn : BCTX) (y : Z)
    (txout : Z * Z) : StoredTxOut :=
  {| dataCopy_ := slice (data_ txn) (fst txout) (snd txout);
     parentHash_ := txHash_ txn;
     blockHeight_ := getBlockHeight hdr;
     duplicateID_ := getDuplicateID hdr;
     txIndex_ := i;
     txOutIndex_ := y;
     scrAddr_ := txout_scrAddr (fst txout);
     spentness_ := TXOUT_UNSPENT;
     spentByTxInKey_ := [] |}.

(** [stxo] is the record of a watched output of transaction [k] of one of
    the blocks, and [h] is the hash of that transaction.  An output is
    watched when the filter has [txout_scrAddr] of its offset. *)
Definition recorded_from (links : list BlockData) (h : BinaryData) (k : Z)
    (stxo : StoredTxOut) : Prop :=
  exists blk txn (y : nat) txout,
    blk ∈ links
    /\ 0 <= k
    /\ txns_ blk !! Z.to_nat k = Some txn
    /\ txouts_ txn !! y = Some txout
    /\ txHash_ txn = h
    /\ hasScrAddress (txout_scrAddr (fst txout)) = true
    /\ stxo = stxo_of (header blk) k txn (Z.of_nat y) txout.
End Records.

(** [stxo] is what the input pass reports for input [y] of transaction [i]
    of one of the blocks: the entry its outpoint finds in [utxoMap], marked
    spent by that input. *)
Definition spent_by_input (utxoMap : UtxoMap) (links : list BlockData)
    (stxo : StoredTxOut) : Prop :=
  exists blk (i : nat) txn (y : nat) txin found,
    blk ∈ links
    /\ txns_ blk !! i = Some txn
    /\ txins_ txn !! y = Some txin
    /\ lookup2 utxoMap (fst (txin_outpoint txn txin))
         (snd (txin_outpoint txn txin)) = Some found
    /\ stxo = mark_spent found
                (getBlkDataKeyNoPrefix4 (getBlockHeight (header blk))
                   (getDuplicateID (header blk)) (Z.of_nat i) (Z.of_nat y)).

Section Groups.
Context `{ScrAddrFilter} `{BtcUtils} `{OffsetReader}.

(** [utxoMap_] when the input passes of a batch group start: every thread
    has run its output pass over the blocks it was given, on a batch made
    for its range, and [scan] has added the unspent outputs of the batches
    to the map it had. *)
Definition utxoMap_at_barrier (utxoMap : UtxoMap)
    (links : list (list BlockData)) (ranges : list (Z * Z)) : UtxoMap :=
  update_utxoMap utxoMap
    (zip_with scanBlockData_txouts links
       (map (fun r => new_batch (fst r) (snd r)) ranges)).
End Groups.

(** No entry of [m] under the hash of [txn] is a record of its output
    [y]. *)
Definition no_record (txn : BCTX) (y : nat) (m : UtxoMap) : Prop :=
  forall k e, lookup2 m (txHash_ txn) k = Some e ->
    txOutIndex_ e <> Z.of_nat y.

(** Among the blocks the threads of a group are given, a transaction that
    has the hash of [txn] is [txn]. *)
Definition hash_names (links : list (list BlockData)) (txn : BCTX) : Prop :=
  forall blocks blk (i : nat) txn',
    blocks ∈ links -> blk ∈ blocks -> txns_ blk !! i = Some txn' ->
    txHash_ txn' = txHash_ txn -> txn' = txn.

(** ** The block files listed *)

Section DetectListing.
Variable name : Z -> string.

(** Every file of the list is the block file of its index, with the size
    the directory gives it. *)
Definition listed_from (d : Disk) (s : BlkFiles) : Prop :=
  forall (i : nat) f,
    blkFiles_ s !! i = Some f ->
    fnum f = Z.of_nat i /\ path f = name (Z.of_nat i)
    /\ d (name (Z.of_nat i)) = Some (filesize f).
End DetectListing.

(** [filesizeCumul] of a file is the sum of the recorded sizes of the files
    before it, and [totalBlockchainBytes_] the sum of all recorded sizes, as
    64-bit numbers. *)
Definition cumulative (s : BlkFiles) : Prop :=
  (forall (i : nat) f,
     blkFiles_ s !! i = Some f ->
     filesizeCumul f = wrap64 (sum_sizes (take i (blkFiles_ s))))
  /\ totalBlockchainBytes_ s = wrap64 (sum_sizes (blkFiles_ s)).

(** ** Block files that hold whole blocks *)

(** A block as a block file holds it after the magic bytes: the four bytes
    of its size and its bytes. *)
Definition Frame : Type := BinaryData * BinaryData.

Definition well_framed (fr : Frame) : Prop :=
  length (fst fr) = 4%nat
  /\ le_decode (fst fr) = Z.of_nat (length (snd fr))
  /\ snd fr <> [].

(** A block whose size field is right and that is long enough for the
    header reader, which takes [HEAD_AND_NTX_SZ] bytes of it. *)
Definition header_framed (fr : Frame) : Prop :=
  length (fst fr) = 4%nat
  /\ le_decode (fst fr) = Z.of_nat (length (snd fr))
  /\ HEAD_AND_NTX_SZ <= Z.of_nat (length (snd fr))
  /\ Z.of_nat (length (snd fr)) + 8 < UINT32_MOD.

Definition frame_bytes (magic : BinaryData) (fr : Frame) : BinaryData :=
  magic ++ fst fr ++ snd fr.

(** The content of a block file that holds the blocks [frames] and nothing
    else. *)
Definition framed_file (magic : BinaryData) (frames : list Frame)
    : BinaryData :=
  concat (map (frame_bytes magic) frames).

(** The callbacks of the raw reader over the blocks [frames] of file
    [fnum], from offset [off] on: each block with the offset of its magic
    bytes. *)
Fixpoint frame_events (fnum off : Z) (frames : list Frame)
    : list ReadEvent :=
  match frames with
  | [] => []
  | fr :: rest =>
      blockDataCallback (snd fr) (fnum, off) (Z.of_nat (length (snd fr)))
      :: frame_events fnum (off + 8 + Z.of_nat (length (snd fr))) rest
  end.

(** The callbacks of the header reader over the same blocks: the first
    [HEAD_AND_NTX_SZ] bytes of each block, the offset of its magic bytes and
    its size. *)
Fixpoint header_events (fnum off : Z) (frames : list Frame)
    : list ReadEvent :=
  match frames with
  | [] => []
  | fr :: rest =>
      blockDataCallback (firstn (Z.to_nat HEAD_AND_NTX_SZ) (snd fr))
        (fnum, off) (Z.of_nat (length (snd fr)))
      :: header_events fnum (off + 8 + Z.of_nat (length (snd fr))) rest
  end.


(** ** The ring of the stream [scanFor] *)

(** After [k] turns the ring [ahead] holds the [len] bytes of [mem] from
    offset [k] on, the first of them at index [k mod len]. *)
Definition ring_holds (mem : BinaryData) (len k : nat) (ahead : BinaryData)
    : Prop :=
  length ahead = len
  /\ forall i : nat,
       (i < len)%nat -> ahead !! ((i + k) mod len)%nat = mem !! (k + i)%nat.

(** ** Paths *)

(** [base] and [add] joined into one path: a [/] goes between them when
    neither [base] ends nor [add] starts with a separator. *)
Definition join_path (base add : string) : string :=
  match add, last_char base with
  | String c _, Some l =>
      if is_separator c || is_separator l then String.append base add
      else String.append base (String.append "/" add)
  | _, _ => base
  end.

(** ** History entries *)

(** The history entry [ssh] holds for a script address under a block
    ([hgtx]) and a txio key. *)
Definition lookup_txio (ssh : SshMap) (scrAddr : BinaryData)
    (hgtx key : DBKey) : option TxIOPair :=
  match ssh !! scrAddr with
  | Some subHistMap =>
      match subHistMap !! hgtx with
      | Some txioMap => txioMap !! key
      | None => None
      end
  | None => None
  end.

Section History.
Context `{ScrAddrFilter} `{BtcUtils} `{OffsetReader}.

(** The history entry of output [y] of transaction [i] of a block: its
    value, its key, and no input yet. *)
Definition txio_of (hdr : BlockHeader) (i : Z) (txn : BCTX) (y : Z)
    (txout : Z * Z) : TxIOPair :=
  {| txio_value := getValue (stxo_of hdr i txn y txout);
     txio_txout :=
       getBlkDataKeyNoPrefix4 (getBlockHeight hdr) (getDuplicateID hdr) i y;
     txio_txin := None |}.

(** [txio] under ([scrAddr], [hgtx], [key]) is the history entry of a
    watched output of one of the blocks. *)
Definition history_from (links : list BlockData) (scrAddr : BinaryData)
    (hgtx key : DBKey) (txio : TxIOPair) : Prop :=
  exists blk (i : nat) txn (y : nat) txout,
    blk ∈ links
    /\ txns_ blk !! i = Some txn
    /\ txouts_ txn !! y = Some txout
    /\ hasScrAddress (txout_scrAddr (fst txout)) = true
    /\ scrAddr = txout_scrAddr (fst txout)
    /\ hgtx = heightAndDupToHgtx (getBlockHeight (header blk))
                (getDuplicateID (header blk))
    /\ key = getBlkDataKeyNoPrefix4 (getBlockHeight (header blk))
               (getDuplicateID (header blk)) (Z.of_nat i) (Z.of_nat y)
    /\ txio = txio_of (header blk) (Z.of_nat i) txn (Z.of_nat y) txout.
End History.

(** ** Batches and the scanner's map *)

(** The batch [b] differs from [b0] by spent outputs appended, at most. *)
Definition input_frame (b0 b : BlockDataBatch) : Prop :=
  utxos_ b = utxos_ b0 /\ start_ b = start_ b0 /\ end_ b = end_ b0
  /\ highestProcessedHeight_ b = highestProcessedHeight_ b0
  /\ exists more, spentTxOuts_ b = spentTxOuts_ b0 ++ more.

(** One of the spent outputs names output [k] of transaction [h]. *)
Definition spent_in (spent : list StoredTxOut) (h : BinaryData) (k : Z)
    : bool :=
  existsb (fun s => bool_decide (parentHash_ s = h /\ txOutIndex_ s = k)) spent.

(** ** Batch groups *)

(** The chain has a header for every height up to the height of its top,
    and no more. *)
Definition chain_to_top (bc : Blockchain) : Prop :=
  Z.of_nat (length (headersByHeight bc)) = getBlockHeight (top bc) + 1
  /\ getBlockHeight (top bc) + 1 < UINT32_MOD.

(** The block file of the header at [height] is below [fileNum]. *)
Definition file_below (bc : Blockchain) (fileNum height : Z) : Prop :=
  exists hdr, getHeaderByHeight bc height = Ok hdr
              /\ getBlockFileNum hdr < fileNum.

(** ** What the writer stores *)

(** The top block hashes the writer stores in the [StoredDBInfo] of
    [HISTORY], in the order of the updates. *)
Definition sdbi_updates (tr : list DBEvent) : list BinaryData :=
  flat_map
    (fun e => match e with putStoredDBInfo HISTORY h => [h] | _ => [] end) tr.

(** The spent outputs of a batch group. *)
Definition spent_of (batchVec : list BlockDataBatch) : list StoredTxOut :=
  flat_map spentTxOuts_ batchVec.

(** The last spent output of the group that has the database key [key]. *)
Definition last_spent (spent : list StoredTxOut) (key : DBKey)
    : option StoredTxOut :=
  List.find (fun s => bool_decide (getDBKey s = key)) (rev spent).

End Spec.

(** * Example data *)

Module Fixtures.
Import BlockUtils Scanner.

(** ** Block files *)

Definition mainnet_magic : BinaryData := [xf9; xbe; xb4; xd9].
Definition testnet_magic : BinaryData := [x0b; x11; x09; x07].

Definition digit (n : Z) : ascii := ascii_of_nat (48 + Z.to_nat (n mod 10)).

(** [blkNNNNN.dat] *)
Definition blkName (n : Z) : string :=
  String.append "blk"
    (String (digit (n / 10000))
       (String (digit (n / 1000))
          (String (digit (n / 100))
             (String (digit (n / 10)) (String (digit n) ".dat"))))).

(** One block file, then the same file grown and a second one. *)
Definition disk1 : Disk := fun p =>
  if String.eqb p "blk00000.dat" then Some 100 else None.
Definition disk2 : Disk := fun p =>
  if String.eqb p "blk00000.dat" then Some 150
  else if String.eqb p "blk00001.dat" then Some 30
  else None.

(** A callback that only returns. *)
Definition quiet : Callback unit := fun c _ _ _ => (c, None).

(** A two-byte block behind its magic and size. *)
Definition tiny_block (magic : BinaryData) : BinaryData :=
  magic ++ [x02; x00; x00; x00] ++ [xaa; xbb].

(** A file of another network: testnet magic in its first four bytes, then
    one byte, then a framed mainnet block and padding. *)
Definition foreign_file : BinaryData :=
  testnet_magic ++ [x00] ++ tiny_block mainnet_magic ++ [x00; x00; x00].

(** A file of the configured network: one framed block of 100 bytes and
    padding. *)
Definition good_file : BinaryData :=
  mainnet_magic ++ [x64; x00; x00; x00] ++ repeat x01 100 ++ repeat x00 20.

Definition fs2 : FileSystem := fun p =>
  if String.eqb p "blk00000.dat" then Some foreign_file
  else if String.eqb p "blk00001.dat" then Some good_file
  else None.

Definition blk0 : BlkFile :=
  {| fnum := 0; path := "blk00000.dat";
     filesize := Z.of_nat (length foreign_file); filesizeCumul := 0 |}.
Definition blk1 : BlkFile :=
  {| fnum := 1; path := "blk00001.dat";
     filesize := Z.of_nat (length good_file);
     filesizeCumul := Z.of_nat (length foreign_file) |}.
Definition files2 : BlkFiles :=
  {| blkFiles_ := [blk0; blk1];
     totalBlockchainBytes_ :=
       Z.of_nat (length foreign_file) + Z.of_nat (length good_file) |}.

(** ** Chains and transactions *)

(** A filter that watches the listed addresses. *)
Definition watching (addrs : list BinaryData) : ScrAddrFilter :=
  {| hasScrAddress := fun a => bool_decide (a ∈ addrs) |}.

(** The address of a script, for the examples: the script itself. *)
Definition script_address : BtcUtils :=
  {| getTxOutScrAddr := fun script => script |}.

(** A reader that yields the listed script at each listed offset, and no
    byte elsewhere. *)
Definition reading (scripts : list (Z * BinaryData)) : OffsetReader :=
  {| script_from_offset := fun offset =>
       match List.find (fun p => fst p =? offset) scripts with
       | Some p => snd p
       | None => []
       end |}.

(** A loader over blocks kept by height. *)
Definition loader (blocks : list BlockData) : BlockDataLoader :=
  {| loadBlock := fun h =>
       match nth_error blocks (Z.to_nat (getBlockHeight h)) with
       | Some b => Ok b
       | None => Raise (runtime_error "raw data is smaller than HEADER_SIZE")
       end |}.

Definition hdr (height fileNum : Z) : BlockHeader :=
  {| getBlockHeight := height; getDuplicateID := 0;
     getBlockFileNum := fileNum; getThisHash := repeat x00 31 ++ [x01];
     getNumTx := 0 |}.

(** Six blocks, one per block file. *)
Definition chain6 : Blockchain :=
  {| headersByHeight := map (fun h => hdr h h) [0; 1; 2; 3; 4; 5];
     top := hdr 5 5 |}.

Definition blocks6 : list BlockData :=
  map (fun h => {| header := hdr h h; txns_ := [] |}) [0; 1; 2; 3; 4; 5].

(** One scanner thread, one block file per batch group. *)
Definition cfg6 : Config :=
  {| blockchain_ := chain6; nBlockFilesPerBatch_ := 1;
     totalThreadCount_ := 1; nBlocksLookAhead_ := 10 |}.

Definition scanner0 : ScannerState :=
  {| utxoMap_ := ∅; topScannedBlockHash_ := [] |}.

(** Serialised inputs and outputs. *)
Definition le32 (n : byte) : BinaryData := [n; x00; x00; x00].
Definition txin_bytes (prevHash : BinaryData) (prevIndex : byte) : BinaryData :=
  prevHash ++ le32 prevIndex ++ [x00] ++ [xff; xff; xff; xff].
Definition txout_bytes (value : byte) (script : BinaryData) : BinaryData :=
  [value; x00; x00; x00; x00; x00; x00; x00] ++ [x02] ++ script.

Definition addrA : BinaryData := [xaa; x01].
Definition addrB : BinaryData := [xbb; x02].
Definition addrC : BinaryData := [xcc; x03].

Definition hashT : BinaryData := repeat x11 32.
Definition hashS : BinaryData := repeat x22 32.

(** [txT]: output 0 pays [addrA], output 1 pays [addrC]; each output takes
    11 bytes. *)
Definition txT : BCTX :=
  {| data_ := txout_bytes x05 addrA ++ txout_bytes x07 addrC;
     txHash_ := hashT;
     txins_ := [];
     txouts_ := [(0, 11); (11, 11)] |}.

(** [txS]: one input, which spends output 1 of [txT]. *)
Definition txS : BCTX :=
  {| data_ := txin_bytes hashT x01;
     txHash_ := hashS;
     txins_ := [(0, 41)];
     txouts_ := [] |}.

Definition coinbase (n : byte) : BCTX :=
  {| data_ := txin_bytes (repeat x00 32) xff ++ txout_bytes x32 addrB;
     txHash_ := repeat n 32;
     txins_ := [(0, 41)];
     txouts_ := [(41, 11)] |}.

(** The scripts at the offsets of the outputs of [txT] and of the
    coinbase transactions. *)
Definition scripts_by_offset : OffsetReader :=
  reading [(0, addrA); (11, addrC); (41, addrB)].

(** [blockA] holds [txT] as its transaction 1, [blockB] holds [txS]. *)
Definition blockA : BlockData :=
  {| header := hdr 0 0; txns_ := [coinbase x0a; txT] |}.
Definition blockB : BlockData :=
  {| header := hdr 1 0; txns_ := [coinbase x0b; txS] |}.

(** The batch of one scanner thread over [blockA] and [blockB], with
    [addrA] watched: the output pass, the update of [utxoMap_], the input
    pass. *)
Definition scannedAB : BlockDataBatch :=
  let F := watching [addrA] in
  let U := script_address in
  let R := scripts_by_offset in
  let b := scanBlockData_txouts [blockA; blockB] (new_batch 0 1) in
  scanBlockData_txins (update_utxoMap ∅ [b]) [blockA; blockB] b.

Definition linkAB : BatchLink :=
  {| batchVec_ := [scannedAB];
     link_topScannedBlockHash_ := getThisHash (hdr 1 0) |}.

(** The record of output 0 of [txT], marked spent by the input of [txS]. *)
Definition spentT0 : StoredTxOut :=
  let U := script_address in
  let R := scripts_by_offset in
  Spec.mark_spent (Spec.stxo_of (hdr 0 0) 1 txT 0 (0, 11)) [1; 0; 1; 0].

(** The schedule in which the hints thread runs after the writer's own
    transactions. *)
Definition writer_then_hints : list DBEvent :=
  start_hints_thread
  :: (writeBlockData_body linkAB
      ++ processAndCommitTxHints ∅ (batchVec_ linkAB))
  ++ [join_hints_thread].

(** ** Further examples *)

(** Two blocks in one block file: [blockA] and [blockB] with their
    headers. *)
Definition chainAB : Blockchain :=
  {| headersByHeight := [hdr 0 0; hdr 1 0]; top := hdr 1 0 |}.

Definition cfgAB : Config :=
  {| blockchain_ := chainAB; nBlockFilesPerBatch_ := 1;
     totalThreadCount_ := 1; nBlocksLookAhead_ := 10 |}.

(** The batch of [blockA] after the output pass, with [addrA] watched. *)
Definition batchA : BlockDataBatch :=
  let F := watching [addrA] in
  let U := script_address in
  let R := scripts_by_offset in
  scanBlockData_txouts [blockA] (new_batch 0 0).

Definition linkA : BatchLink :=
  {| batchVec_ := [batchA]; link_topScannedBlockHash_ := getThisHash (hdr 0 0) |}.

(** A block file of two short blocks, and one of two blocks of 90 and 100
    bytes. *)
Definition frames2 : list Spec.Frame :=
  [(le32 x03, [x01; x02; x03]); (le32 x02, [x0a; x0b])].

Definition frames90 : list Spec.Frame :=
  [(le32 x5a, repeat x07 90); (le32 x64, repeat x08 100)].

Definition fs_frames : FileSystem := fun p =>
  if String.eqb p "blk00000.dat"
  then Some (Spec.framed_file mainnet_magic frames2)
  else if String.eqb p "blk00001.dat"
  then Some (Spec.framed_file mainnet_magic frames90)
  else None.

Definition blk_frames2 : BlkFile :=
  {| fnum := 0; path := "blk00000.dat"; filesize := 21; filesizeCumul := 0 |}.

Definition blk_frames90 : BlkFile :=
  {| fnum := 1; path := "blk00001.dat"; filesize := 206;
     filesizeCumul := 21 |}.




(** A reader for a toy transaction format, in which a transaction is the
    byte of its length, one input byte and one output byte, and a hash is
    the first four bytes. *)
Definition toy_reader : TxReader :=
  {| getHash256 := fun bytes => firstn 4 bytes;
     brr_get_var_int := fun buf =>
       match buf with
       | b :: _ => Ok (Z.of_N (Byte.to_N b), 1)
       | [] => Raise (runtime_error "var_int")
       end;
     brr_advance := fun left n =>
       if n <=? left then Ok n else Raise (runtime_error "advance");
     TxCalcLength := fun buf =>
       match buf with
       | b :: _ => Ok (Z.of_N (Byte.to_N b), [1; 2], [2; 3])
       | [] => Raise (runtime_error "TxCalcLength")
       end |}.

Definition toy_header : BlockHeader :=
  {| getBlockHeight := 0; getDuplicateID := 0; getBlockFileNum := 0;
     getThisHash := [x01; x02; x03; x04]; getNumTx := 2 |}.

(** 80 bytes of header, the count 2, then two transactions of three
    bytes. *)
Definition toy_block : BinaryData :=
  [x01; x02; x03; x04] ++ repeat x00 76 ++ [x02]
  ++ [x03; xaa; xbb] ++ [x03; xcc; xdd].

End Fixtures.

(** * Properties *)

Import BlockUtils Scanner Spec Fixtures.

Lemma wrap64_small z : 0 <= z < UINT64_MOD -> wrap64 z = z.
Proof. intros Hz. unfold wrap64. now apply Z.mod_small. Qed.

(** ** [stripQuotes] *)

Lemma get_last_char s :
  String.get (String.length s - 1) s = last_char s.
Proof.
  induction s as [|c s IH]; [reflexivity|].
  destruct s as [|d s]; [reflexivity|].
  replace (String.length (String c (String d s)) - 1)%nat
    with (S (String.length (String d s) - 1))%nat by (simpl; lia).
  exact IH.
Qed.

Lemma substring_all s : String.substring 0 (String.length s) s = s.
Proof. induction s as [|c s IH]; simpl; [reflexivity|]. now rewrite IH. Qed.

Lemma strip_trailing_keep s c :
  last_char s = Some c -> is_quote c = false -> strip_trailing_quote s = s.
Proof.
  induction s as [|a s IH]; [discriminate|].
  destruct s as [|d s]; intros Hl Hq.
  - simpl in Hl. injection Hl as ->. simpl. now rewrite Hq.
  - change (strip_trailing_quote (String a (String d s)))
      with (String a (strip_trailing_quote (String d s))).
    f_equal. apply IH; assumption.
Qed.

Lemma strip_trailing_cut s c :
  last_char s = Some c -> is_quote c = true ->
  strip_trailing_quote s = String.substring 0 (String.length s - 1) s.
Proof.
  induction s as [|a s IH]; [discriminate|].
  destruct s as [|d s]; intros Hl Hq.
  - simpl in Hl. injection Hl as ->. simpl. now rewrite Hq.
  - change (strip_trailing_quote (String a (String d s)))
      with (String a (strip_trailing_quote (String d s))).
    replace (String.length (String a (String d s)) - 1)%nat
      with (S (String.length (String d s) - 1))%nat by (simpl; lia).
    change (String.substring 0 (S ?n) (String a ?t))
      with (String a (String.substring 0 n t)).
    f_equal. apply IH; assumption.
Qed.

Lemma last_char_Some s : s <> EmptyString -> exists c, last_char s = Some c.
Proof.
  induction s as [|a s IH]; [congruence|]. intros _.
  destruct s as [|d s]; [now exists a|].
  apply IH. discriminate.
Qed.

(** C10. [stripQuotes] reads [c_str()[size()-1]] whatever the input is, so
    the empty string makes it read outside the string; for every non-empty
    input (of a length a [size_t] holds) it returns the input without its
    leading quote character, if it has one, and without its trailing quote
    character, if it has one, and nothing else is changed. *)
Theorem stripQuotes_nonempty (input : string)
    (Hne : input <> EmptyString)
    (Hsize : Z.of_nat (String.length input) < UINT64_MOD) :
  stripQuotes EmptyString = Fault /\
  stripQuotes input = Ok (strip_trailing_quote (strip_leading_quote input)).
Proof.
  split; [reflexivity|].
  destruct input as [|c s]; [congruence|].
  destruct (last_char_Some (String c s) Hne) as [l Hl].
  unfold stripQuotes.
  set (len := Z.of_nat (String.length (String c s))) in *.
  assert (Hlen : len = Z.of_nat (String.length s) + 1)
    by (unfold len; simpl String.length; lia).
  assert (Hlast : c_str_at (String c s) (wrap64 (len - 1)) = Ok l).
  { rewrite wrap64_small by lia. unfold c_str_at. fold len.
    replace ((0 <=? len - 1) && (len - 1 <? len)) with true
      by (symmetry; apply andb_true_iff; split; lia).
    replace (Z.to_nat (len - 1))
      with (String.length (String c s) - 1)%nat by (unfold len; lia).
    now rewrite get_last_char, Hl. }
  rewrite Hlast.
  change (c_str_at (String c s) 0) with (Ok (A:=ascii) c).
  cbn [mbind result_bind rbind].
  unfold strip_leading_quote.
  destruct (is_quote c) eqn:Hc; destruct (is_quote l) eqn:Hq.
  - (* both ends quoted *)
    unfold substr. fold len.
    replace (len <? 1) with false by (symmetry; lia).
    destruct s as [|d s].
    + reflexivity.
    + assert (Hl' : last_char (String d s) = Some l) by exact Hl.
      rewrite (strip_trailing_cut _ _ Hl' Hq).
      assert (Hd : String.length (String d s) = S (String.length s))
        by reflexivity.
      rewrite (wrap64_small (len - 1)) by lia.
      rewrite wrap64_small by lia.
      f_equal.
      replace (Z.to_nat 1) with 1%nat by reflexivity.
      replace (Z.to_nat (Z.min (len - 1 - 1) (len - 1)))
        with (String.length (String d s) - 1)%nat by lia.
      reflexivity.
  - (* leading quote only *)
    unfold substr. fold len.
    replace (len <? 1) with false by (symmetry; lia).
    rewrite wrap64_small by lia.
    destruct s as [|d s].
    + simpl in Hl. congruence.
    + assert (Hl' : last_char (String d s) = Some l) by exact Hl.
      rewrite (strip_trailing_keep _ _ Hl' Hq).
      f_equal.
      replace (Z.to_nat 1) with 1%nat by reflexivity.
      replace (Z.to_nat (Z.min (len - 1) (len - 1)))
        with (String.length (String d s)) by lia.
      change (String.substring 1 ?n (String c ?t)) with (String.substring 0 n t).
      apply substring_all.
  - (* trailing quote only *)
    unfold substr. fold len.
    replace (len <? 0) with false by (symmetry; lia).
    rewrite (strip_trailing_cut _ _ Hl Hq).
    rewrite wrap64_small by lia.
    f_equal.
    replace (Z.to_nat 0) with 0%nat by reflexivity.
    replace (Z.to_nat (Z.min (len - 1) (len - 0)))
      with (String.length (String c s) - 1)%nat by (unfold len; lia).
    reflexivity.
  - (* no quote *)
    unfold substr. fold len.
    replace (len <? 0) with false by (symmetry; lia).
    rewrite (strip_trailing_keep _ _ Hl Hq).
    f_equal.
    replace (Z.to_nat 0) with 0%nat by reflexivity.
    replace (Z.to_nat (Z.min len (len - 0)))
      with (String.length (String c s)) by (unfold len; lia).
    apply substring_all.
Qed.

Lemma stripQuotes_nonempty_witness :
  "'ab'"%string <> EmptyString /\
  Z.of_nat (String.length "'ab'") < UINT64_MOD /\
  stripQuotes EmptyString = Fault /\
  stripQuotes "'ab'" = Ok "ab"%string.
Proof.
  split; [discriminate|]. split; [reflexivity|].
  apply (stripQuotes_nonempty "'ab'"); [discriminate | reflexivity].
Defined.

(** ** [scanFor] *)

Lemma scanFor_finds_inner_occurrence :
  scanFor [x00; xf9; xbe; xb4; xd9; x01] 6 mainnet_magic = Some 1.
Proof. reflexivity. Qed.

Lemma match_here_decides pat : forall mem,
  (length pat <= length mem)%nat ->
  exists b, match_here mem pat = Some b
            /\ (b = true <-> firstn (length pat) mem = pat).
Proof.
  induction pat as [|p pat IH]; intros mem Hlen.
  - exists true. destruct mem; simpl; (split; [reflexivity|]; split; reflexivity).
  - destruct mem as [|a mem]; [simpl in Hlen; lia|].
    simpl in Hlen. simpl.
    destruct (Byte.eqb a p) eqn:E.
    + apply Byte.byte_dec_bl in E. subst a.
      destruct (IH mem ltac:(lia)) as (b & Hb & Hiff).
      exists b. split; [exact Hb|]. rewrite Hiff.
      split; [intros ->; reflexivity|intros [= ?]; assumption].
    + exists false. split; [reflexivity|].
      split; [discriminate|]. intros [= -> _].
      rewrite (Byte.byte_dec_lb eq_refl) in E. discriminate.
Qed.

(** What the loop of [scanFor] computes when it is entered at [offset] with
    [mem] the rest of the buffer: the first occurrence among the positions
    it compares, which are the entry position and every later position [j]
    with [offset + j + len < inLen]. *)
Lemma scanFor_loop_spec (pat : BinaryData) (inLen : Z) :
  (0 < length pat)%nat -> inLen < UINT64_MAX ->
  forall mem offset,
    0 <= offset ->
    offset + Z.of_nat (length mem) = inLen ->
    (length pat <= length mem)%nat ->
    exists r, scanFor_loop mem inLen pat offset = Some r
      /\ ((r = UINT64_MAX
           /\ forall j : nat,
                (j = 0%nat \/ offset + Z.of_nat j + Z.of_nat (length pat) < inLen) ->
                ~ occurs_at mem pat j)
          \/ (exists j : nat,
                r = offset + Z.of_nat j
                /\ (j = 0%nat \/ offset + Z.of_nat j + Z.of_nat (length pat) < inLen)
                /\ occurs_at mem pat j
                /\ forall j' : nat, (j' < j)%nat -> ~ occurs_at mem pat j')).
Proof.
  intros Hpat Hmax.
  assert (Hmod : inLen + 1 < UINT64_MOD) by (unfold UINT64_MAX, UINT64_MOD in *; lia).
  induction mem as [|a mem IH]; intros offset Hoff Hin Hlen.
  - simpl in Hlen. lia.
  - destruct (match_here_decides pat (a :: mem) Hlen) as (b & Hb & Hiff).
    cbn [scanFor_loop]. rewrite Hb. destruct b.
    + exists offset. split; [reflexivity|]. right. exists 0%nat.
      repeat split; [lia|now left|now apply Hiff|intros; lia].
    + assert (Hno : ~ occurs_at (a :: mem) pat 0).
      { unfold occurs_at. simpl skipn. intros Hocc.
        apply Hiff in Hocc. discriminate. }
      simpl length in Hin, Hlen.
      rewrite (wrap64_small (offset + 1)) by lia.
      destruct (Z.ltb_spec (wrap64 (offset + 1 + Z.of_nat (length pat))) inLen)
        as [Hlt|Hge].
      * rewrite wrap64_small in Hlt by lia.
        destruct (IH (offset + 1) ltac:(lia) ltac:(lia) ltac:(lia))
          as (r & Hr & Hcases).
        exists r. split; [exact Hr|].
        destruct Hcases as [[-> Hnone]|(j & -> & Hj & Hocc & Hfirst)].
        -- left. split; [reflexivity|]. intros [|j] Hj; [exact Hno|].
           change (occurs_at (a :: mem) pat (S j)) with (occurs_at mem pat j).
           apply Hnone. destruct Hj as [Hj|Hj]; [discriminate|].
           destruct j; [now left|right; lia].
        -- right. exists (S j). repeat split.
           ++ lia.
           ++ right. destruct Hj as [->|Hj]; lia.
           ++ exact Hocc.
           ++ intros [|j'] Hj'; [exact Hno|].
              change (occurs_at (a :: mem) pat (S j')) with (occurs_at mem pat j').
              apply Hfirst. lia.
      * rewrite wrap64_small in Hge by lia.
        exists UINT64_MAX. split; [reflexivity|]. left.
        split; [reflexivity|]. intros [|j] Hj; [exact Hno|].
        destruct Hj as [Hj|Hj]; [discriminate|lia].
Qed.

(** X1. [scanFor] on a whole buffer: it returns the first occurrence among
    offset 0 and the offsets [j] with [j + len < inLen], and [UINT64_MAX]
    when there is none there.  An occurrence at [j = inLen - len > 0], which
    ends with the buffer, is not among them. *)
Lemma scanFor_spec (mem pat : BinaryData) :
  (0 < length pat <= length mem)%nat ->
  Z.of_nat (length mem) < UINT64_MAX ->
  exists r, scanFor mem (Z.of_nat (length mem)) pat = Some r
    /\ ((r = UINT64_MAX
         /\ forall j : nat,
              (j = 0%nat \/ Z.of_nat j + Z.of_nat (length pat) < Z.of_nat (length mem)) ->
              ~ occurs_at mem pat j)
        \/ (exists j : nat,
              r = Z.of_nat j
              /\ (j = 0%nat \/ Z.of_nat j + Z.of_nat (length pat) < Z.of_nat (length mem))
              /\ occurs_at mem pat j
              /\ forall j' : nat, (j' < j)%nat -> ~ occurs_at mem pat j')).
Proof.
  intros [Hpat Hlen] Hmax. unfold scanFor.
  destruct (scanFor_loop_spec pat (Z.of_nat (length mem)) Hpat Hmax mem 0
              ltac:(lia) ltac:(lia) Hlen) as (r & Hr & Hcases).
  exists r. split; [exact Hr|].
  destruct Hcases as [[-> Hnone]|(j & -> & Hj & Hocc & Hfirst)].
  - left. split; [reflexivity|]. intros j Hj. apply Hnone.
    destruct Hj as [Hj|Hj]; [now left|right; lia].
  - right. exists j. split; [lia|]. split; [|split; assumption].
    destruct Hj as [Hj|Hj]; [now left|right; lia].
Qed.

(** C6. The buffer [00 f9 be b4 d9] holds the magic at offset 1, its last
    byte being the last byte of the buffer; [scanFor] answers [UINT64_MAX]:
    the loop stops as soon as [offset + len < inLen] fails, one position
    early. *)
Theorem scanFor_misses_final_occurrence :
  slice [x00; xf9; xbe; xb4; xd9] 1 4 = mainnet_magic
  /\ scanFor [x00; xf9; xbe; xb4; xd9] 5 mainnet_magic = Some UINT64_MAX.
Proof. split; reflexivity. Qed.

(** ** [detectAllBlkFiles] *)

Section DetectFacts.
Variable name : Z -> string.

Lemma sum_sizes_app l1 l2 :
  sum_sizes (l1 ++ l2) = sum_sizes l1 + sum_sizes l2.
Proof.
  unfold sum_sizes. induction l1 as [|f l1 IH]; simpl; [lia|].
  rewrite IH. lia.
Qed.

Lemma prefix_total_nonneg d : valid_disk d ->
  forall n k, 0 <= prefix_total name n d k.
Proof.
  intros Hv. induction n as [|n IH]; intros k; simpl; [lia|].
  destruct (d (name (Z.of_nat k))) as [sz|] eqn:E; [|lia].
  specialize (Hv _ _ E). specialize (IH (S k)). lia.
Qed.

Lemma sum_sizes_bounded d : valid_disk d ->
  forall l (off N : nat),
    (length l <= N)%nat ->
    (forall (i : nat) f, l !! i = Some f ->
       exists sz, d (name (Z.of_nat (off + i))) = Some sz
                  /\ 0 <= filesize f <= sz) ->
    0 <= sum_sizes l <= prefix_total name N d off.
Proof.
  intros Hv. induction l as [|f l IH]; intros off N Hlen Hl.
  - unfold sum_sizes. simpl. split; [lia|].
    now apply prefix_total_nonneg.
  - destruct N as [|N]; [simpl in Hlen; lia|].
    simpl in Hlen.
    destruct (Hl 0%nat f eq_refl) as (sz & Hd & Hsz).
    rewrite Nat.add_0_r in Hd.
    destruct (IH (S off) N ltac:(lia)) as [IH1 IH2].
    { intros i g Hg. specialize (Hl (S i) g Hg).
      now replace (S off + i)%nat with (off + S i)%nat by lia. }
    change (sum_sizes (f :: l)) with (filesize f + sum_sizes l).
    simpl. rewrite Hd. lia.
Qed.

Lemma inv_sum_bounded d s :
  valid_disk d -> detect_inv name d s ->
  0 <= sum_sizes (blkFiles_ s) <= disk_total name d.
Proof.
  intros Hv (_ & Hlen & Hrec & _).
  apply sum_sizes_bounded; [assumption|assumption|].
  intros i f Hf. exact (Hrec i f Hf).
Qed.

Lemma inv_total d s :
  valid_disk d -> fits name d -> detect_inv name d s ->
  totalBlockchainBytes_ s = sum_sizes (blkFiles_ s).
Proof.
  intros Hv Hfit Hinv.
  pose proof (inv_sum_bounded d s Hv Hinv) as Hb.
  destruct Hinv as (_ & _ & _ & ->).
  unfold wrap64. apply Z.mod_small. unfold fits in Hfit. lia.
Qed.

Lemma recorded_on_grows d d' l :
  grows d d' -> recorded_on name d l -> recorded_on name d' l.
Proof.
  intros Hg Hrec i f Hf.
  destruct (Hrec i f Hf) as (sz & Hd & Hsz).
  destruct (Hg _ _ Hd) as (sz' & Hd' & Hle).
  exists sz'. split; [assumption|lia].
Qed.

Lemma lookup_snoc_inv {A} (l : list A) x (i : nat) y :
  (l ++ [x]) !! i = Some y ->
  l !! i = Some y \/ (i = length l /\ y = x).
Proof.
  intros Hi. apply lookup_app_Some in Hi as [Hi|[Hi1 Hi2]]; [now left|].
  right. destruct (i - length l)%nat as [|j] eqn:Ej.
  - simpl in Hi2. injection Hi2 as <-. split; [lia|reflexivity].
  - now destruct j.
Qed.

(** The loop keeps the invariant and appends the files it finds. *)
Lemma detect_loop_inv d : valid_disk d ->
  forall (n : nat) k s,
    Z.of_nat n = UINT16_MAX - k ->
    k = Z.of_nat (length (blkFiles_ s)) ->
    detect_inv name d s ->
    exists news,
      blkFiles_ (fst (detect_loop name n d k s)) = blkFiles_ s ++ news
      /\ detect_inv name d (fst (detect_loop name n d k s))
      /\ 0 <= sum_sizes news
      /\ (forall sz, d (name k) = Some sz -> k < UINT16_MAX ->
            sz <= sum_sizes news /\ (1 <= length news)%nat).
Proof.
  intros Hv. induction n as [|n IH]; intros k s Hn Hk Hinv.
  - exists []. simpl. rewrite app_nil_r.
    split; [reflexivity|]. split; [assumption|].
    split; [unfold sum_sizes; simpl; lia|]. intros; lia.
  - assert (Hlt : k < UINT16_MAX) by lia.
    simpl. replace (k <? UINT16_MAX) with true by (symmetry; lia).
    destruct (d (name k)) as [sz|] eqn:Hd.
    + set (f := {| fnum := k; path := name k; filesize := sz;
                   filesizeCumul := totalBlockchainBytes_ s |}).
      set (s2 := {| blkFiles_ := blkFiles_ s ++ [f];
                    totalBlockchainBytes_ :=
                      wrap64 (totalBlockchainBytes_ s + sz) |}).
      assert (Hw : wrap32 (k + 1) = k + 1).
      { unfold wrap32. apply Z.mod_small.
        unfold UINT16_MAX, UINT32_MOD in *. lia. }
      rewrite Hw.
      assert (Hsz : 0 <= sz) by eauto.
      destruct Hinv as (Hgap & Hlen & Hrec & Htot).
      assert (Hinv2 : detect_inv name d s2).
      { unfold detect_inv, s2; simpl. split; [|split; [|split]].
        - intros i g Hg.
          destruct (lookup_snoc_inv _ _ _ _ Hg) as [Hi|[-> ->]].
          + now apply Hgap.
          + simpl. split; [lia|f_equal; lia].
        - rewrite length_app. simpl. unfold UINT16_MAX in *. lia.
        - intros i g Hg.
          destruct (lookup_snoc_inv _ _ _ _ Hg) as [Hi|[-> ->]].
          + now apply Hrec.
          + simpl. exists sz.
            replace (Z.of_nat (length (blkFiles_ s))) with k by lia.
            split; [assumption|lia].
        - rewrite Htot, sum_sizes_app. unfold wrap64, sum_sizes. simpl.
          rewrite Z.add_0_r. now rewrite Zplus_mod_idemp_l. }
      destruct (IH (k + 1) s2 ltac:(lia)
                  ltac:(unfold s2; simpl; rewrite length_app; simpl; lia)
                  Hinv2)
        as (news & Hnews & Hinv' & Hnn & _).
      exists (f :: news). unfold s2 in Hnews; simpl in Hnews.
      rewrite <- app_assoc in Hnews. simpl in Hnews.
      split; [exact Hnews|]. split; [exact Hinv'|].
      change (sum_sizes (f :: news)) with (sz + sum_sizes news).
      split; [lia|]. intros sz0 Hsz0 _.
      injection Hsz0 as <-. simpl. lia.
    + exists []. simpl. rewrite app_nil_r.
      split; [reflexivity|]. split; [assumption|].
      split; [unfold sum_sizes; simpl; lia|]. intros; congruence.
Qed.

Lemma snoc_cases {A} (l : list A) :
  l = [] \/ exists rest back, l = rest ++ [back].
Proof.
  induction l as [|a l IH] using rev_ind; [now left|].
  right. now exists l, a.
Qed.

Lemma pop_back_nil {A} : pop_back (@nil A) = None.
Proof. reflexivity. Qed.

Lemma pop_back_snoc {A} (l : list A) x : pop_back (l ++ [x]) = Some (l, x).
Proof. unfold pop_back. rewrite rev_app_distr. simpl. now rewrite rev_involutive. Qed.

Lemma fst_detect d s :
  fst (detectAllBlkFiles name d s) =
  match pop_back (blkFiles_ s) with
  | Some (rest, back) =>
      fst (detect_loop name
             (Z.to_nat (UINT16_MAX - wrap32 (Z.of_nat (length (blkFiles_ s)) - 1)))
             d (wrap32 (Z.of_nat (length (blkFiles_ s)) - 1))
             {| blkFiles_ := rest;
                totalBlockchainBytes_ :=
                  wrap64 (totalBlockchainBytes_ s - filesize back) |})
  | None => fst (detect_loop name (Z.to_nat (UINT16_MAX - 0)) d 0 s)
  end.
Proof.
  unfold detectAllBlkFiles.
  destruct (pop_back (blkFiles_ s)) as [[rest back]|].
  - destruct (detect_loop _ _ _ _ _) as [s2 k2]. now destruct (k2 =? _).
  - destruct (detect_loop _ _ _ _ _) as [s2 k2]. now destruct (k2 =? _).
Qed.

(** One call: the invariant is kept and neither count decreases. *)
Lemma detect_step d d' s :
  valid_disk d -> valid_disk d' -> fits name d -> fits name d' ->
  grows d d' -> detect_inv name d s ->
  let s' := fst (detectAllBlkFiles name d' s) in
  detect_inv name d' s'
  /\ numBlockFiles s <= numBlockFiles s'
  /\ totalBlockchainBytes s <= totalBlockchainBytes s'.
Proof.
  intros Hv Hv' Hfit Hfit' Hg Hinv s'.
  assert (Htot := inv_total d s Hv Hfit Hinv).
  assert (Hnum : forall t, detect_inv name d' t ->
            numBlockFiles t = Z.of_nat (length (blkFiles_ t))).
  { intros t (_ & Hl & _). unfold numBlockFiles, wrap32.
    apply Z.mod_small. unfold UINT16_MAX, UINT32_MOD in *. lia. }
  assert (Hnum0 : numBlockFiles s = Z.of_nat (length (blkFiles_ s))).
  { destruct Hinv as (_ & Hl & _). unfold numBlockFiles, wrap32.
    apply Z.mod_small. unfold UINT16_MAX, UINT32_MOD in *. lia. }
  subst s'. rewrite fst_detect.
  destruct Hinv as (Hgap & Hlen & Hrec & Hsum).
  destruct (snoc_cases (blkFiles_ s)) as [El|(rest & back & El)].
  - rewrite El, pop_back_nil.
    assert (Hinv1 : detect_inv name d' s).
    { unfold detect_inv, gapless, recorded_on. rewrite El.
      split; [|split; [|split]].
      - intros i f Hf. discriminate.
      - simpl. lia.
      - intros i f Hf. discriminate.
      - rewrite Hsum, El. reflexivity. }
    destruct (detect_loop_inv d' Hv' (Z.to_nat (UINT16_MAX - 0)) 0 s
                ltac:(unfold UINT16_MAX; lia) ltac:(rewrite El; reflexivity)
                Hinv1) as (news & Hnews & Hinv' & Hnn & _).
    set (s' := fst (detect_loop name _ d' 0 s)) in *. clearbody s'.
    split; [exact Hinv'|].
    rewrite (Hnum _ Hinv'), Hnum0, Hnews, El. simpl.
    split; [lia|].
    unfold totalBlockchainBytes.
    rewrite (inv_total d' _ Hv' Hfit' Hinv'), Htot, Hnews, El. simpl.
    unfold sum_sizes at 1. simpl. lia.
  - rewrite El, pop_back_snoc. rewrite El in Hlen, Hnum0.
    rewrite length_app in *. simpl length in *.
    assert (Hk : wrap32 (Z.of_nat (length rest + 1) - 1)
                 = Z.of_nat (length rest)).
    { unfold wrap32. rewrite Z.mod_small;
        unfold UINT16_MAX, UINT32_MOD in *; lia. }
    rewrite Hk.
    set (s1 := {| blkFiles_ := rest;
                  totalBlockchainBytes_ :=
                    wrap64 (totalBlockchainBytes_ s - filesize back) |}).
    assert (Hinv1 : detect_inv name d' s1).
    { unfold detect_inv, s1; simpl. repeat split.
      - apply (Hgap i f). rewrite El. now apply lookup_app_l_Some.
      - apply (Hgap i f). rewrite El. now apply lookup_app_l_Some.
      - lia.
      - apply (recorded_on_grows d d'); [assumption|].
        intros i f Hf. apply Hrec. rewrite El. now apply lookup_app_l_Some.
      - rewrite Hsum, El, sum_sizes_app. unfold wrap64, sum_sizes. simpl.
        rewrite Zminus_mod_idemp_l. f_equal. lia. }
    destruct (detect_loop_inv d' Hv'
                (Z.to_nat (UINT16_MAX - Z.of_nat (length rest)))
                (Z.of_nat (length rest)) s1
                ltac:(unfold UINT16_MAX in *; lia) eq_refl Hinv1)
      as (news & Hnews & Hinv' & Hnn & Hfirst).
    set (s' := fst (detect_loop name _ d' _ s1)) in *. clearbody s'.
    destruct (Hrec (length rest) back) as (sz & Hd & Hsz).
    { rewrite El, lookup_app_r by lia. now rewrite Nat.sub_diag. }
    destruct (Hg _ _ Hd) as (sz' & Hd' & Hle).
    destruct (Hfirst sz' Hd' ltac:(unfold UINT16_MAX in *; lia))
      as [Hs1 Hs2].
    split; [exact Hinv'|].
    rewrite (Hnum _ Hinv'), Hnum0, Hnews.
    unfold s1; simpl. rewrite !length_app.
    split; [lia|].
    unfold totalBlockchainBytes.
    rewrite (inv_total d' _ Hv' Hfit' Hinv'), Htot, Hnews, El.
    unfold s1; simpl. rewrite !sum_sizes_app.
    unfold sum_sizes at 2. simpl. lia.
Qed.

Lemma grows_refl d : grows d d.
Proof. intros p sz Hp. exists sz. split; [assumption|lia]. Qed.

Lemma detect_inv_gapless d s : detect_inv name d s -> gapless name s.
Proof. now intros (? & _). Qed.

Lemma detect_run_inv disks : forall d s,
  valid_disk d -> fits name d -> detect_inv name d s ->
  growing d disks ->
  Forall valid_disk disks -> Forall (fits name) disks ->
  Forall (gapless name) (detect_run name disks s)
  /\ forall (k : nat) a b,
       (s :: detect_run name disks s) !! k = Some a ->
       (s :: detect_run name disks s) !! S k = Some b ->
       numBlockFiles a <= numBlockFiles b
       /\ totalBlockchainBytes a <= totalBlockchainBytes b.
Proof.
  induction disks as [|d' disks IH]; intros d s Hv Hfit Hinv Hgr Hvs Hfs.
  - split; [constructor|]. intros k a b _ Hb. simpl in Hb.
    now destruct k.
  - destruct Hgr as [Hg Hgr].
    inversion Hvs as [|? ? Hv' Hvs']; subst.
    inversion Hfs as [|? ? Hfit' Hfs']; subst.
    destruct (detect_step d d' s Hv Hv' Hfit Hfit' Hg Hinv)
      as (Hinv' & Hn & Ht).
    destruct (IH d' _ Hv' Hfit' Hinv' Hgr Hvs' Hfs') as [IH1 IH2].
    simpl. split.
    + constructor; [now apply (detect_inv_gapless d')|exact IH1].
    + intros k a b Ha Hb. destruct k as [|k].
      * simpl in Ha, Hb. injection Ha as <-. injection Hb as <-.
        split; assumption.
      * apply (IH2 k); assumption.
Qed.

Lemma init_inv d : detect_inv name d BlkFiles_init.
Proof.
  unfold detect_inv, gapless, recorded_on, BlkFiles_init; simpl.
  split; [|split; [|split]];
    try (intros i f Hf; discriminate); [lia|reflexivity].
Qed.

(** C8. Over successive calls of [detectAllBlkFiles], each seeing a
    directory in which files were only appended or grown (and whose block
    files hold fewer than 2^64 bytes together), the detected files are
    always [blk0 .. blk(N-1)] without a gap, and neither [numBlockFiles()]
    nor [totalBlockchainBytes()] decreases from one call to the next. *)
Theorem detectAllBlkFiles_monotone (d : Disk) (disks : list Disk)
    (Hvalid : Forall valid_disk (d :: disks))
    (Hfits : Forall (fits name) (d :: disks))
    (Hgrow : growing d disks) :
  let states := detect_run name (d :: disks) BlkFiles_init in
  Forall (gapless name) states
  /\ forall (k : nat) a b,
       (BlkFiles_init :: states) !! k = Some a ->
       (BlkFiles_init :: states) !! S k = Some b ->
       numBlockFiles a <= numBlockFiles b
       /\ totalBlockchainBytes a <= totalBlockchainBytes b.
Proof.
  intros states. subst states.
  inversion Hvalid as [|? ? Hv _]; subst.
  inversion Hfits as [|? ? Hf _]; subst.
  apply (detect_run_inv (d :: disks) d BlkFiles_init Hv Hf (init_inv d)).
  - split; [apply grows_refl|assumption].
  - assumption.
  - assumption.
Qed.
End DetectFacts.

Lemma disk1_valid : valid_disk disk1.
Proof.
  intros p sz. unfold disk1. destruct (String.eqb p _); intros [= <-]. lia.
Qed.

Lemma disk2_valid : valid_disk disk2.
Proof.
  intros p sz. unfold disk2.
  destruct (String.eqb p _); [intros [= <-]; lia|].
  destruct (String.eqb p _); intros [= <-]. lia.
Qed.

Lemma disk1_grows_disk2 : grows disk1 disk2.
Proof.
  intros p sz. unfold disk1, disk2.
  destruct (String.eqb p "blk00000.dat"); intros [= <-].
  exists 150. split; [reflexivity|lia].
Qed.

Lemma detectAllBlkFiles_monotone_witness :
  Forall valid_disk [disk1; disk2]
  /\ Forall (fits blkName) [disk1; disk2]
  /\ growing disk1 [disk2]
  /\ (let states := detect_run blkName [disk1; disk2] BlkFiles_init in
      Forall (gapless blkName) states
      /\ forall (k : nat) a b,
           (BlkFiles_init :: states) !! k = Some a ->
           (BlkFiles_init :: states) !! S k = Some b ->
           numBlockFiles a <= numBlockFiles b
           /\ totalBlockchainBytes a <= totalBlockchainBytes b).
Proof.
  assert (Hv : Forall valid_disk [disk1; disk2])
    by (repeat constructor; [apply disk1_valid|apply disk2_valid]).
  assert (Hf : Forall (fits blkName) [disk1; disk2])
    by (constructor; [vm_compute; reflexivity|];
        constructor; [vm_compute; reflexivity|constructor]).
  assert (Hg : growing disk1 [disk2])
    by (split; [apply disk1_grows_disk2|exact I]).
  split; [exact Hv|]. split; [exact Hf|]. split; [exact Hg|].
  exact (detectAllBlkFiles_monotone blkName disk1 [disk2] Hv Hf Hg).
Defined.

(** ** Reading block files *)

Lemma slice_app_mid (a b c : BinaryData) :
  b <> [] ->
  slice (a ++ b ++ c) (Z.of_nat (length a)) (Z.of_nat (length b)) = b.
Proof.
  intros Hb. unfold slice. rewrite !length_app.
  assert (0 < length b)%nat by (destruct b; [congruence|simpl; lia]).
  replace (_ <=? _) with false by (symmetry; apply Z.leb_gt; lia).
  rewrite Nat2Z.id.
  replace (Z.to_nat (Z.min _ _)) with (length b) by lia.
  rewrite skipn_app, skipn_all, Nat.sub_diag.
  change (take (length b) (b ++ c) = b).
  now rewrite firstn_app, firstn_all, Nat.sub_diag, firstn_O, app_nil_r.
Qed.

Lemma bd_eqb_refl (a : BinaryData) : bd_eqb a a = true.
Proof. unfold bd_eqb. now apply bool_decide_eq_true_2. Qed.

Section FrameFacts.
Variable magicBytes_ : BinaryData.
Variable CB : Type.
Hypothesis Hmagic : length magicBytes_ = 4%nat.

Lemma frame_length fr :
  well_framed fr ->
  length (frame_bytes magicBytes_ fr) = (8 + length (snd fr))%nat
  /\ (0 < length (snd fr))%nat.
Proof.
  intros (H4 & _ & Hne). unfold frame_bytes. rewrite !length_app, Hmagic, H4.
  split; [lia|]. destruct (snd fr); [congruence|simpl; lia].
Qed.

Lemma framed_file_count frames :
  Forall well_framed frames ->
  (length frames <= length (framed_file magicBytes_ frames))%nat.
Proof.
  induction 1 as [|fr frames Hfr _ IH]; simpl; [lia|].
  unfold framed_file in *. simpl. rewrite length_app.
  destruct (frame_length fr Hfr). lia.
Qed.

(** The loop of [readRawBlocksFromFile] at the start of a block of a file
    that holds whole blocks only. *)
Lemma readRawBlocks_loop_frames (f : BlkFile) (stopBefore : Z)
    (cb : Callback CB) :
  (forall c d p z, snd (cb c d p z) = None) ->
  filesize f <= stopBefore ->
  filesize f < UINT64_MOD ->
  forall frames pre fuel c tr,
    Forall well_framed frames ->
    filesize f
    = Z.of_nat (length (pre ++ framed_file magicBytes_ frames)) ->
    (length frames <= fuel)%nat ->
    let r :=
      readRawBlocks_loop magicBytes_ CB fuel
        (pre ++ framed_file magicBytes_ frames) f stopBefore cb
        (Z.of_nat (length pre)) (Z.of_nat (length pre)) c tr in
    run_trace r = tr ++ frame_events (fnum f) (Z.of_nat (length pre)) frames
    /\ run_res r = Ok (filesize f).
Proof.
  intros Hcb Hstop Hmax.
  induction frames as [|fr frames IH]; intros pre fuel c tr Hall Hsize Hfuel.
  - unfold framed_file in *. simpl in Hsize. rewrite app_nil_r in Hsize.
    cbn zeta. destruct fuel; simpl;
      (replace (_ <? _) with false by (symmetry; apply Z.ltb_ge; lia));
      cbn [negb run_trace run_res]; rewrite app_nil_r;
      (split; [reflexivity|f_equal; lia]).
  - destruct fuel as [|fuel]; [simpl in Hfuel; lia|].
    inversion Hall as [|? ? Hfr Hrest]; subst.
    destruct (frame_length fr Hfr) as [Hlen Hpos].
    destruct Hfr as (H4 & Hdec & Hne).
    assert (Hfile : framed_file magicBytes_ (fr :: frames)
                    = magicBytes_ ++ fst fr ++ snd fr
                      ++ framed_file magicBytes_ frames).
    { unfold framed_file, frame_bytes. simpl. now rewrite <- !app_assoc. }
    rewrite Hfile in *. rewrite !length_app, Hmagic, H4 in Hsize.
    set (mas := pre ++ magicBytes_ ++ fst fr ++ snd fr
                ++ framed_file magicBytes_ frames) in *.
    set (p := Z.of_nat (length pre)) in *.
    assert (Hmas : Z.of_nat (length mas) = filesize f).
    { unfold mas. rewrite !length_app, Hmagic, H4. lia. }
    cbn zeta. cbn [readRawBlocks_loop].
    replace (p <? Z.min (filesize f) stopBefore) with true
      by (symmetry; apply Z.ltb_lt; lia).
    cbn [negb].
    rewrite (wrap64_small (p + 4)) by lia.
    replace (filesize f <=? p + 4) with false
      by (symmetry; apply Z.leb_gt; lia).
    assert (Hr1 : read_at mas p 4 = Ok magicBytes_).
    { unfold read_at. rewrite Hmas.
      replace (0 <=? p) with true by (symmetry; apply Z.leb_le; lia).
      replace (p + 4 <=? filesize f) with true
        by (symmetry; apply Z.leb_le; lia).
      cbn [andb]. f_equal. unfold mas, p.
      replace 4 with (Z.of_nat (length magicBytes_)) by lia.
      apply slice_app_mid. destruct magicBytes_; [discriminate|congruence]. }
    rewrite Hr1, bd_eqb_refl.
    assert (Hr2 : read_at mas (p + 4) 4 = Ok (fst fr)).
    { unfold read_at. rewrite Hmas.
      replace (0 <=? p + 4) with true by (symmetry; apply Z.leb_le; lia).
      replace (p + 4 + 4 <=? filesize f) with true
        by (symmetry; apply Z.leb_le; lia).
      cbn [andb]. f_equal. unfold mas.
      replace (p + 4) with (Z.of_nat (length (pre ++ magicBytes_)))
        by (rewrite length_app; lia).
      replace 4 with (Z.of_nat (length (fst fr))) by lia.
      rewrite (app_assoc pre).
      apply slice_app_mid. destruct (fst fr); [discriminate|congruence]. }
    rewrite Hr2.
    rewrite (wrap64_small (p + 4 + 4)) by lia.
    replace (filesize f <=? p + 4 + 4) with false
      by (symmetry; apply Z.leb_gt; lia).
    rewrite Hdec.
    assert (Hblk : slice mas (p + 4 + 4) (Z.of_nat (length (snd fr)))
                   = snd fr).
    { unfold mas.
      replace (p + 4 + 4)
        with (Z.of_nat (length (pre ++ magicBytes_ ++ fst fr)))
        by (rewrite !length_app; lia).
      replace (pre ++ magicBytes_ ++ fst fr ++ snd fr
               ++ framed_file magicBytes_ frames)
        with ((pre ++ magicBytes_ ++ fst fr) ++ snd fr
              ++ framed_file magicBytes_ frames)
        by (now rewrite <- !app_assoc).
      now apply slice_app_mid. }
    rewrite Hblk.
    rewrite (wrap64_small (p + 4 + 4 + _)) by lia.
    specialize (Hcb c (snd fr) (fnum f, p) (Z.of_nat (length (snd fr)))).
    destruct (cb c (snd fr) (fnum f, p) (Z.of_nat (length (snd fr))))
      as [c' e]. cbn [snd] in Hcb. subst e.
    specialize (IH (pre ++ magicBytes_ ++ fst fr ++ snd fr) fuel c'
                  (tr ++ [blockDataCallback (snd fr) (fnum f, p)
                            (Z.of_nat (length (snd fr)))]) Hrest).
    replace ((pre ++ magicBytes_ ++ fst fr ++ snd fr)
             ++ framed_file magicBytes_ frames) with mas in IH
      by (unfold mas; now rewrite <- !app_assoc).
    replace (Z.of_nat (length (pre ++ magicBytes_ ++ fst fr ++ snd fr)))
      with (p + 4 + 4 + Z.of_nat (length (snd fr))) in IH
      by (rewrite !length_app; lia).
    destruct IH as [IHt IHr]; [now rewrite Hmas|simpl in Hfuel; lia|].
    split; [|exact IHr].
    rewrite IHt, <- app_assoc. simpl.
    replace (p + 4 + 4 + Z.of_nat (length (snd fr)))
      with (p + 8 + Z.of_nat (length (snd fr))) by lia.
    reflexivity.
Qed.

End FrameFacts.

Section ReaderFacts.
Variable magicBytes_ : BinaryData.
Variable CB : Type.














End ReaderFacts.

Lemma frames2_well_framed : Forall well_framed frames2.
Proof.
  constructor; [|constructor; [|constructor]];
    (split; [reflexivity|split; [reflexivity|discriminate]]).
Defined.



(** ** The write thread *)

Section WriterFacts.
Variable txhints_db : gmap BinaryData StoredTxHints.

Lemma interleave_app {A} (l r : list A) : interleave l r (l ++ r).
Proof.
  induction l as [|a l IH]; simpl.
  - induction r as [|b r IH]; constructor; assumption.
  - now constructor.
Qed.

Lemma interleave_elem {A} (l r m : list A) x :
  interleave l r m -> x ∈ m -> x ∈ l \/ x ∈ r.
Proof.
  induction 1 as [|a l r m _ IH|a l r m _ IH]; intros Hx.
  - now left.
  - apply elem_of_cons in Hx as [->|Hx].
    + left. apply elem_of_cons. now left.
    + destruct (IH Hx) as [?|?]; [left|right]; [|assumption].
      apply elem_of_cons. now right.
  - apply elem_of_cons in Hx as [->|Hx].
    + right. apply elem_of_cons. now left.
    + destruct (IH Hx) as [?|?]; [left|right]; [assumption|].
      apply elem_of_cons. now right.
Qed.

Lemma none_of_app p l1 l2 :
  none_of p l1 -> none_of p l2 -> none_of p (l1 ++ l2).
Proof.
  intros H1 H2 e He. apply elem_of_app in He as [He|He]; eauto.
Qed.

Lemma none_of_cons p a l :
  p a = false -> none_of p l -> none_of p (a :: l).
Proof.
  intros Ha Hl e He. apply elem_of_cons in He as [->|He]; eauto.
Qed.

Lemma none_of_nil p : none_of p [].
Proof. intros e He. now apply elem_of_nil in He. Qed.

Lemma none_of_map {A} p (g : A -> DBEvent) (l : list A) :
  (forall a, p (g a) = false) -> none_of p (map g l).
Proof.
  intros Hg e He. apply list_elem_of_fmap in He as (a & -> & _). apply Hg.
Qed.

Lemma all_before_split p q l1 l2 :
  none_of q l1 -> none_of p l2 -> all_before p q (l1 ++ l2).
Proof.
  intros Hq Hp i j e1 e2 Hi Hj Hpe Hqe.
  destruct (decide (j < length l1)%nat) as [Hlt|Hge].
  - rewrite lookup_app_l in Hj by assumption.
    apply list_elem_of_lookup_2 in Hj. rewrite (Hq _ Hj) in Hqe. discriminate.
  - destruct (decide (i < length l1)%nat) as [Hlt|Hge']; [lia|].
    rewrite lookup_app_r in Hi by lia.
    apply list_elem_of_lookup_2 in Hi. rewrite (Hp _ Hi) in Hpe. discriminate.
Qed.

Lemma all_before_tail p q a l : all_before p q (a :: l) -> all_before p q l.
Proof.
  intros H i j e1 e2 Hi Hj Hp Hq.
  specialize (H (S i) (S j) e1 e2 Hi Hj Hp Hq). lia.
Qed.

(** A thread that issues neither kind of event does not disturb the order
    the other thread keeps. *)
Lemma all_before_interleave p q l r m :
  interleave l r m ->
  all_before p q l -> none_of p r -> none_of q r ->
  all_before p q m.
Proof.
  induction 1 as [|a l r m Hil IH|a l r m Hil IH]; intros Hl Hp Hq.
  - intros i j e1 e2 Hi. discriminate.
  - intros i j e1 e2 Hi Hj Hpe Hqe.
    destruct i as [|i], j as [|j]; simpl in Hi, Hj.
    + injection Hi as <-. injection Hj as <-.
      specialize (Hl 0%nat 0%nat a a eq_refl eq_refl Hpe Hqe). lia.
    + lia.
    + injection Hj as <-.
      apply list_elem_of_lookup_2 in Hi.
      destruct (interleave_elem _ _ _ _ Hil Hi) as [Hin|Hin].
      * apply list_elem_of_lookup_1 in Hin as [k Hk].
        specialize (Hl (S k) 0%nat e1 a Hk eq_refl Hpe Hqe). lia.
      * rewrite (Hp _ Hin) in Hpe. discriminate.
    + assert (i < j)%nat; [|lia].
      apply (IH (all_before_tail _ _ _ _ Hl) Hp Hq i j e1 e2); assumption.
  - intros i j e1 e2 Hi Hj Hpe Hqe.
    assert (Hpa : p a = false) by (apply Hp, elem_of_cons; now left).
    assert (Hqa : q a = false) by (apply Hq, elem_of_cons; now left).
    destruct i as [|i]; simpl in Hi; [injection Hi as <-; congruence|].
    destruct j as [|j]; simpl in Hj; [injection Hj as <-; congruence|].
    assert (i < j)%nat; [|lia].
    apply (IH Hl) with (e1 := e1) (e2 := e2); try assumption.
    + intros e He. apply Hp, elem_of_cons. now right.
    + intros e He. apply Hq, elem_of_cons. now right.
Qed.

Lemma all_before_cons p q a l :
  q a = false -> all_before p q l -> all_before p q (a :: l).
Proof.
  intros Ha Hl i j e1 e2 Hi Hj Hp Hq.
  destruct j as [|j]; simpl in Hj; [injection Hj as <-; congruence|].
  destruct i as [|i]; [lia|]. simpl in Hi.
  specialize (Hl i j e1 e2 Hi Hj Hp Hq). lia.
Qed.

Lemma all_before_snoc p q l z :
  p z = false -> all_before p q l -> all_before p q (l ++ [z]).
Proof.
  intros Hz Hl i j e1 e2 Hi Hj Hp Hq.
  apply lookup_app_Some in Hi as [Hi|[Hi1 Hi2]].
  - apply lookup_app_Some in Hj as [Hj|[Hj1 Hj2]].
    + eapply Hl; eassumption.
    + apply lookup_lt_Some in Hi. lia.
  - destruct (i - length l)%nat as [|k]; [|now destruct k].
    simpl in Hi2. injection Hi2 as <-. congruence.
Qed.

(** *** The events of each thread *)

Lemma fold_left_inv {A B} (P : A -> Prop) (g : A -> B -> A) l a :
  (forall a b, P a -> P (g a b)) -> P a -> P (fold_left g l a).
Proof.
  intros Hg. revert a. induction l as [|b l IH]; intros a Ha; simpl; auto.
Qed.

Lemma gather_hints_reads batchVec :
  Forall (fun e => is_hint_read e = true)
    (snd (gather_hints txhints_db batchVec)).
Proof.
  unfold gather_hints.
  apply (fold_left_inv
           (fun acc : gmap BinaryData StoredTxHints * list DBEvent =>
              Forall (fun e => is_hint_read e = true) (snd acc)));
    [|constructor].
  intros acc batch Hacc.
  apply (fold_left_inv
           (fun acc : gmap BinaryData StoredTxHints * list DBEvent =>
              Forall (fun e => is_hint_read e = true) (snd acc)));
    [|assumption].
  intros [txHints evs] [txHash utxos] Hevs. simpl in *.
  apply Forall_app. split; [assumption|]. now repeat constructor.
Qed.

Lemma hints_none p batchVec :
  (forall k, p (getStoredTxHints k) = false) ->
  (forall db mode, p (beginDBTransaction db mode) = false) ->
  (forall db mode, p (endDBTransaction db mode) = false) ->
  (forall k v, p (putValue_TXHINTS k v) = false) ->
  none_of p (processAndCommitTxHints txhints_db batchVec).
Proof.
  intros Hget Hbegin Hend Hput. unfold processAndCommitTxHints.
  pose proof (gather_hints_reads batchVec) as Hreads.
  destruct (gather_hints txhints_db batchVec) as [txHints reads].
  simpl in Hreads.
  apply none_of_cons; [apply Hbegin|].
  apply none_of_app.
  { intros e He. rewrite Forall_forall in Hreads.
    specialize (Hreads e He). destruct e; try discriminate. apply Hget. }
  apply none_of_cons; [apply Hbegin|].
  apply none_of_app.
  { apply none_of_map. intros [k v]. apply Hput. }
  apply none_of_cons; [apply Hend|].
  apply none_of_cons; [apply Hend|]. apply none_of_nil.
Qed.

Lemma body_split link :
  exists pre,
    writeBlockData_body link =
      pre ++ [putStoredDBInfo HISTORY (link_topScannedBlockHash_ link);
              endDBTransaction HISTORY ReadWrite]
    /\ none_of is_sdbi_update pre /\ none_of is_join pre.
Proof.
  unfold writeBlockData_body.
  eexists
    ([beginDBTransaction STXO ReadWrite]
     ++ map _ _ ++ [endDBTransaction STXO ReadWrite]
     ++ [beginDBTransaction HISTORY ReadWrite]
     ++ map _ _ ++ [getStoredDBInfo HISTORY]).
  split.
  - rewrite <- !app_assoc. reflexivity.
  - split.
    + apply none_of_cons; [reflexivity|].
      apply none_of_app; [apply none_of_map; now intros [k v]|].
      apply none_of_cons; [reflexivity|].
      apply none_of_cons; [reflexivity|].
      apply none_of_app; [apply none_of_map; now intros [k v]|].
      apply none_of_cons; [reflexivity|]. apply none_of_nil.
    + apply none_of_cons; [reflexivity|].
      apply none_of_app; [apply none_of_map; now intros [k v]|].
      apply none_of_cons; [reflexivity|].
      apply none_of_cons; [reflexivity|].
      apply none_of_app; [apply none_of_map; now intros [k v]|].
      apply none_of_cons; [reflexivity|]. apply none_of_nil.
Qed.

Lemma body_records_before_sdbi link db :
  all_before (is_record_put db) is_sdbi_update (writeBlockData_body link).
Proof.
  destruct (body_split link) as (pre & -> & Hpre & _).
  apply all_before_split; [assumption|].
  apply none_of_cons; [now destruct db|].
  apply none_of_cons; [now destruct db|]. apply none_of_nil.
Qed.

Lemma body_no_join link : none_of is_join (writeBlockData_body link).
Proof.
  destruct (body_split link) as (pre & -> & _ & Hpre).
  apply none_of_app; [assumption|].
  apply none_of_cons; [reflexivity|].
  apply none_of_cons; [reflexivity|]. apply none_of_nil.
Qed.

(** C4, as the code has it.  In every schedule of one turn of the writer,
    the [StoredDBInfo] of [HISTORY] is updated after every [STXO] record
    and every [HISTORY] (SubSSH) record of the group has been put; the
    tx-hint records are put by the hints thread, and all that holds for
    them is that they are put before the writer's wait for that thread
    ends the turn. *)
Theorem sdbi_after_stxo_and_history (link : BatchLink) (tr : list DBEvent)
    (Htr : write_group txhints_db link tr) :
  all_before (is_record_put STXO) is_sdbi_update tr
  /\ all_before (is_record_put HISTORY) is_sdbi_update tr
  /\ all_before (is_record_put TXHINTS) is_join tr.
Proof.
  destruct Htr as (m & Hil & ->).
  assert (Hh : forall p,
             (forall k, p (getStoredTxHints k) = false) ->
             (forall db mode, p (beginDBTransaction db mode) = false) ->
             (forall db mode, p (endDBTransaction db mode) = false) ->
             (forall k v, p (putValue_TXHINTS k v) = false) ->
             none_of p (processAndCommitTxHints txhints_db (batchVec_ link)))
    by (intros; now apply hints_none).
  split; [|split].
  - apply all_before_cons; [reflexivity|].
    apply all_before_snoc; [reflexivity|].
    eapply all_before_interleave; [exact Hil| | |].
    + apply body_records_before_sdbi.
    + apply Hh; reflexivity.
    + apply Hh; reflexivity.
  - apply all_before_cons; [reflexivity|].
    apply all_before_snoc; [reflexivity|].
    eapply all_before_interleave; [exact Hil| | |].
    + apply body_records_before_sdbi.
    + apply Hh; reflexivity.
    + apply Hh; reflexivity.
  - change (start_hints_thread :: m ++ [join_hints_thread])
      with ((start_hints_thread :: m) ++ [join_hints_thread]).
    intros i j e1 e2 Hi Hj Hp Hq.
    assert (Hnj : none_of is_join (start_hints_thread :: m)).
    { apply none_of_cons; [reflexivity|].
      intros e He. destruct (interleave_elem _ _ _ _ Hil He) as [Hin|Hin].
      - now apply (body_no_join link).
      - apply (Hh is_join); try reflexivity. exact Hin. }
    apply lookup_app_Some in Hj as [Hj|[Hj1 Hj2]].
    + apply list_elem_of_lookup_2 in Hj. rewrite (Hnj _ Hj) in Hq. discriminate.
    + apply lookup_app_Some in Hi as [Hi|[Hi1 Hi2]].
      * apply lookup_lt_Some in Hi. lia.
      * destruct (i - length (start_hints_thread :: m))%nat as [|k];
          [|now destruct k].
        simpl in Hi2. injection Hi2 as <-. discriminate.
Qed.
End WriterFacts.

Lemma writer_then_hints_schedule : write_group ∅ linkAB writer_then_hints.
Proof.
  exists (writeBlockData_body linkAB
          ++ processAndCommitTxHints ∅ (batchVec_ linkAB)).
  split; [apply interleave_app|reflexivity].
Qed.

Lemma sdbi_after_stxo_and_history_witness :
  write_group ∅ linkAB writer_then_hints
  /\ all_before (is_record_put STXO) is_sdbi_update writer_then_hints
  /\ all_before (is_record_put HISTORY) is_sdbi_update writer_then_hints
  /\ all_before (is_record_put TXHINTS) is_join writer_then_hints.
Proof.
  split; [exact writer_then_hints_schedule|].
  exact (sdbi_after_stxo_and_history ∅ linkAB writer_then_hints
           writer_then_hints_schedule).
Defined.

(** C4, as stated, fails: in the schedule where the hints thread runs after
    the writer's two transactions, the [StoredDBInfo] update is event 8 and
    the tx-hint record is put at event 13. *)
Lemma sdbi_before_txhints_schedule :
  exists tr,
    write_group ∅ linkAB tr
    /\ ~ all_before (is_record_put TXHINTS) is_sdbi_update tr.
Proof.
  exists writer_then_hints. split; [exact writer_then_hints_schedule|].
  intros Hab.
  assert (H : exists e1 e2,
             writer_then_hints !! 13%nat = Some e1
             /\ writer_then_hints !! 8%nat = Some e2
             /\ is_record_put TXHINTS e1 = true
             /\ is_sdbi_update e2 = true).
  { vm_compute. eexists _, _. repeat split; reflexivity. }
  destruct H as (e1 & e2 & H1 & H2 & Hp & Hq).
  specialize (Hab _ _ _ _ H1 H2 Hp Hq). lia.
Qed.

(** ** The scanner *)

Section ScannerFacts.
Context `{ScrAddrFilter} `{BtcUtils} `{OffsetReader} `{BlockDataLoader}.

(** With [start_ < end_] the loop of [readBlockData] is not entered. *)
Lemma readBlockData_skips_range cfg batch :
  start_ batch < end_ batch -> readBlockData cfg batch = ([], Ok tt).
Proof.
  intros Hlt. unfold readBlockData. simpl.
  now replace (start_ batch >=? end_ batch) with false by (symmetry; lia).
Qed.

(** C9. When [scanFrom] is above the height of the current top, [scan]
    only logs the warning: the scanner is left as it was, no thread is
    started, no batch reaches the write thread, and so the write thread
    puts nothing in the database. *)
Theorem scan_beyond_top (cfg : Config) (st : ScannerState) (scanFrom : Z)
    (Hbeyond : getBlockHeight (top (blockchain_ cfg)) < scanFrom) :
  scan cfg st scanFrom = (st, [LOGWARN_beyond_top], Ok tt)
  /\ Forall (fun e => starts_thread e = false)
       (snd (fst (scan cfg st scanFrom)))
  /\ forall db tr,
       writeBlockData db (pushed_links (snd (fst (scan cfg st scanFrom)))) tr ->
       tr = [].
Proof.
  assert (Hscan : scan cfg st scanFrom = (st, [LOGWARN_beyond_top], Ok tt)).
  { unfold scan.
    now replace (getBlockHeight (top (blockchain_ cfg)) <? scanFrom)
      with true by (symmetry; lia). }
  rewrite Hscan. split; [reflexivity|]. split.
  - repeat constructor.
  - intros db tr Hw. simpl in Hw. inversion Hw. reflexivity.
Qed.
End ScannerFacts.

Lemma scan_beyond_top_witness :
  let F := watching [addrA] in
  let U := script_address in
  let L := loader blocks6 in
  getBlockHeight (top (blockchain_ cfg6)) < 6
  /\ scan cfg6 scanner0 6 = (scanner0, [LOGWARN_beyond_top], Ok tt)
  /\ Forall (fun e => starts_thread e = false)
       (snd (fst (scan cfg6 scanner0 6)))
  /\ forall db tr,
       writeBlockData db (pushed_links (snd (fst (scan cfg6 scanner0 6)))) tr ->
       tr = [].
Proof.
  intros F U L.
  assert (Hb : getBlockHeight (top (blockchain_ cfg6)) < 6) by reflexivity.
  split; [exact Hb|].
  exact (scan_beyond_top cfg6 scanner0 6 Hb).
Defined.

(** C2. The chain has the blocks 0 to 5 and the batch covers [0, 5] with one
    thread, so the six heights are due; [readBlockData] posts no block and
    ends normally, that is, it posts the terminating link alone.  The loop
    condition [currentBlock >= batch->end_] is false at once.  For the
    batch [5, 5] the loop is entered, posts block 5 and goes on to height 6,
    where [getHeaderByHeight] throws. *)
Theorem readBlockData_posts_no_block :
  let L := loader blocks6 in
  Forall (fun h => is_ok (getHeaderByHeight (blockchain_ cfg6) h) = true)
    [0; 1; 2; 3; 4; 5]
  /\ readBlockData cfg6 (new_batch 0 5) = ([], Ok tt)
  /\ readBlockData cfg6 (new_batch 5 5)
     = ([{| header := hdr 5 5; txns_ := [] |}], Raise range_error).
Proof. intros L. split; [repeat constructor|]. split; reflexivity. Qed.

Section GroupFacts.
Variable cfg : Config.
Hypothesis Hchain : chain_to_top (blockchain_ cfg).

Let bc := blockchain_ cfg.
Let topHeight := getBlockHeight (top (blockchain_ cfg)).

Lemma getHeaderByHeight_in_range height :
  0 <= height <= topHeight ->
  exists hdr, getHeaderByHeight bc height = Ok hdr.
Proof.
  intros Hr. destruct Hchain as [Hlen _]. unfold getHeaderByHeight.
  replace (height <? 0) with false by (symmetry; apply Z.ltb_ge; lia).
  destruct (nth_error (headersByHeight bc) (Z.to_nat height)) as [h|] eqn:E;
    [now exists h|].
  apply nth_error_None in E. subst bc topHeight. lia.
Qed.

Lemma getHeaderByHeight_beyond height :
  topHeight < height -> getHeaderByHeight bc height = Raise range_error.
Proof.
  intros Hr. destruct Hchain as [Hlen _]. unfold getHeaderByHeight.
  destruct (height <? 0); [reflexivity|].
  destruct (nth_error (headersByHeight bc) (Z.to_nat height)) as [h|] eqn:E;
    [|reflexivity].
  assert (Hlt : (Z.to_nat height < length (headersByHeight bc))%nat)
    by (apply nth_error_Some; congruence).
  subst bc topHeight. lia.
Qed.

(** The loop that looks for the end of a batch group, from a height of the
    chain: it stops at the first height whose block file reaches the target,
    or runs off the chain at the height after the top. *)
Lemma targetHeight_loop_spec target fuel : forall currentHeader targetHeight,
  0 <= targetHeight <= topHeight ->
  getHeaderByHeight bc targetHeight = Ok currentHeader ->
  (Z.to_nat (topHeight - targetHeight) < fuel)%nat ->
  exists e,
    targetHeight <= e
    /\ (forall t, targetHeight <= t < e -> t <= topHeight ->
          file_below bc target t)
    /\ ((e <= topHeight
         /\ targetHeight_loop cfg fuel target currentHeader targetHeight
            = (e, Ok tt)
         /\ exists hdr, getHeaderByHeight bc e = Ok hdr
                        /\ target <= getBlockFileNum hdr)
        \/ (e = topHeight + 1
            /\ targetHeight_loop cfg fuel target currentHeader targetHeight
               = (e, Raise range_error))).
Proof.
  induction fuel as [|fuel IH]; intros cur t Ht Hcur Hfuel; [lia|].
  simpl. destruct (getBlockFileNum cur <? target) eqn:Hfile.
  - apply Z.ltb_lt in Hfile.
    assert (Hw : wrap32 (t + 1) = t + 1).
    { destruct Hchain as [_ Hmax]. unfold wrap32. fold topHeight in Hmax.
      rewrite Z.mod_small; lia. }
    rewrite Hw. fold bc.
    destruct (Z.eq_dec t topHeight) as [->|Hne].
    + rewrite getHeaderByHeight_beyond by lia. cbn [failed].
      exists (topHeight + 1). split; [lia|]. split.
      * intros t' Ht' Htop. assert (t' = topHeight) as -> by lia.
        now exists cur.
      * right. now split.
    + destruct (getHeaderByHeight_in_range (t + 1)) as [h Hh]; [lia|].
      rewrite Hh.
      destruct (IH h (t + 1)) as (e & He & Hbelow & Hend); [lia|exact Hh|lia|].
      exists e. split; [lia|]. split; [|exact Hend].
      intros t' Ht' Htop. destruct (Z.eq_dec t' t) as [->|Hn].
      * now exists cur.
      * apply Hbelow; lia.
  - apply Z.ltb_ge in Hfile. exists t. split; [lia|]. split; [intros; lia|].
    left. split; [lia|]. split; [reflexivity|]. now exists cur.
Qed.

Lemma find_targetHeight_in_range startHeight :
  0 <= startHeight <= topHeight ->
  exists endHeight,
    find_targetHeight cfg startHeight = Ok endHeight
    /\ startHeight <= endHeight <= topHeight.
Proof.
  intros Hstart.
  destruct (getHeaderByHeight_in_range startHeight Hstart) as [h Hh].
  unfold bc in Hh. unfold find_targetHeight. rewrite Hh.
  destruct (targetHeight_loop_spec
              (wrap32 (getBlockFileNum h + nBlockFilesPerBatch_ cfg))
              (S (length (headersByHeight (blockchain_ cfg))))
              h startHeight Hstart Hh)
    as (e & He & _ & [(Htop & -> & _)|(-> & ->)]).
  { destruct Hchain as [Hlen _]. subst topHeight. lia. }
  - exists e. split; [reflexivity|lia].
  - fold topHeight.
    replace (topHeight + 1 <? topHeight) with false
      by (symmetry; apply Z.ltb_ge; lia).
    exists topHeight. split; [reflexivity|lia].
Qed.

End GroupFacts.

(** C3. [scan] does not start the next batch group at [endHeight + 1].  On a
    chain that has a header at every height up to its top, for a batch
    group that starts at a height [startHeight >= 1] of the chain: the code
    finds the end [endHeight] of the group between [startHeight] and the
    top, and the statement that ends the turn,
    [startHeight += endHeight + 1], leaves [startHeight + endHeight + 1] in
    [startHeight].  That is above [endHeight + 1]: the next batch group,
    if there is one, starts above the heights from [endHeight + 1] to
    [endHeight + startHeight]. *)
Theorem scan_skips_heights (cfg : Config) (startHeight : Z)
    (Hchain : chain_to_top (blockchain_ cfg))
    (Hhalf : 2 * (getBlockHeight (top (blockchain_ cfg)) + 1) <= UINT32_MOD)
    (Hstart : 1 <= startHeight <= getBlockHeight (top (blockchain_ cfg))) :
  exists endHeight,
    find_targetHeight cfg startHeight = Ok endHeight
    /\ startHeight <= endHeight <= getBlockHeight (top (blockchain_ cfg))
    /\ next_startHeight startHeight endHeight = startHeight + endHeight + 1
    /\ endHeight + 1 < next_startHeight startHeight endHeight.
Proof.
  destruct (find_targetHeight_in_range cfg Hchain startHeight)
    as (endHeight & Hfind & Hend); [lia|].
  exists endHeight. split; [exact Hfind|]. split; [exact Hend|].
  assert (Hnext : next_startHeight startHeight endHeight
                  = startHeight + endHeight + 1).
  { unfold next_startHeight, wrap32.
    rewrite (Z.mod_small (endHeight + 1)) by lia.
    rewrite Z.mod_small; lia. }
  rewrite Hnext. split; [reflexivity|lia].
Qed.

Lemma chain6_to_top : chain_to_top (blockchain_ cfg6).
Proof. split; reflexivity. Defined.

Lemma chain6_half :
  2 * (getBlockHeight (top (blockchain_ cfg6)) + 1) <= UINT32_MOD.
Proof. discriminate. Defined.

(** On the chain of six blocks, one per block file, with one block file per
    batch group: the group that starts at height 1 ends at height 2, and the
    next one starts at height 4; height 3 is in neither. *)
Lemma scan_skips_heights_witness :
  chain_to_top (blockchain_ cfg6)
  /\ 2 * (getBlockHeight (top (blockchain_ cfg6)) + 1) <= UINT32_MOD
  /\ 1 <= 1 <= getBlockHeight (top (blockchain_ cfg6))
  /\ find_targetHeight cfg6 1 = Ok 2
  /\ next_startHeight 1 2 = 4
  /\ exists endHeight,
       find_targetHeight cfg6 1 = Ok endHeight
       /\ 1 <= endHeight <= getBlockHeight (top (blockchain_ cfg6))
       /\ next_startHeight 1 endHeight = 1 + endHeight + 1
       /\ endHeight + 1 < next_startHeight 1 endHeight.
Proof.
  assert (Hs : 1 <= 1 <= getBlockHeight (top (blockchain_ cfg6)))
    by (split; discriminate).
  split; [exact chain6_to_top|]. split; [exact chain6_half|].
  split; [exact Hs|]. split; [reflexivity|]. split; [reflexivity|].
  exact (scan_skips_heights cfg6 1 chain6_to_top chain6_half Hs).
Defined.

Section PassFacts.
Context `{ScrAddrFilter} `{BtcUtils} `{OffsetReader}.

Lemma for_indexed_inv {A S : Type} (P : S -> Prop) (body : Z -> A -> S -> S) :
  (forall idx a s, P s -> P (body idx a s)) ->
  forall l idx s, P s -> P (for_indexed body idx l s).
Proof.
  intros Hbody. induction l as [|a l IH]; intros idx s Hs; simpl; auto.
Qed.

Lemma keyed_empty : keyed_by_txIndex ∅.
Proof. intros h utxos k stxo Hh. rewrite lookup_empty in Hh. discriminate. Qed.

Lemma txout_step_keyed hdr i txn y txout batch :
  keyed_by_txIndex (utxos_ batch) ->
  keyed_by_txIndex (utxos_ (txout_step hdr i txn y txout batch)).
Proof.
  intros Hk. unfold txout_step.
  destruct (negb (hasScrAddress _)); [exact Hk|].
  cbn [utxos_]. intros h utxos k stxo Hh Hs.
  destruct (decide (txHash_ txn = h)) as [<-|Hne].
  - rewrite lookup_insert_eq in Hh. injection Hh as <-.
    unfold map_insert, map_at in Hs.
    destruct (utxos_ batch !! txHash_ txn) as [old|] eqn:Eold; cbn [default from_option id] in Hs.
    + destruct (old !! i) as [x|] eqn:Ei.
      * exact (Hk _ _ _ _ Eold Hs).
      * destruct (decide (i = k)) as [<-|Hik].
        -- rewrite lookup_insert_eq in Hs. injection Hs as <-. now split.
        -- rewrite lookup_insert_ne in Hs by assumption.
           exact (Hk _ _ _ _ Eold Hs).
    + rewrite lookup_empty in Hs.
      destruct (decide (i = k)) as [<-|Hik].
      * rewrite lookup_insert_eq in Hs. injection Hs as <-. now split.
      * rewrite lookup_insert_ne, lookup_empty in Hs by assumption. discriminate.
  - rewrite lookup_insert_ne in Hh by assumption.
    exact (Hk _ _ _ _ Hh Hs).
Qed.

Lemma txoutParser_keyed blockdata batch :
  keyed_by_txIndex (utxos_ batch) ->
  keyed_by_txIndex (utxos_ (txoutParser blockdata batch)).
Proof.
  intros Hk. unfold txoutParser.
  apply (for_indexed_inv (fun b => keyed_by_txIndex (utxos_ b))); [|exact Hk].
  intros i txn b Hb.
  apply (for_indexed_inv (fun b => keyed_by_txIndex (utxos_ b))); [|exact Hb].
  intros y txout b' Hb'. now apply txout_step_keyed.
Qed.

(** The output pass keys every utxo by its transaction's index. *)
Lemma scan_txouts_keyed links batch :
  keyed_by_txIndex (utxos_ batch) ->
  keyed_by_txIndex (utxos_ (blockDataLoop txoutParser links batch)).
Proof.
  unfold blockDataLoop. revert batch.
  induction links as [|blk links IH]; intros batch Hk; simpl; [exact Hk|].
  apply IH. now apply txoutParser_keyed.
Qed.

Lemma update_utxoMap_keyed batchVec : forall utxoMap,
  keyed_by_txIndex utxoMap ->
  Forall (fun b => keyed_by_txIndex (utxos_ b)) batchVec ->
  keyed_by_txIndex (update_utxoMap utxoMap batchVec).
Proof.
  unfold update_utxoMap.
  induction batchVec as [|b batchVec IH]; intros utxoMap Hm Hall; simpl;
    [exact Hm|].
  inversion Hall as [|? ? Hb Hrest]; subst.
  apply IH; [|exact Hrest].
  intros h utxos k stxo Hh Hs.
  apply lookup_union_Some_raw in Hh as [Hh|[_ Hh]].
  - exact (Hm _ _ _ _ Hh Hs).
  - exact (Hb _ _ _ _ Hh Hs).
Qed.

(** An entry [utxoMap_] has for a transaction hash is not replaced by the
    update. *)
Lemma update_utxoMap_keeps batchVec : forall (utxoMap : UtxoMap) h utxos,
  utxoMap !! h = Some utxos ->
  update_utxoMap utxoMap batchVec !! h = Some utxos.
Proof.
  unfold update_utxoMap.
  induction batchVec as [|b batchVec IH]; intros utxoMap h utxos Hh; simpl;
    [exact Hh|].
  apply IH. apply lookup_union_Some_raw. now left.
Qed.

(** What the input pass guarantees for an output it marks spent: the input
    names the entry's parent hash and, as output index, the key the entry
    sits under, which is its transaction's index. *)
Lemma txin_step_spent utxoMap hdr i txn y txin batch stxo :
  keyed_by_txIndex utxoMap ->
  stxo ∈ spentTxOuts_ (txin_step utxoMap hdr i txn y txin batch) ->
  stxo ∈ spentTxOuts_ batch
  \/ (spentness_ stxo = TXOUT_SPENT
      /\ spentByTxInKey_ stxo
         = getBlkDataKeyNoPrefix4 (getBlockHeight hdr) (getDuplicateID hdr) i y
      /\ txin_outpoint txn txin = (parentHash_ stxo, txIndex_ stxo)).
Proof.
  intros Hk. unfold txin_step.
  destruct (utxoMap !! slice (data_ txn) (fst txin) 32) as [utxos|] eqn:Eh;
    [|now left].
  destruct (utxos !! READ_UINT32_LE (data_ txn) (fst txin + 32))
    as [found|] eqn:Ek; [|now left].
  cbn [spentTxOuts_]. intros Hin.
  apply elem_of_app in Hin as [Hin|Hin]; [now left|].
  apply list_elem_of_singleton in Hin. subst stxo. right.
  destruct (Hk _ _ _ _ Eh Ek) as [Hp Hi].
  cbn [spentness_ spentByTxInKey_ parentHash_ txIndex_].
  repeat split. unfold txin_outpoint. now rewrite Hp, Hi.
Qed.
End PassFacts.

(** * Further properties of the code *)

Lemma scanFor_spec_witness :
  (0 < length mainnet_magic <= length [x00; xf9; xbe; xb4; xd9; x01])%nat
  /\ Z.of_nat (length [x00; xf9; xbe; xb4; xd9; x01]) < UINT64_MAX
  /\ exists r,
       scanFor [x00; xf9; xbe; xb4; xd9; x01] 6 mainnet_magic = Some r
       /\ ((r = UINT64_MAX
            /\ forall j : nat,
                 (j = 0%nat \/ Z.of_nat j + 4 < 6) ->
                 ~ occurs_at [x00; xf9; xbe; xb4; xd9; x01] mainnet_magic j)
           \/ (exists j : nat,
                 r = Z.of_nat j
                 /\ (j = 0%nat \/ Z.of_nat j + 4 < 6)
                 /\ occurs_at [x00; xf9; xbe; xb4; xd9; x01] mainnet_magic j
                 /\ forall j' : nat,
                      (j' < j)%nat ->
                      ~ occurs_at [x00; xf9; xbe; xb4; xd9; x01]
                          mainnet_magic j')).
Proof.
  assert (Hlen : (0 < length mainnet_magic
                  <= length [x00; xf9; xbe; xb4; xd9; x01])%nat)
    by (simpl; lia).
  assert (Hmax : Z.of_nat (length [x00; xf9; xbe; xb4; xd9; x01]) < UINT64_MAX)
    by reflexivity.
  split; [exact Hlen|]. split; [exact Hmax|].
  exact (scanFor_spec [x00; xf9; xbe; xb4; xd9; x01] mainnet_magic Hlen Hmax).
Defined.

(** ** [detectAllBlkFiles] and [offsetAtStartOfFile]: the listing *)

Section DetectLaws.
Variable name : Z -> string.

Lemma sum_sizes_snoc l f : sum_sizes (l ++ [f]) = sum_sizes l + filesize f.
Proof.
  unfold sum_sizes. induction l as [|g l IH]; simpl; [lia|]. rewrite IH. lia.
Qed.

Lemma cumulative_push s f :
  cumulative s ->
  filesizeCumul f = totalBlockchainBytes_ s ->
  cumulative {| blkFiles_ := blkFiles_ s ++ [f];
                totalBlockchainBytes_ :=
                  wrap64 (totalBlockchainBytes_ s + filesize f) |}.
Proof.
  intros [Hc Ht] Hf. split; cbn [blkFiles_ totalBlockchainBytes_].
  - intros i g Hg. apply lookup_app_Some in Hg as [Hg|[Hlen Hg]].
    + rewrite take_app_le by (apply lookup_lt_Some in Hg; lia).
      now apply Hc.
    + destruct (i - length (blkFiles_ s))%nat as [|n] eqn:En;
        [|discriminate].
      injection Hg as <-.
      assert (i = length (blkFiles_ s)) as -> by lia.
      rewrite take_app_length. congruence.
  - rewrite sum_sizes_snoc, Ht. unfold wrap64.
    now rewrite Zplus_mod_idemp_l.
Qed.

Lemma cumulative_pop s rest back :
  cumulative s ->
  blkFiles_ s = rest ++ [back] ->
  cumulative {| blkFiles_ := rest;
                totalBlockchainBytes_ :=
                  wrap64 (totalBlockchainBytes_ s - filesize back) |}.
Proof.
  intros [Hc Ht] Hs. split; cbn [blkFiles_ totalBlockchainBytes_].
  - intros i g Hg. specialize (Hc i g). rewrite Hs in Hc.
    rewrite lookup_app_l in Hc by (apply lookup_lt_Some in Hg; lia).
    rewrite take_app_le in Hc by (apply lookup_lt_Some in Hg; lia).
    now apply Hc.
  - rewrite Ht, Hs, sum_sizes_snoc. unfold wrap64.
    rewrite Zminus_mod_idemp_l. f_equal. lia.
Qed.

Lemma pop_back_Some {A} (v rest : list A) back :
  pop_back v = Some (rest, back) -> v = rest ++ [back].
Proof.
  unfold pop_back. destruct (rev v) as [|b r] eqn:E; [discriminate|].
  intros [= <- <-]. rewrite <- (rev_involutive v), E. reflexivity.
Qed.

Lemma pop_back_None {A} (v : list A) : pop_back v = None -> v = [].
Proof.
  unfold pop_back. destruct (rev v) as [|b r] eqn:E; [|discriminate].
  intros _. rewrite <- (rev_involutive v), E. reflexivity.
Qed.

Lemma detect_loop_cumulative d n : forall k s,
  cumulative s -> cumulative (fst (detect_loop name n d k s)).
Proof.
  induction n as [|n IH]; intros k s Hc; simpl; [exact Hc|].
  destruct (k <? UINT16_MAX); [|exact Hc].
  destruct (d (name k)) as [sz|]; [|exact Hc].
  apply IH. now apply cumulative_push.
Qed.

Lemma detectAllBlkFiles_cumulative d s :
  cumulative s -> cumulative (fst (detectAllBlkFiles name d s)).
Proof.
  intros Hc. unfold detectAllBlkFiles.
  destruct (pop_back (blkFiles_ s)) as [[rest back]|] eqn:Ep.
  - apply pop_back_Some in Ep.
    pose proof (detect_loop_cumulative d
                  (Z.to_nat (UINT16_MAX
                             - wrap32 (Z.of_nat (length (blkFiles_ s)) - 1)))
                  (wrap32 (Z.of_nat (length (blkFiles_ s)) - 1))
                  _ (cumulative_pop s rest back Hc Ep)) as Hl.
    destruct (detect_loop name _ d _ _) as [s2 k2].
    now destruct (k2 =? UINT16_MAX).
  - pose proof (detect_loop_cumulative d (Z.to_nat (UINT16_MAX - 0)) 0 s Hc)
      as Hl.
    destruct (detect_loop name _ d _ _) as [s2 k2].
    now destruct (k2 =? UINT16_MAX).
Qed.

Lemma detect_run_cumulative disks : forall s,
  cumulative s -> Forall cumulative (detect_run name disks s).
Proof.
  induction disks as [|d disks IH]; intros s Hc; simpl; constructor.
  - now apply detectAllBlkFiles_cumulative.
  - apply IH. now apply detectAllBlkFiles_cumulative.
Qed.

(** X3. After any calls of [detectAllBlkFiles] on a fresh object,
    [offsetAtStartOfFile] of a file of the list is the sum of the recorded
    sizes of the files before it, as a 64-bit number; it is 0 for file 0,
    listed or not, and throws [range_error] for any other file that is not
    listed. *)
Theorem offsetAtStartOfFile_prefix_sum (disks : list Disk) (s : BlkFiles)
    (fnum : Z)
    (Hs : s ∈ detect_run name disks BlkFiles_init)
    (Hfnum : 0 <= fnum) :
  offsetAtStartOfFile s fnum =
    if (0 <? fnum) && (Z.of_nat (length (blkFiles_ s)) <=? fnum)
    then Raise range_error
    else Ok (wrap64 (sum_sizes (take (Z.to_nat fnum) (blkFiles_ s)))).
Proof.
  assert (Hc : cumulative s).
  { assert (Hall : Forall cumulative (detect_run name disks BlkFiles_init)).
    { apply detect_run_cumulative. split; [intros i f Hf; discriminate|].
      reflexivity. }
    rewrite Forall_forall in Hall. now apply Hall. }
  unfold offsetAtStartOfFile.
  destruct (Z.eqb_spec fnum 0) as [->|Hne].
  - reflexivity.
  - replace (0 <? fnum) with true by (symmetry; apply Z.ltb_lt; lia).
    cbn [andb].
    destruct (Z.leb_spec (Z.of_nat (length (blkFiles_ s))) fnum) as [Hge|Hlt];
      [reflexivity|].
    destruct (blkFiles_ s !! Z.to_nat fnum) as [f|] eqn:Ef.
    + now rewrite (proj1 Hc _ _ Ef).
    + apply lookup_ge_None in Ef. lia.
Qed.

Lemma listed_from_push d s f :
  listed_from name d s ->
  fnum f = Z.of_nat (length (blkFiles_ s)) ->
  path f = name (fnum f) ->
  d (path f) = Some (filesize f) ->
  listed_from name d
    {| blkFiles_ := blkFiles_ s ++ [f];
       totalBlockchainBytes_ :=
         wrap64 (totalBlockchainBytes_ s + filesize f) |}.
Proof.
  intros Hl Hn Hp Hd i g Hg. cbn [blkFiles_] in Hg.
  apply lookup_app_Some in Hg as [Hg|[Hlen Hg]]; [now apply Hl|].
  destruct (i - length (blkFiles_ s))%nat as [|n] eqn:En; [|discriminate].
  injection Hg as <-.
  assert (i = length (blkFiles_ s)) as -> by lia.
  rewrite <- Hn, <- Hp. now repeat split.
Qed.

(** The loop of [detectAllBlkFiles], entered at the index after the files
    listed so far: it lists the files the directory has from there on, up to
    the first that is missing or to index [UINT16_MAX]. *)
Lemma detect_loop_exact d n : forall k s,
  k = Z.of_nat (length (blkFiles_ s)) ->
  Z.of_nat n = UINT16_MAX - k ->
  listed_from name d s ->
  let r := detect_loop name n d k s in
  listed_from name d (fst r)
  /\ snd r = Z.of_nat (length (blkFiles_ (fst r)))
  /\ snd r <= UINT16_MAX
  /\ (snd r < UINT16_MAX -> d (name (snd r)) = None).
Proof.
  induction n as [|n IH]; intros k s Hk Hn Hl; simpl.
  - split; [exact Hl|]. split; [exact Hk|]. split; lia.
  - replace (k <? UINT16_MAX) with true by (symmetry; apply Z.ltb_lt; lia).
    destruct (d (name k)) as [sz|] eqn:Ed.
    + assert (Hw : wrap32 (k + 1) = k + 1).
      { unfold wrap32, UINT32_MOD. unfold UINT16_MAX in Hn.
        rewrite Z.mod_small; lia. }
      rewrite Hw. apply IH.
      * cbn [blkFiles_]. rewrite length_app. simpl. lia.
      * lia.
      * apply listed_from_push; cbn [fnum path filesize]; auto.
    + cbn [fst snd]. split; [exact Hl|]. split; [exact Hk|].
      split; [lia|]. intros _. exact Ed.
Qed.

(** X2. The first call of [detectAllBlkFiles] lists the block files the
    directory has from index 0 up to the first that is missing, each with
    its index, its path, its size in the directory and the sum of the sizes
    before it; it throws exactly when the files 0 to [UINT16_MAX - 1] are all
    there. *)
Theorem detectAllBlkFiles_first_call (d : Disk) :
  let s := fst (detectAllBlkFiles name d BlkFiles_init) in
  let r := snd (detectAllBlkFiles name d BlkFiles_init) in
  let n := Z.of_nat (length (blkFiles_ s)) in
  listed_from name d s
  /\ cumulative s
  /\ n <= UINT16_MAX
  /\ (r = Ok tt /\ n < UINT16_MAX /\ d (name n) = None
      \/ r = Raise (runtime_error
                      "Error finding blockchain files (blkXXXX.dat)")
         /\ n = UINT16_MAX).
Proof.
  cbn zeta.
  pose proof (detectAllBlkFiles_cumulative d BlkFiles_init) as Hc.
  unfold detectAllBlkFiles in *. cbn [BlkFiles_init blkFiles_ pop_back rev] in *.
  pose proof (detect_loop_exact d (Z.to_nat (UINT16_MAX - 0)) 0
                {| blkFiles_ := []; totalBlockchainBytes_ := 0 |}
                eq_refl ltac:(rewrite Z2Nat.id; unfold UINT16_MAX; lia)
                ltac:(intros i f Hf; discriminate)) as Hloop.
  cbn zeta in Hloop.
  destruct (detect_loop name _ d 0 _) as [s2 k2].
  cbn [fst snd] in Hloop. destruct Hloop as (Hl & Hk & Hmax & Hnone).
  destruct (Z.eqb_spec k2 UINT16_MAX) as [Heq|Hne]; cbn [fst snd] in *.
  - split; [exact Hl|]. split.
    { apply Hc. split; [intros i f Hf; discriminate|reflexivity]. }
    split; [lia|]. right. split; [reflexivity|lia].
  - split; [exact Hl|]. split.
    { apply Hc. split; [intros i f Hf; discriminate|reflexivity]. }
    split; [lia|]. left. split; [reflexivity|]. split; [lia|].
    rewrite <- Hk. apply Hnone. lia.
Qed.
End DetectLaws.

Lemma offsetAtStartOfFile_prefix_sum_witness :
  let s := fst (detectAllBlkFiles blkName disk2 BlkFiles_init) in
  s ∈ detect_run blkName [disk2] BlkFiles_init
  /\ 0 <= 1
  /\ offsetAtStartOfFile s 1 = Ok 150.
Proof.
  intros s.
  assert (Hs : s ∈ detect_run blkName [disk2] BlkFiles_init)
    by apply list_elem_of_here.
  assert (Hf : 0 <= 1) by discriminate.
  split; [exact Hs|]. split; [exact Hf|].
  assert (Heq : (if (0 <? 1) && (Z.of_nat (length (blkFiles_ s)) <=? 1)
                 then Raise range_error
                 else Ok (wrap64 (sum_sizes (take (Z.to_nat 1) (blkFiles_ s)))))
                = Ok 150) by (vm_compute; reflexivity).
  exact (eq_trans
           (offsetAtStartOfFile_prefix_sum blkName [disk2] s 1 Hs Hf) Heq).
Defined.

(** ** [appendPath] *)

Lemma append_assoc (a b c : string) :
  String.append (String.append a b) c = String.append a (String.append b c).
Proof.
  induction a as [|x a IH]; [reflexivity|].
  change (String x (String.append (String.append a b) c)
          = String x (String.append a (String.append b c))).
  now rewrite IH.
Qed.

(** X7. [appendPath] leaves [base] as it is when [add] is empty; on a
    non-empty [add] and a non-empty [base] it makes [base] the joined path;
    on a non-empty [add] and an empty [base] it reads the character before
    the storage of [base]. *)
Theorem appendPath_joins (base add : string)
    (Hbase : base <> EmptyString)
    (Hsize : Z.of_nat (String.length base) < UINT64_MOD) :
  appendPath base add = Ok (join_path base add)
  /\ appendPath EmptyString EmptyString = Ok EmptyString
  /\ (add <> EmptyString -> appendPath EmptyString add = Fault).
Proof.
  split; [|split].
  - unfold appendPath, join_path.
    destruct add as [|c add]; [reflexivity|].
    destruct (last_char_Some base Hbase) as [l Hl]. rewrite Hl.
    cbn [String.length Nat.eqb].
    assert (Hlen : (1 <= String.length base)%nat)
      by (destruct base; [congruence|simpl; lia]).
    assert (Hc0 : c_str_at (String c add) 0 = Ok c).
    { unfold c_str_at. cbn [String.length].
      replace (0 <? Z.of_nat (S (String.length add))) with true
        by (symmetry; apply Z.ltb_lt; lia).
      reflexivity. }
    assert (Hc1 : c_str_at base (wrap64 (Z.of_nat (String.length base) - 1))
                  = Ok l).
    { rewrite wrap64_small by lia. unfold c_str_at.
      replace (0 <=? Z.of_nat (String.length base) - 1) with true
        by (symmetry; apply Z.leb_le; lia).
      replace (Z.of_nat (String.length base) - 1
               <? Z.of_nat (String.length base)) with true
        by (symmetry; apply Z.ltb_lt; lia).
      cbn [andb].
      replace (Z.to_nat (Z.of_nat (String.length base) - 1))
        with (String.length base - 1)%nat by lia.
      now rewrite get_last_char, Hl. }
    rewrite Hc0, Hc1. cbn [mbind result_bind rbind].
    destruct (is_separator c), (is_separator l); cbn [negb andb orb];
      try reflexivity.
    now rewrite append_assoc.
  - reflexivity.
  - intros Hadd. destruct add as [|c add]; [congruence|].
    unfold appendPath. cbn [String.length Nat.eqb].
    assert (Hc0 : c_str_at (String c add) 0 = Ok c).
    { unfold c_str_at. cbn [String.length].
      replace (0 <? Z.of_nat (S (String.length add))) with true
        by (symmetry; apply Z.ltb_lt; lia).
      reflexivity. }
    rewrite Hc0. reflexivity.
Qed.

Lemma appendPath_joins_witness :
  "/data"%string <> EmptyString
  /\ Z.of_nat (String.length "/data") < UINT64_MOD
  /\ appendPath "/data" "blocks" = Ok "/data/blocks"%string.
Proof.
  assert (Hb : "/data"%string <> EmptyString) by discriminate.
  assert (Hs : Z.of_nat (String.length "/data") < UINT64_MOD) by reflexivity.
  split; [exact Hb|]. split; [exact Hs|].
  exact (proj1 (appendPath_joins "/data" "blocks" Hb Hs)).
Defined.



(** ** [readRawBlocks] and [readRawBlocksFromFile] *)

Section RawLaws.
Variable magicBytes_ : BinaryData.
Variable CB : Type.

Lemma readRawBlocks_files_past n fs s cb : forall first second stopSecond fin
    (c : CB) tr pos,
  0 <= first <= Z.of_nat (length (blkFiles_ s)) ->
  Z.of_nat (length (blkFiles_ s)) < UINT64_MAX ->
  0 < stopSecond ->
  (first = Z.of_nat (length (blkFiles_ s)) -> second = 0) ->
  run_res (readRawBlocks_files magicBytes_ CB n fs s cb first second
             (Z.of_nat (length (blkFiles_ s))) stopSecond fin c tr)
  <> Ok pos.
Proof.
  induction n as [|n IH];
    intros first second stopSecond fin c tr pos Hf Hmax Hstop Hsecond;
    simpl;
    replace (first <=? Z.of_nat (length (blkFiles_ s))) with true
      by (symmetry; apply Z.leb_le; lia).
  - discriminate.
  - destruct (blkFiles_ s !! Z.to_nat first) as [f|] eqn:Ef.
    + apply lookup_lt_Some in Ef.
      destruct (run_res (readRawBlocksFromFile magicBytes_ CB fs f second _
                           cb c))
        as [off| | |] eqn:Er; cbn [run_res]; try discriminate.
      apply IH; [|exact Hmax|exact Hstop|reflexivity].
      rewrite wrap64_small by (unfold UINT64_MAX, UINT64_MOD in *; lia). lia.
    + apply lookup_ge_None in Ef.
      assert (Hlast : first = Z.of_nat (length (blkFiles_ s))) by lia.
      rewrite (Hsecond Hlast).
      replace (first <? Z.of_nat (length (blkFiles_ s))) with false
        by (symmetry; apply Z.ltb_ge; lia).
      replace (stopSecond <=? 0) with false
        by (symmetry; apply Z.leb_gt; lia).
      discriminate.
Qed.

(** X5. [readRawBlocks] from a listed file up to a stop position whose file
    number is not below the number of listed files and whose offset is
    above 0 does not return: after the last listed file it reads the element
    after the end of [blkFiles_], from offset 0 and short of the stop
    offset. *)
Theorem readRawBlocks_reads_past_last_file (fs : FileSystem) (s : BlkFiles)
    (startAt stopAt : Z * Z) (cb : Callback CB) (c : CB) (pos : Z * Z)
    (Hstart : 0 <= fst startAt < Z.of_nat (length (blkFiles_ s)))
    (Hstop : Z.of_nat (length (blkFiles_ s)) <= fst stopAt)
    (Hoffset : 0 < snd stopAt)
    (Hmax : Z.of_nat (length (blkFiles_ s)) < UINT64_MAX) :
  run_res (readRawBlocks magicBytes_ CB fs s startAt stopAt cb c) <> Ok pos.
Proof.
  unfold readRawBlocks.
  replace (fst startAt =? _) with false by (symmetry; apply Z.eqb_neq; lia).
  replace (_ <? fst startAt) with false by (symmetry; apply Z.ltb_ge; lia).
  rewrite Z.min_r by lia.
  apply readRawBlocks_files_past; [lia|exact Hmax|exact Hoffset|lia].
Qed.
End RawLaws.

Section RoundTrip.
Variable magicBytes_ : BinaryData.
Variable CB : Type.
Hypothesis Hmagic : length magicBytes_ = 4%nat.

(** X4. On a block file of the right network that holds whole blocks only,
    each after the magic bytes and the four bytes of its size,
    [readRawBlocksFromFile] from offset 0 hands every block to the callback,
    in order and with the offset of its magic bytes, and returns the size of
    the file. *)
Theorem readRawBlocksFromFile_reads_every_block (fs : FileSystem)
    (f : BlkFile) (stopBefore : Z) (cb : Callback CB) (c : CB)
    (frames : list Frame)
    (Hframes : Forall well_framed frames)
    (Hsome : frames <> [])
    (Hfile : fs (path f) = Some (framed_file magicBytes_ frames))
    (Hsize : filesize f
             = Z.of_nat (length (framed_file magicBytes_ frames)))
    (Hmax : filesize f < UINT64_MOD)
    (Hstop : filesize f <= stopBefore)
    (Hcb : forall c d p z, snd (cb c d p z) = None) :
  let r := readRawBlocksFromFile magicBytes_ CB fs f 0 stopBefore cb c in
  run_trace r = frame_events (fnum f) 0 frames
                ++ [LOGINFO_finished (fnum f) (filesize f)]
  /\ run_res r = Ok (filesize f).
Proof.
  cbn zeta. unfold readRawBlocksFromFile.
  destruct frames as [|fr frames']; [congruence|].
  set (frames := fr :: frames') in *.
  assert (Hfr : well_framed fr) by now inversion Hframes.
  destruct (frame_length magicBytes_ Hmagic fr Hfr) as [Hlen Hpos].
  assert (Hbig : 8 < filesize f).
  { rewrite Hsize. unfold frames, framed_file. simpl. rewrite length_app. lia. }
  replace (stopBefore <=? 0) with false by (symmetry; apply Z.leb_gt; lia).
  unfold getMapOfFile. rewrite Hfile.
  replace (firstn (Z.to_nat (filesize f)) (framed_file magicBytes_ frames))
    with (framed_file magicBytes_ frames)
    by (now rewrite Hsize, Nat2Z.id, firstn_all).
  assert (Hr0 : read_at (framed_file magicBytes_ frames) 0 4 = Ok magicBytes_).
  { unfold read_at. rewrite <- Hsize.
    replace (0 + 4 <=? filesize f) with true by (symmetry; apply Z.leb_le; lia).
    cbn [Z.leb andb]. f_equal. unfold frames, framed_file. simpl.
    unfold frame_bytes. rewrite <- app_assoc.
    replace 4 with (Z.of_nat (length magicBytes_)) by lia.
    apply (slice_app_mid [] magicBytes_).
    destruct magicBytes_; [discriminate|congruence]. }
  rewrite Hr0, bd_eqb_refl. cbv beta iota zeta.
  pose proof (readRawBlocks_loop_frames magicBytes_ CB Hmagic f stopBefore cb
                Hcb Hstop Hmax frames
                [] (S (Z.to_nat (filesize f))) c [] Hframes Hsize) as Hloop.
  cbn zeta in Hloop. cbn [app length] in Hloop.
  change (Z.of_nat 0) with 0 in Hloop.
  destruct Hloop as [Ht Hr].
  { pose proof (framed_file_count magicBytes_ Hmagic frames Hframes). lia. }
  rewrite Hr. cbn [run_trace run_res]. rewrite Ht. now split.
Qed.
End RoundTrip.

Lemma readRawBlocks_reads_past_last_file_witness :
  0 <= fst (0, 0) < Z.of_nat (length (blkFiles_ files2))
  /\ Z.of_nat (length (blkFiles_ files2)) <= fst (2, 1)
  /\ 0 < snd (2, 1)
  /\ Z.of_nat (length (blkFiles_ files2)) < UINT64_MAX
  /\ run_res (readRawBlocks mainnet_magic unit fs2 files2 (0, 0) (2, 1)
                quiet tt) <> Ok (2, 0).
Proof.
  assert (H1 : 0 <= fst (0, 0) < Z.of_nat (length (blkFiles_ files2)))
    by (split; [discriminate|reflexivity]).
  assert (H2 : Z.of_nat (length (blkFiles_ files2)) <= fst (2, 1))
    by discriminate.
  assert (H3 : 0 < snd (2, 1)) by reflexivity.
  assert (H4 : Z.of_nat (length (blkFiles_ files2)) < UINT64_MAX)
    by reflexivity.
  split; [exact H1|]. split; [exact H2|]. split; [exact H3|].
  split; [exact H4|].
  exact (readRawBlocks_reads_past_last_file mainnet_magic unit fs2 files2
           (0, 0) (2, 1) quiet tt (2, 0) H1 H2 H3 H4).
Defined.

Lemma readRawBlocksFromFile_reads_every_block_witness :
  let r :=
    readRawBlocksFromFile mainnet_magic unit fs_frames blk_frames2 0 21
      quiet tt in
  Forall well_framed frames2
  /\ run_trace r
     = [blockDataCallback [x01; x02; x03] (0, 0) 3;
        blockDataCallback [x0a; x0b] (0, 11) 2;
        LOGINFO_finished 0 21]
  /\ run_res r = Ok 21.
Proof.
  intros r. split; [exact frames2_well_framed|].
  exact (readRawBlocksFromFile_reads_every_block mainnet_magic unit eq_refl
           fs_frames blk_frames2 21 quiet tt frames2 frames2_well_framed
           ltac:(discriminate) eq_refl eq_refl eq_refl
           ltac:(discriminate) (fun _ _ _ _ => eq_refl)).
Defined.

(** ** [readHeadersFromFile] *)

Lemma slice_length (buf : BinaryData) pos n :
  0 <= pos -> 0 <= n -> pos + n <= Z.of_nat (length buf) ->
  length (slice buf pos n) = Z.to_nat n.
Proof.
  intros Hp Hn Hle. unfold slice.
  destruct (Z.leb_spec (Z.of_nat (length buf)) pos).
  - simpl. lia.
  - rewrite length_firstn, length_skipn. lia.
Qed.

Lemma is_read_ok content pos (buf : BinaryData) n :
  0 <= pos -> 0 <= n -> pos + n <= Z.of_nat (length content) ->
  length buf = Z.to_nat n ->
  is_read (mkIstream content pos false false) buf n
  = (mkIstream content (pos + n) false false, slice content pos n, n).
Proof.
  intros Hp Hn Hle Hbuf. unfold is_read. cbn [is_good is_eofbit is_failbit
    negb andb is_content is_pos].
  replace (n <=? Z.max 0 (Z.of_nat (length content) - pos)) with true
    by (symmetry; apply Z.leb_le; lia).
  rewrite <- Hbuf, skipn_all, app_nil_r. reflexivity.
Qed.

Lemma is_read_at_end content (buf : BinaryData) n :
  0 < n ->
  exists buf',
    is_read (mkIstream content (Z.of_nat (length content)) false false) buf n
    = (mkIstream content (Z.of_nat (length content) + 0) true true, buf', 0).
Proof.
  intros Hn. unfold is_read. cbn [is_good is_eofbit is_failbit
    negb andb is_content is_pos].
  rewrite Z.sub_diag. change (Z.max 0 0) with 0.
  replace (n <=? 0) with false by (symmetry; apply Z.leb_gt; lia).
  eexists. reflexivity.
Qed.

Section HeaderRoundTrip.
Variable magicBytes_ : BinaryData.
Variable CB : Type.
Hypothesis Hmagic : length magicBytes_ = 4%nat.

Lemma HEAD_AND_NTX_SZ_eq : HEAD_AND_NTX_SZ = 90.
Proof. reflexivity. Qed.

Lemma readHeaders_loop_frames (f : BlkFile) (cb : Callback CB) :
  (forall c d p z, snd (cb c d p z) = None) ->
  forall frames pre fuel c tr (magic szstr rawHead : BinaryData),
    Forall header_framed frames ->
    Z.of_nat (length (pre ++ framed_file magicBytes_ frames)) < UINT64_MOD ->
    (length frames < fuel)%nat ->
    length magic = 4%nat -> length szstr = 4%nat ->
    length rawHead = 90%nat ->
    let content := pre ++ framed_file magicBytes_ frames in
    let r :=
      readHeaders_loop magicBytes_ CB fuel f cb
        (mkIstream content (Z.of_nat (length pre)) false false)
        magic szstr rawHead (Z.of_nat (length pre)) c tr in
    run_trace r = tr ++ header_events (fnum f) (Z.of_nat (length pre)) frames
    /\ run_res r = Ok (Z.of_nat (length content)).
Proof.
  intros Hcb.
  induction frames as [|fr frames IH];
    intros pre fuel c tr magic szstr rawHead Hall Hmax Hfuel Hm Hs Hh.
  - destruct fuel as [|fuel]; [lia|].
    unfold framed_file. simpl concat. rewrite app_nil_r. cbn zeta.
    cbn [readHeaders_loop is_eof is_eofbit].
    destruct (is_read_at_end pre magic 4 ltac:(lia)) as [buf' ->].
    cbn [is_eof is_eofbit run_trace run_res]. rewrite app_nil_r. now split.
  - destruct fuel as [|fuel]; [lia|].
    inversion Hall as [|? ? Hfr Hrest]; subst.
    destruct Hfr as (H4 & Hdec & Hlong & Hshort).
    rewrite HEAD_AND_NTX_SZ_eq in Hlong.
    assert (Hfile : framed_file magicBytes_ (fr :: frames)
                    = magicBytes_ ++ fst fr ++ snd fr
                      ++ framed_file magicBytes_ frames).
    { unfold framed_file, frame_bytes. simpl. now rewrite <- !app_assoc. }
    rewrite Hfile in *.
    set (L := Z.of_nat (length (snd fr))) in *.
    set (content := pre ++ magicBytes_ ++ fst fr ++ snd fr
                    ++ framed_file magicBytes_ frames) in *.
    set (p := Z.of_nat (length pre)) in *.
    assert (Hlen : Z.of_nat (length content)
                   = p + 8 + L
                     + Z.of_nat (length (framed_file magicBytes_ frames))).
    { unfold content, p, L. rewrite !length_app, Hmagic, H4. lia. }
    cbn zeta. cbn [readHeaders_loop is_eof is_eofbit].
    rewrite (is_read_ok content p magic 4) by lia.
    cbn [is_eof is_eofbit].
    assert (Hs1 : slice content p 4 = magicBytes_).
    { unfold content, p.
      replace 4 with (Z.of_nat (length magicBytes_)) by lia.
      apply slice_app_mid. destruct magicBytes_; [discriminate|congruence]. }
    rewrite Hs1, bd_eqb_refl.
    rewrite (is_read_ok content (p + 4) szstr 4) by lia.
    cbn [is_eof is_eofbit app].
    assert (Hs2 : slice content (p + 4) 4 = fst fr).
    { unfold content.
      replace (p + 4) with (Z.of_nat (length (pre ++ magicBytes_)))
        by (rewrite length_app; lia).
      replace 4 with (Z.of_nat (length (fst fr))) by lia.
      rewrite (app_assoc pre).
      apply slice_app_mid. destruct (fst fr); [discriminate|congruence]. }
    rewrite Hs2, Hdec. fold L.
    rewrite HEAD_AND_NTX_SZ_eq.
    rewrite (is_read_ok content (p + 4 + 4) rawHead 90) by lia.
    assert (Hs3 : slice content (p + 4 + 4) 90
                  = firstn (Z.to_nat 90) (snd fr)).
    { set (h := firstn (Z.to_nat 90) (snd fr)).
      set (t := skipn (Z.to_nat 90) (snd fr)).
      assert (Hh90 : length h = 90%nat)
        by (unfold h; rewrite length_firstn; lia).
      assert (Hne : h <> []) by (intros E; rewrite E in Hh90; discriminate).
      pose proof (slice_app_mid (pre ++ magicBytes_ ++ fst fr) h
                    (t ++ framed_file magicBytes_ frames) Hne) as Hx.
      rewrite Hh90 in Hx. change (Z.of_nat 90) with 90 in Hx.
      etransitivity; [|exact Hx]. f_equal.
      - unfold content. rewrite <- (firstn_skipn (Z.to_nat 90) (snd fr)) at 1.
        fold h t. now rewrite <- !app_assoc.
      - rewrite !length_app. lia. }
    rewrite Hs3.
    specialize (Hcb c (firstn (Z.to_nat 90) (snd fr)) (fnum f, p) L).
    destruct (cb c (firstn (Z.to_nat 90) (snd fr)) (fnum f, p) L) as [c' e].
    cbn [snd] in Hcb. subst e.
    unfold seekg_cur. cbn [is_failbit is_content is_pos].
    assert (Hw1 : wrap32 (L - 90) = L - 90)
      by (unfold wrap32; apply Z.mod_small; lia).
    assert (Hw2 : wrap32 (L + 8) = L + 8)
      by (unfold wrap32; apply Z.mod_small; lia).
    rewrite Hw1, Hw2, (wrap64_small (p + (L + 8))) by lia.
    specialize (IH (pre ++ magicBytes_ ++ fst fr ++ snd fr) fuel c'
                  (tr ++ [blockDataCallback (firstn (Z.to_nat 90) (snd fr))
                            (fnum f, p) L])
                  (slice content p 4 ++ []) (fst fr)
                  (firstn (Z.to_nat 90) (snd fr)) Hrest).
    replace ((pre ++ magicBytes_ ++ fst fr ++ snd fr)
             ++ framed_file magicBytes_ frames) with content in IH
      by (unfold content; now rewrite <- !app_assoc).
    replace (Z.of_nat (length (pre ++ magicBytes_ ++ fst fr ++ snd fr)))
      with (p + (L + 8)) in IH
      by (unfold p, L; rewrite !length_app; lia).
    replace (p + 4 + 4 + 90 + (L - 90)) with (p + (L + 8)) by lia.
    rewrite Hs1 in *.
    rewrite app_nil_r in IH.
    destruct IH as [IHt IHr];
      [lia|simpl in Hfuel; lia|exact Hmagic|exact H4
      |rewrite length_firstn; lia|].
    rewrite (app_nil_r tr).
    split; [|exact IHr].
    rewrite IHt, <- app_assoc. simpl.
    replace (p + (L + 8)) with (p + 8 + L) by lia.
    rewrite HEAD_AND_NTX_SZ_eq. reflexivity.
Qed.

(** X6. On a block file of the right network that holds whole blocks only,
    each long enough for a header and its transaction count,
    [readHeadersFromFile] from offset 0 hands the first [HEAD_AND_NTX_SZ]
    bytes of every block to the callback, in order, with the offset of the
    block's magic bytes and the block's size, and returns the size of the
    file. *)
Theorem readHeadersFromFile_reads_every_header (fuel : nat)
    (fs : FileSystem) (f : BlkFile) (cb : Callback CB) (c : CB)
    (frames : list Frame)
    (Hframes : Forall header_framed frames)
    (Hsome : frames <> [])
    (Hfile : fs (path f) = Some (framed_file magicBytes_ frames))
    (Hmax : Z.of_nat (length (framed_file magicBytes_ frames)) < UINT64_MOD)
    (Hfuel : (length frames < fuel)%nat)
    (Hcb : forall c d p z, snd (cb c d p z) = None) :
  let r := readHeadersFromFile magicBytes_ CB fuel fs f 0 cb c in
  run_trace r = header_events (fnum f) 0 frames
  /\ run_res r
     = Ok (Z.of_nat (length (framed_file magicBytes_ frames))).
Proof.
  cbn zeta. unfold readHeadersFromFile, ifstream. rewrite Hfile.
  destruct frames as [|fr frames']; [congruence|].
  set (frames := fr :: frames') in *.
  assert (Hfr : header_framed fr) by now inversion Hframes.
  destruct Hfr as (H4 & _ & Hlong & _). rewrite HEAD_AND_NTX_SZ_eq in Hlong.
  assert (Hstart : framed_file magicBytes_ frames
                   = [] ++ magicBytes_
                     ++ (fst fr ++ snd fr ++ framed_file magicBytes_ frames')).
  { unfold frames, framed_file, frame_bytes. simpl.
    now rewrite <- !app_assoc. }
  assert (Hbig : 4 <= Z.of_nat (length (framed_file magicBytes_ frames))).
  { rewrite Hstart, !length_app, Hmagic. simpl. lia. }
  rewrite (is_read_ok _ 0 (repeat x00 4) 4) by (try reflexivity; lia).
  assert (Hs0 : slice (framed_file magicBytes_ frames) 0 4 = magicBytes_).
  { rewrite Hstart.
    replace 4 with (Z.of_nat (length magicBytes_)) by lia.
    apply (slice_app_mid [] magicBytes_).
    destruct magicBytes_; [discriminate|congruence]. }
  rewrite Hs0, bd_eqb_refl. cbn [negb].
  unfold seekg_beg. cbn [is_failbit is_content].
  pose proof (readHeaders_loop_frames f cb Hcb frames [] fuel c []
                (repeat x00 4) (repeat x00 4)
                (repeat x00 (Z.to_nat HEAD_AND_NTX_SZ)) Hframes Hmax Hfuel
                eq_refl eq_refl eq_refl) as Hloop.
  exact Hloop.
Qed.
End HeaderRoundTrip.

Lemma frames90_header_framed : Forall header_framed frames90.
Proof.
  constructor; [|constructor; [|constructor]];
    (split; [reflexivity|split; [reflexivity
                                |split; [discriminate|reflexivity]]]).
Defined.

Lemma readHeadersFromFile_reads_every_header_witness :
  let r :=
    readHeadersFromFile mainnet_magic unit 3 fs_frames blk_frames90 0
      quiet tt in
  Forall header_framed frames90
  /\ run_trace r
     = [blockDataCallback (repeat x07 90) (1, 0) 90;
        blockDataCallback (repeat x08 90) (1, 98) 100]
  /\ run_res r = Ok 206.
Proof.
  intros r. split; [exact frames90_header_framed|].
  exact (readHeadersFromFile_reads_every_header mainnet_magic unit eq_refl 3
           fs_frames blk_frames90 quiet tt frames90 frames90_header_framed
           ltac:(discriminate) eq_refl eq_refl ltac:(simpl; lia)
           (fun _ _ _ _ => eq_refl)).
Defined.

(** ** [scanFor] (stream version) *)

Lemma nth_error_lookup {A} (l : list A) (i : nat) : nth_error l i = l !! i.
Proof.
  revert i. induction l as [|a l IH]; intros [|i]; simpl; auto.
Qed.

Lemma occurs_at_lookup (mem pat : BinaryData) (j : nat) :
  (j + length pat <= length mem)%nat ->
  occurs_at mem pat j
  <-> forall i : nat, (i < length pat)%nat -> mem !! (j + i)%nat = pat !! i.
Proof.
  intros Hr. unfold occurs_at. split.
  - intros Heq i Hi.
    transitivity (take (length pat) (drop j mem) !! i); [|now rewrite Heq].
    now rewrite lookup_take_lt, lookup_drop by lia.
  - intros Hall. apply list_eq. intros i.
    destruct (Nat.lt_ge_cases i (length pat)) as [Hi|Hi].
    + now rewrite lookup_take_lt, lookup_drop, Hall by lia.
    + rewrite lookup_take_ge by lia. symmetry. now apply lookup_ge_None.
Qed.

Lemma occurs_at_in_range (mem pat : BinaryData) (j : nat) :
  (0 < length pat)%nat -> occurs_at mem pat j ->
  (j + length pat <= length mem)%nat.
Proof.
  intros Hpos Hocc. unfold occurs_at in Hocc.
  apply (f_equal (@length byte)) in Hocc.
  rewrite length_firstn, length_skipn in Hocc. lia.
Qed.

Section StreamScan.
Variable content bytes : BinaryData.
Variable q : nat.
Hypothesis Hlen : (0 < length bytes)%nat.
Hypothesis Hmax : Z.of_nat (length content) < UINT32_MOD.

Let len := length bytes.
Let mem := skipn q content.

Lemma ring_index (i k : nat) :
  Z.to_nat ((Z.of_nat i + Z.of_nat k) mod Z.of_nat len) = ((i + k) mod len)%nat.
Proof.
  rewrite <- Nat2Z.inj_add, <- Nat2Z.inj_mod. apply Nat2Z.id.
Qed.

Lemma ring_matches_occurs (k : nat) (ahead : BinaryData) :
  ring_holds mem len k ahead ->
  (k + len <= length mem)%nat ->
  ring_matches ahead bytes (Z.of_nat k) = true <-> occurs_at mem bytes k.
Proof.
  intros [Hl Hring] Hr. rewrite occurs_at_lookup by exact Hr.
  unfold ring_matches. rewrite forallb_forall. fold len. split.
  - intros Hall i Hi.
    specialize (Hall i ltac:(apply in_seq; fold len; lia)).
    rewrite ring_index, !nth_error_lookup, Hring in Hall by exact Hi.
    destruct (mem !! (k + i)%nat) as [a|]; [|discriminate].
    destruct (bytes !! i) as [b|]; [|discriminate].
    apply Byte.byte_dec_bl in Hall. now subst.
  - intros Hall i Hi. apply in_seq in Hi.
    rewrite ring_index, !nth_error_lookup, Hring by (fold len in Hi; lia).
    rewrite Hall by (fold len in Hi; lia).
    destruct (bytes !! i) as [b|] eqn:Eb.
    + now apply Byte.byte_dec_lb.
    + apply lookup_ge_None in Eb. fold len in Hi. lia.
Qed.

Lemma ring_holds_next (k : nat) (ahead : BinaryData) c :
  ring_holds mem len k ahead ->
  mem !! (k + len)%nat = Some c ->
  ring_holds mem len (S k) (<[(k mod len)%nat := c]> ahead).
Proof.
  intros [Hl Hring] Hc. split; [now rewrite length_insert|].
  intros i Hi.
  assert (Hk : (k mod len < len)%nat) by (apply Nat.mod_upper_bound; lia).
  destruct (Nat.eq_dec i (len - 1)%nat) as [->|Hne].
  - replace ((len - 1 + S k) mod len)%nat with (k mod len)%nat.
    + rewrite list_lookup_insert_eq by lia.
      replace (S k + (len - 1))%nat with (k + len)%nat by lia. now symmetry.
    + replace (len - 1 + S k)%nat with (k + 1 * len)%nat by lia.
      now rewrite Nat.Div0.mod_add.
  - rewrite list_lookup_insert_ne.
    + replace (i + S k)%nat with (S i + k)%nat by lia.
      rewrite Hring by lia. f_equal. lia.
    + intros Heq.
      pose proof (Nat.div_mod_eq (i + S k) len) as E1.
      pose proof (Nat.div_mod_eq k len) as E2.
      rewrite <- Heq in E1.
      assert (E3 : (S i = len * ((i + S k) / len) - len * (k / len))%nat)
        by lia.
      rewrite <- Nat.mul_sub_distr_l in E3.
      destruct ((i + S k) / len - k / len)%nat as [|[|d]]; nia.
Qed.

Lemma mem_lookup (i : nat) : mem !! i = content !! (q + i)%nat.
Proof. unfold mem. apply lookup_drop. Qed.

Lemma mem_length : length mem = (length content - q)%nat.
Proof. unfold mem. apply length_skipn. Qed.

(** The loop of the stream [scanFor] after [k] turns without a match. *)
Lemma scanFor_is_loop_spec fuel : forall (k : nat) (ahead : BinaryData),
  ring_holds mem len k ahead ->
  (k + len <= length mem)%nat ->
  (length mem - (k + len) < fuel)%nat ->
  (forall j : nat, (j < k)%nat -> ~ occurs_at mem bytes j) ->
  exists i' b,
    scanFor_is_loop fuel
      (mkIstream content (Z.of_nat (q + k + len)) false false) ahead bytes
      (Z.of_nat k) = (i', Ok b)
    /\ (b = true
        /\ (exists j : nat,
              occurs_at mem bytes j
              /\ (forall j' : nat, (j' < j)%nat -> ~ occurs_at mem bytes j')
              /\ i' = mkIstream content (Z.of_nat (q + j + len)) false false)
        \/ b = false
           /\ (forall j : nat, ~ occurs_at mem bytes j)
           /\ is_eof i' = true).
Proof.
  induction fuel as [|fuel IH]; intros k ahead Hring Hr Hfuel Hnone; [lia|].
  cbn [scanFor_is_loop].
  pose proof (ring_matches_occurs k ahead Hring Hr) as Hiff.
  destruct (ring_matches ahead bytes (Z.of_nat k)) eqn:Em.
  - exists (mkIstream content (Z.of_nat (q + k + len)) false false), true.
    split; [reflexivity|]. left. split; [reflexivity|].
    exists k. split; [now apply Hiff|]. split; [exact Hnone|reflexivity].
  - assert (Hnk : ~ occurs_at mem bytes k).
    { intros Hocc. apply Hiff in Hocc. discriminate. }
    assert (Hnone' : forall j : nat, (j < S k)%nat -> ~ occurs_at mem bytes j).
    { intros j Hj. destruct (Nat.eq_dec j k) as [->|]; [exact Hnk|].
      apply Hnone. lia. }
    pose proof mem_length as Hml.
    unfold is_get. cbn [is_good is_eofbit is_failbit negb andb is_pos
                         is_content].
    destruct (Z.ltb_spec (Z.of_nat (q + k + len)) (Z.of_nat (length content)))
      as [Hlt|Hge].
    + rewrite Nat2Z.id, nth_error_lookup.
      destruct (content !! (q + k + len)%nat) as [c|] eqn:Ec.
      2:{ apply lookup_ge_None in Ec. lia. }
      cbv beta iota zeta. cbn [is_eof is_eofbit].
      assert (Hw : wrap32 (Z.of_nat k + 1) = Z.of_nat (S k)).
      { unfold wrap32. rewrite Z.mod_small; lia. }
      rewrite Hw.
      replace (Z.to_nat (Z.of_nat k mod Z.of_nat (length bytes)))
        with (k mod len)%nat
        by (fold len; rewrite <- Nat2Z.inj_mod; now rewrite Nat2Z.id).
      replace (Z.of_nat (q + k + len) + 1)
        with (Z.of_nat (q + S k + len)) by lia.
      apply IH.
      * apply ring_holds_next; [exact Hring|].
        rewrite mem_lookup. now replace (q + (k + len))%nat
                               with (q + k + len)%nat by lia.
      * lia.
      * lia.
      * exact Hnone'.
    + cbv beta iota zeta. cbn [is_eof is_eofbit].
      eexists _, false. split; [reflexivity|]. right.
      split; [reflexivity|]. split; [|reflexivity].
      intros j Hocc.
      destruct (Nat.lt_ge_cases j (S k)) as [Hj|Hj];
        [now apply (Hnone' j)|].
      apply occurs_at_in_range in Hocc; [|exact Hlen]. fold len in Hocc. lia.
Qed.

(** X30. The stream [scanFor] on a stream in good state: it answers [true]
    exactly when the bytes occur in what the stream has left, and then the
    stream stands right behind their first occurrence; when it answers
    [false] the stream is at its end. *)
Theorem scanFor_is_finds_first :
  exists i' b,
    scanFor_is (mkIstream content (Z.of_nat q) false false) bytes
    = (i', Ok b)
    /\ (b = true
        /\ (exists j : nat,
              occurs_at (skipn q content) bytes j
              /\ (forall j' : nat,
                    (j' < j)%nat -> ~ occurs_at (skipn q content) bytes j')
              /\ i' = mkIstream content
                        (Z.of_nat (q + j + length bytes)) false false)
        \/ b = false
           /\ (forall j : nat, ~ occurs_at (skipn q content) bytes j)
           /\ is_eof i' = true).
Proof.
  fold mem len. pose proof mem_length as Hml.
  unfold scanFor_is, is_read.
  cbn [is_good is_eofbit is_failbit negb andb is_pos is_content].
  fold len.
  destruct (Z.leb_spec (Z.of_nat len)
              (Z.max 0 (Z.of_nat (length content) - Z.of_nat q)))
    as [Hfit|Hshort].
  - replace (Z.of_nat len <? Z.of_nat len) with false
      by (symmetry; apply Z.ltb_irrefl).
    rewrite Nat2Z.id, (drop_ge (repeat x00 len))
      by (rewrite repeat_length; lia).
    rewrite app_nil_r.
    replace (Z.of_nat q + Z.of_nat len) with (Z.of_nat (q + 0 + len)) by lia.
    apply (scanFor_is_loop_spec (S (length content)) 0).
    + split.
      * rewrite slice_length by lia. apply Nat2Z.id.
      * intros i Hi. rewrite Nat.add_0_r, Nat.mod_small by exact Hi.
        rewrite mem_lookup. unfold slice.
        replace (_ <=? _) with false by (symmetry; apply Z.leb_gt; lia).
        rewrite lookup_take_lt, lookup_drop by lia.
        f_equal. lia.
    + lia.
    + lia.
    + intros j Hj. lia.
  - replace (Z.max 0 (Z.of_nat (length content) - Z.of_nat q) <? Z.of_nat len)
      with true by (symmetry; apply Z.ltb_lt; lia).
    eexists _, false. split; [reflexivity|]. right.
    split; [reflexivity|]. split; [|reflexivity].
    intros j Hocc.
    apply occurs_at_in_range in Hocc; [|exact Hlen]. fold len in Hocc. lia.
Qed.
End StreamScan.

Lemma scanFor_is_finds_first_witness :
  (0 < length mainnet_magic)%nat
  /\ Z.of_nat (length [x00; xf9; xbe; xb4; xd9]) < UINT32_MOD
  /\ exists i' b,
       scanFor_is (mkIstream [x00; xf9; xbe; xb4; xd9] (Z.of_nat 0) false false)
         mainnet_magic = (i', Ok b)
       /\ (b = true
           /\ (exists j : nat,
                 occurs_at (skipn 0 [x00; xf9; xbe; xb4; xd9]) mainnet_magic j
                 /\ (forall j' : nat,
                       (j' < j)%nat ->
                       ~ occurs_at (skipn 0 [x00; xf9; xbe; xb4; xd9])
                           mainnet_magic j')
                 /\ i' = mkIstream [x00; xf9; xbe; xb4; xd9]
                           (Z.of_nat (0 + j + length mainnet_magic))
                           false false)
           \/ b = false
              /\ (forall j : nat,
                    ~ occurs_at (skipn 0 [x00; xf9; xbe; xb4; xd9])
                        mainnet_magic j)
              /\ is_eof i' = true).
Proof.
  assert (Hl : (0 < length mainnet_magic)%nat) by (simpl; lia).
  assert (Hm : Z.of_nat (length [x00; xf9; xbe; xb4; xd9]) < UINT32_MOD)
    by reflexivity.
  split; [exact Hl|]. split; [exact Hm|].
  exact (scanFor_is_finds_first [x00; xf9; xbe; xb4; xd9] mainnet_magic 0
           Hl Hm).
Defined.

(** ** [BlockData::deserialize] *)

Section DeserializeLaws.
Context `{TxReader}.

Lemma rbind_Ok {A B} (r : result A) (k : A -> result B) b :
  rbind r k = Ok b -> exists a, r = Ok a /\ k a = Ok b.
Proof. destruct r as [a| | |]; try discriminate. intros Hk. now exists a. Qed.

Lemma deserialize_txns_length n data : forall pos txns parsed,
  deserialize_txns n data pos txns = Ok parsed ->
  length parsed = (length txns + n)%nat.
Proof.
  induction n as [|n IH]; intros pos txns parsed; simpl.
  - intros [= <-]. lia.
  - intros Hok.
    apply rbind_Ok in Hok as ([[txSize offsetIns] offsetOuts] & _ & Hok).
    apply rbind_Ok in Hok as (txins & _ & Hok).
    apply rbind_Ok in Hok as (txouts & _ & Hok).
    apply rbind_Ok in Hok as (lockAt & _ & Hok).
    apply rbind_Ok in Hok as (moved & _ & Hok).
    apply IH in Hok. rewrite length_app in Hok. simpl in Hok. lia.
Qed.

(** X8. [deserialize] accepts a block only when the data has at least the
    80 bytes of a header, these hash to the hash of the expected header, and
    the transaction count that follows is the count of the expected header;
    it then holds that header and as many transactions. *)
Theorem deserialize_accepts (data : BinaryData) (blockHeader hdr : BlockHeader)
    (txns : list ParsedTx)
    (Hok : deserialize data blockHeader = Ok (hdr, txns)) :
  hdr = blockHeader
  /\ HEADER_SIZE <= Z.of_nat (length data)
  /\ getHash256 (slice data 0 HEADER_SIZE) = getThisHash blockHeader
  /\ Z.of_nat (length txns) = getNumTx blockHeader
  /\ exists v used,
       brr_get_var_int (skipn (Z.to_nat HEADER_SIZE) data) = Ok (v, used)
       /\ wrap32 v = getNumTx blockHeader.
Proof.
  unfold deserialize in Hok.
  destruct (Z.ltb_spec (Z.of_nat (length data)) HEADER_SIZE) as [|Hsize];
    [discriminate|].
  destruct (bd_eqb _ _) eqn:Hhash; [|discriminate]. cbn [negb] in Hok.
  apply bool_decide_eq_true_1 in Hhash.
  apply rbind_Ok in Hok as ([v used] & Hvar & Hok).
  destruct (Z.eqb_spec (wrap32 v) (getNumTx blockHeader)) as [Hnum|];
    [|discriminate].
  cbn [negb] in Hok.
  apply rbind_Ok in Hok as (parsed & Htx & Hok).
  injection Hok as <- <-.
  apply deserialize_txns_length in Htx. simpl in Htx.
  split; [reflexivity|]. split; [exact Hsize|]. split; [exact Hhash|].
  split.
  - rewrite Htx, <- Hnum. apply Z2Nat.id.
    unfold wrap32. apply Z.mod_pos_bound. reflexivity.
  - now exists v, used.
Qed.
End DeserializeLaws.

Lemma deserialize_accepts_witness :
  let R := toy_reader in
  let txns :=
    match deserialize toy_block toy_header with
    | Ok (_, parsed) => parsed
    | _ => []
    end in
  deserialize toy_block toy_header = Ok (toy_header, txns)
  /\ HEADER_SIZE <= Z.of_nat (length toy_block)
  /\ getHash256 (slice toy_block 0 HEADER_SIZE) = getThisHash toy_header
  /\ Z.of_nat (length txns) = getNumTx toy_header.
Proof.
  intros R txns.
  assert (Hok : deserialize toy_block toy_header = Ok (toy_header, txns))
    by (vm_compute; reflexivity).
  split; [exact Hok|].
  destruct (deserialize_accepts toy_block toy_header toy_header txns Hok)
    as (_ & Hsize & Hhash & Hcount & _).
  split; [exact Hsize|]. split; [exact Hhash|exact Hcount].
Defined.

(** ** [readBlockData] and what reaches the passes *)

Section ScanLaws.
Context `{ScrAddrFilter} `{BtcUtils} `{OffsetReader} `{BlockDataLoader}.
Variable cfg : Config.
Hypothesis Hthreads : 0 <= totalThreadCount_ cfg.
Hypothesis Hheights :
  Z.of_nat (length (headersByHeight (blockchain_ cfg)))
  + totalThreadCount_ cfg <= UINT32_MOD.

Lemma getHeaderByHeight_Ok height hdr :
  getHeaderByHeight (blockchain_ cfg) height = Ok hdr ->
  0 <= height < Z.of_nat (length (headersByHeight (blockchain_ cfg))).
Proof.
  unfold getHeaderByHeight.
  destruct (height <? 0) eqn:Hneg; [discriminate|].
  destruct (nth_error _ _) eqn:Hnth; [|discriminate].
  intros _. apply Z.ltb_ge in Hneg.
  assert (Hlt : (Z.to_nat height < length (headersByHeight (blockchain_ cfg)))%nat).
  { apply nth_error_Some. congruence. }
  lia.
Qed.

(** Once entered, the loop of [readBlockData] is not left normally. *)
Lemma readBlockData_loop_entered fuel : forall batch_end currentBlock posted,
  batch_end <= currentBlock ->
  snd (readBlockData_loop cfg fuel batch_end currentBlock posted) <> Ok tt.
Proof.
  induction fuel as [|fuel IH]; intros e cur posted Hge; simpl;
    replace (cur >=? e) with true by (symmetry; apply Z.geb_le; lia).
  - discriminate.
  - destruct (getHeaderByHeight (blockchain_ cfg) cur) as [hdr| | |] eqn:Eh;
      try (cbn; discriminate).
    apply getHeaderByHeight_Ok in Eh.
    destruct (loadBlock hdr) as [blk| | |]; try (cbn; discriminate).
    apply IH. unfold wrap32. rewrite Z.mod_small; lia.
Qed.

(** X9. [readBlockData] returns normally exactly when the batch starts
    below its end, and then it has posted no block. *)
Theorem readBlockData_returns_iff (batch : BlockDataBatch) :
  (snd (readBlockData cfg batch) = Ok tt <-> start_ batch < end_ batch)
  /\ (snd (readBlockData cfg batch) = Ok tt ->
      fst (readBlockData cfg batch) = []).
Proof.
  assert (Hiff : snd (readBlockData cfg batch) = Ok tt
                 <-> start_ batch < end_ batch).
  { split.
    - intros Hok. destruct (Z.lt_ge_cases (start_ batch) (end_ batch)) as [|Hge];
        [assumption|].
      exfalso. revert Hok. now apply readBlockData_loop_entered.
    - intros Hlt. now rewrite readBlockData_skips_range. }
  split; [exact Hiff|].
  intros Hok. apply Hiff in Hok. now rewrite readBlockData_skips_range.
Qed.

End ScanLaws.

Lemma cfg6_heights :
  Z.of_nat (length (headersByHeight (blockchain_ cfg6)))
  + totalThreadCount_ cfg6 <= UINT32_MOD.
Proof. discriminate. Defined.

Lemma one_thread : 0 <= 1.
Proof. discriminate. Defined.

Lemma readBlockData_returns_iff_witness :
  let L := loader blocks6 in
  0 <= totalThreadCount_ cfg6
  /\ Z.of_nat (length (headersByHeight (blockchain_ cfg6)))
     + totalThreadCount_ cfg6 <= UINT32_MOD
  /\ (snd (readBlockData cfg6 (new_batch 0 5)) = Ok tt
      <-> start_ (new_batch 0 5) < end_ (new_batch 0 5))
  /\ (snd (readBlockData cfg6 (new_batch 0 5)) = Ok tt ->
      fst (readBlockData cfg6 (new_batch 0 5)) = []).
Proof.
  intros L. split; [exact one_thread|]. split; [exact cfg6_heights|].
  exact (readBlockData_returns_iff cfg6 one_thread cfg6_heights
           (new_batch 0 5)).
Defined.

(** ** [scanBlockData]: the output pass *)

Section PassLaws.
Context `{ScrAddrFilter} `{BtcUtils} `{OffsetReader}.

Lemma for_indexed_inv_at {A St : Type} (P : St -> Prop)
    (body : Z -> A -> St -> St) : forall l idx s,
  (forall (j : nat) a s,
     l !! j = Some a -> P s -> P (body (idx + Z.of_nat j) a s)) ->
  P s -> P (for_indexed body idx l s).
Proof.
  induction l as [|a l IH]; intros idx s Hbody Hs; simpl; [exact Hs|].
  apply IH.
  - intros j a' s' Hj Hs'.
    replace (idx + 1 + Z.of_nat j) with (idx + Z.of_nat (S j)) by lia.
    now apply Hbody.
  - replace idx with (idx + Z.of_nat 0) at 1 by (simpl; lia).
    now apply Hbody.
Qed.

(** A state property that step [j] brings about and that no step undoes
    holds after the loop. *)
Lemma for_indexed_reaches {A St : Type} (Q : St -> Prop)
    (body : Z -> A -> St -> St) : forall l idx s (j : nat) a,
  l !! j = Some a ->
  (forall s, Q (body (idx + Z.of_nat j) a s)) ->
  (forall idx' a' s, Q s -> Q (body idx' a' s)) ->
  Q (for_indexed body idx l s).
Proof.
  induction l as [|a0 l IH]; intros idx s j a Hj Hat Hkeep; [discriminate|].
  destruct j as [|j]; simpl in Hj.
  - injection Hj as ->. simpl.
    apply (for_indexed_inv Q body Hkeep).
    replace idx with (idx + Z.of_nat 0) by (simpl; lia). apply Hat.
  - simpl. apply (IH (idx + 1) _ j a Hj); [|exact Hkeep].
    intros s'. replace (idx + 1 + Z.of_nat j) with (idx + Z.of_nat (S j)) by lia.
    apply Hat.
Qed.

Lemma fold_left_reaches {A B : Type} (Q : A -> Prop) (g : A -> B -> A) :
  forall l a b,
  b ∈ l ->
  (forall a, Q (g a b)) ->
  (forall a b', Q a -> Q (g a b')) ->
  Q (fold_left g l a).
Proof.
  induction l as [|b0 l IH]; intros a b Hb Hat Hkeep.
  - now apply elem_of_nil in Hb.
  - simpl. apply elem_of_cons in Hb as [->|Hb].
    + apply fold_left_inv; [exact Hkeep|apply Hat].
    + now apply (IH _ b).
Qed.

(** *** One output *)

(** What [txout_step] does to the entries: a watched output takes the place
    under (hash of its transaction, index of its transaction) when that
    place is free, and nothing else changes. *)
Lemma txout_step_lookup2 hdr i txn y txout batch h k :
  lookup2 (utxos_ (txout_step hdr i txn y txout batch)) h k =
    if hasScrAddress (txout_scrAddr (fst txout))
       && bool_decide (h = txHash_ txn /\ k = i)
    then Some (default (stxo_of hdr i txn y txout)
                 (lookup2 (utxos_ batch) h k))
    else lookup2 (utxos_ batch) h k.
Proof.
  unfold txout_step.
  destruct (hasScrAddress (txout_scrAddr (fst txout))) eqn:Hw;
    cbn [negb andb]; [|reflexivity].
  cbn [utxos_]. unfold lookup2 at 1.
  destruct (decide (h = txHash_ txn)) as [->|Hh].
  - rewrite lookup_insert_eq. unfold map_insert, map_at, lookup2.
    destruct (utxos_ batch !! txHash_ txn) as [old|] eqn:Eold;
      cbn [default from_option id].
    + destruct (decide (k = i)) as [->|Hk].
      * rewrite bool_decide_eq_true_2 by (split; reflexivity).
        destruct (old !! i) as [x|] eqn:Ei.
        -- rewrite Ei. reflexivity.
        -- rewrite lookup_insert_eq. reflexivity.
      * rewrite bool_decide_eq_false_2 by (intros [_ ?]; contradiction).
        destruct (old !! i) as [x|] eqn:Ei; [reflexivity|].
        rewrite lookup_insert_ne by congruence. reflexivity.
    + rewrite lookup_empty.
      destruct (decide (k = i)) as [->|Hk].
      * rewrite bool_decide_eq_true_2 by (split; reflexivity).
        rewrite lookup_insert_eq. reflexivity.
      * rewrite bool_decide_eq_false_2 by (intros [_ ?]; contradiction).
        rewrite lookup_insert_ne, lookup_empty by congruence. reflexivity.
  - rewrite lookup_insert_ne by congruence.
    rewrite bool_decide_eq_false_2 by (intros [? _]; contradiction).
    reflexivity.
Qed.

Lemma txout_step_keeps hdr i txn y txout batch h k stxo :
  lookup2 (utxos_ batch) h k = Some stxo ->
  lookup2 (utxos_ (txout_step hdr i txn y txout batch)) h k = Some stxo.
Proof.
  intros Hl. rewrite txout_step_lookup2, Hl.
  now destruct (_ && _).
Qed.

Lemma txoutParser_keeps blk batch h k stxo :
  lookup2 (utxos_ batch) h k = Some stxo ->
  lookup2 (utxos_ (txoutParser blk batch)) h k = Some stxo.
Proof.
  intros Hl. unfold txoutParser.
  apply (for_indexed_inv (fun b => lookup2 (utxos_ b) h k = Some stxo));
    [|exact Hl].
  intros i txn b Hb.
  apply (for_indexed_inv (fun b => lookup2 (utxos_ b) h k = Some stxo));
    [|exact Hb].
  intros y txout b' Hb'. now apply txout_step_keeps.
Qed.

(** X12. The output pass never removes or replaces an entry of the unspent
    outputs of the batch. *)
Theorem output_pass_keeps_entries (links : list BlockData)
    (batch : BlockDataBatch) (h : BinaryData) (k : Z) (stxo : StoredTxOut)
    (Hentry : lookup2 (utxos_ batch) h k = Some stxo) :
  lookup2 (utxos_ (scanBlockData_txouts links batch)) h k = Some stxo.
Proof.
  unfold scanBlockData_txouts, blockDataLoop.
  apply (fold_left_inv (fun b => lookup2 (utxos_ b) h k = Some stxo));
    [|exact Hentry].
  intros b blk Hb. now apply txoutParser_keeps.
Qed.

(** X10. Every entry the output pass leaves was there before or is the record
    of a watched output of the blocks, under the hash and the index of its
    transaction. *)
Theorem output_pass_sound (links : list BlockData) (batch : BlockDataBatch)
    (h : BinaryData) (k : Z) (stxo : StoredTxOut)
    (Hentry : lookup2 (utxos_ (scanBlockData_txouts links batch)) h k
              = Some stxo) :
  lookup2 (utxos_ batch) h k = Some stxo \/ recorded_from links h k stxo.
Proof.
  revert Hentry. unfold scanBlockData_txouts, blockDataLoop.
  assert (Hgen : forall done todo b,
             (forall stxo,
                lookup2 (utxos_ b) h k = Some stxo ->
                lookup2 (utxos_ batch) h k = Some stxo
                \/ recorded_from done h k stxo) ->
             forall stxo,
               lookup2 (utxos_ (fold_left (fun b blk => txoutParser blk b)
                                  todo b)) h k = Some stxo ->
               lookup2 (utxos_ batch) h k = Some stxo
               \/ recorded_from (done ++ todo) h k stxo).
  { intros done todo. revert done.
    induction todo as [|blk todo IH]; intros done b Hb stxo' Hl.
    - rewrite app_nil_r. now apply Hb.
    - simpl in Hl.
      replace (done ++ blk :: todo) with ((done ++ [blk]) ++ todo)
        by (rewrite <- app_assoc; reflexivity).
      apply (IH (done ++ [blk]) (txoutParser blk b)); [|exact Hl].
      clear Hl stxo'. unfold txoutParser.
      apply (for_indexed_inv_at
               (fun b' => forall stxo,
                  lookup2 (utxos_ b') h k = Some stxo ->
                  lookup2 (utxos_ batch) h k = Some stxo
                  \/ recorded_from (done ++ [blk]) h k stxo)).
      + intros i txn b1 Hi Hb1.
        apply (for_indexed_inv_at
                 (fun b' => forall stxo,
                    lookup2 (utxos_ b') h k = Some stxo ->
                    lookup2 (utxos_ batch) h k = Some stxo
                    \/ recorded_from (done ++ [blk]) h k stxo));
          [|exact Hb1].
        intros y txout b2 Hy Hb2 stxo'.
        rewrite txout_step_lookup2.
        destruct (hasScrAddress (txout_scrAddr (fst txout))) eqn:Hw;
          cbn [andb]; [|apply Hb2].
        destruct (bool_decide (h = txHash_ txn /\ k = 0 + Z.of_nat i)) eqn:Hd;
          [|apply Hb2].
        apply bool_decide_eq_true_1 in Hd as [-> ->].
        destruct (lookup2 (utxos_ b2) (txHash_ txn) (0 + Z.of_nat i))
          as [old|] eqn:Eold; cbn [default from_option id].
        * intros [= <-]. now apply Hb2.
        * intros [= <-]. right.
          exists blk, txn, y, txout.
          split; [apply elem_of_app; right; apply list_elem_of_singleton;
                  reflexivity|].
          split; [lia|].
          split; [now rewrite Z.add_0_l, Nat2Z.id|].
          split; [exact Hy|]. split; [reflexivity|].
          split; [exact Hw|reflexivity].
      + cbn [utxos_]. intros stxo' Hl.
        destruct (Hb stxo' Hl) as [?|(b' & txn & y & txout & Hin & Hrest)];
          [now left|right].
        exists b', txn, y, txout. split; [|exact Hrest].
        apply elem_of_app. now left. }
  intros Hl.
  apply (Hgen [] links batch (fun s Hs => or_introl Hs) stxo Hl).
Qed.

(** X11. A transaction with a watched output has an entry under its hash and
    its index after the output pass. *)
Theorem output_pass_complete (links : list BlockData) (batch : BlockDataBatch)
    (blk : BlockData) (i : nat) (txn : BCTX) (y : nat) (txout : Z * Z)
    (Hblk : blk ∈ links)
    (Htx : txns_ blk !! i = Some txn)
    (Hout : txouts_ txn !! y = Some txout)
    (Hwatched : hasScrAddress (txout_scrAddr (fst txout)) = true) :
  is_Some (lookup2 (utxos_ (scanBlockData_txouts links batch))
             (txHash_ txn) (Z.of_nat i)).
Proof.
  set (Q := fun b : BlockDataBatch =>
              is_Some (lookup2 (utxos_ b) (txHash_ txn) (Z.of_nat i))).
  assert (Hstep : forall hdr i' txn' y' txout' b,
             Q b -> Q (txout_step hdr i' txn' y' txout' b)).
  { intros hdr i' txn' y' txout' b [s Hs]. exists s.
    now apply txout_step_keeps. }
  assert (Hparser : forall blk' b, Q b -> Q (txoutParser blk' b)).
  { intros blk' b [s Hs]. exists s. now apply txoutParser_keeps. }
  unfold scanBlockData_txouts, blockDataLoop.
  apply (fold_left_reaches Q _ links batch blk Hblk); [|auto].
  intros b. unfold txoutParser.
  apply (for_indexed_reaches Q _ (txns_ blk) 0 _ i txn Htx).
  - intros b1.
    apply (for_indexed_reaches Q _ (txouts_ txn) 0 _ y txout Hout).
    + intros b2. unfold Q. rewrite txout_step_lookup2, Hwatched.
      rewrite bool_decide_eq_true_2 by (split; [reflexivity|lia]).
      cbn [andb]. eexists. reflexivity.
    + intros y' txout' b2. apply Hstep.
  - intros i' txn' b1 Hb1.
    apply (for_indexed_inv Q); [|exact Hb1].
    intros y' txout' b2. apply Hstep.
Qed.

Lemma output_pass_bounds links batch :
  start_ (scanBlockData_txouts links batch) = start_ batch
  /\ end_ (scanBlockData_txouts links batch) = end_ batch.
Proof.
  unfold scanBlockData_txouts, blockDataLoop.
  apply (fold_left_inv
           (fun b => start_ b = start_ batch /\ end_ b = end_ batch));
    [|now split].
  intros b blk Hb. unfold txoutParser.
  apply (for_indexed_inv
           (fun b => start_ b = start_ batch /\ end_ b = end_ batch));
    [|exact Hb].
  intros i txn b1 Hb1.
  apply (for_indexed_inv
           (fun b => start_ b = start_ batch /\ end_ b = end_ batch));
    [|exact Hb1].
  intros y txout b2 Hb2. unfold txout_step. now destruct (negb _).
Qed.

(** X13. The output pass leaves the spent outputs and the bounds of the
    batch as they are. *)
Theorem output_pass_frame (links : list BlockData) (batch : BlockDataBatch) :
  spentTxOuts_ (scanBlockData_txouts links batch) = spentTxOuts_ batch
  /\ start_ (scanBlockData_txouts links batch) = start_ batch
  /\ end_ (scanBlockData_txouts links batch) = end_ batch.
Proof.
  destruct (output_pass_bounds links batch) as [Hs He].
  split; [|now split].
  unfold scanBlockData_txouts, blockDataLoop.
  apply (fold_left_inv (fun b => spentTxOuts_ b = spentTxOuts_ batch));
    [|reflexivity].
  intros b blk Hb. unfold txoutParser.
  apply (for_indexed_inv (fun b => spentTxOuts_ b = spentTxOuts_ batch));
    [|exact Hb].
  intros i txn b1 Hb1.
  apply (for_indexed_inv (fun b => spentTxOuts_ b = spentTxOuts_ batch));
    [|exact Hb1].
  intros y txout b2 Hb2. unfold txout_step. now destruct (negb _).
Qed.

(** X14. When no address is watched, the output pass records nothing: the
    unspent outputs and the history of the batch stay as they are. *)
Theorem output_pass_nothing_watched (links : list BlockData)
    (batch : BlockDataBatch)
    (Hnone : forall scrAddr, hasScrAddress scrAddr = false) :
  utxos_ (scanBlockData_txouts links batch) = utxos_ batch
  /\ ssh_ (scanBlockData_txouts links batch) = ssh_ batch.
Proof.
  set (P := fun b : BlockDataBatch =>
              utxos_ b = utxos_ batch /\ ssh_ b = ssh_ batch).
  unfold scanBlockData_txouts, blockDataLoop.
  apply (fold_left_inv P); [|now split].
  intros b blk Hb. unfold txoutParser.
  apply (for_indexed_inv P); [|exact Hb].
  intros i txn b1 Hb1.
  apply (for_indexed_inv P); [|exact Hb1].
  intros y txout b2 Hb2. unfold txout_step. now rewrite Hnone.
Qed.
End PassLaws.

Lemma output_pass_sound_witness :
  let F := watching [addrA] in
  let U := script_address in
  let R := scripts_by_offset in
  let stxo := stxo_of (hdr 0 0) 1 txT 0 (0, 11) in
  lookup2 (utxos_ (scanBlockData_txouts [blockA; blockB] (new_batch 0 1)))
    hashT 1 = Some stxo
  /\ (lookup2 (utxos_ (new_batch 0 1)) hashT 1 = Some stxo
      \/ recorded_from [blockA; blockB] hashT 1 stxo).
Proof.
  intros F U R stxo.
  assert (He : lookup2
                 (utxos_ (scanBlockData_txouts [blockA; blockB]
                            (new_batch 0 1))) hashT 1 = Some stxo)
    by (vm_compute; reflexivity).
  split; [exact He|].
  exact (output_pass_sound [blockA; blockB] (new_batch 0 1) hashT 1 stxo He).
Defined.

Lemma output_pass_complete_witness :
  let F := watching [addrA] in
  let U := script_address in
  let R := scripts_by_offset in
  blockA ∈ [blockA; blockB]
  /\ txns_ blockA !! 1%nat = Some txT
  /\ txouts_ txT !! 0%nat = Some (0, 11)
  /\ hasScrAddress (txout_scrAddr (fst (0, 11))) = true
  /\ is_Some (lookup2
                (utxos_ (scanBlockData_txouts [blockA; blockB]
                           (new_batch 0 1))) hashT 1).
Proof.
  intros F U R.
  assert (Hb : blockA ∈ [blockA; blockB]) by apply list_elem_of_here.
  assert (Hw : hasScrAddress (txout_scrAddr (fst (0, 11))) = true)
    by (vm_compute; reflexivity).
  split; [exact Hb|]. split; [reflexivity|]. split; [reflexivity|].
  split; [exact Hw|].
  exact (output_pass_complete [blockA; blockB] (new_batch 0 1) blockA 1 txT
           0 (0, 11) Hb eq_refl eq_refl Hw).
Defined.

Lemma output_pass_keeps_entries_witness :
  let F := watching [addrA] in
  let U := script_address in
  let R := scripts_by_offset in
  let stxo := stxo_of (hdr 0 0) 1 txT 0 (0, 11) in
  lookup2 (utxos_ batchA) hashT 1 = Some stxo
  /\ lookup2 (utxos_ (scanBlockData_txouts [blockB] batchA)) hashT 1
     = Some stxo.
Proof.
  intros F U R stxo.
  assert (He : lookup2 (utxos_ batchA) hashT 1 = Some stxo)
    by (vm_compute; reflexivity).
  split; [exact He|].
  exact (output_pass_keeps_entries [blockB] batchA hashT 1 stxo He).
Defined.

Lemma output_pass_nothing_watched_witness :
  let F := watching [] in
  let U := script_address in
  let R := scripts_by_offset in
  (forall scrAddr, hasScrAddress scrAddr = false)
  /\ utxos_ (scanBlockData_txouts [blockA; blockB] (new_batch 0 1)) = ∅
  /\ ssh_ (scanBlockData_txouts [blockA; blockB] (new_batch 0 1)) = ∅.
Proof.
  intros F U R.
  assert (Hn : forall scrAddr, hasScrAddress scrAddr = false).
  { intros scrAddr. apply bool_decide_eq_false_2, not_elem_of_nil. }
  split; [exact Hn|].
  exact (output_pass_nothing_watched [blockA; blockB] (new_batch 0 1) Hn).
Defined.

(** ** [scanBlockData]: the history of the output pass *)

Section HistoryLaws.
Context `{ScrAddrFilter} `{BtcUtils} `{OffsetReader}.

Lemma txout_step_lookup_txio hdr i txn y txout batch a g k :
  lookup_txio (ssh_ (txout_step hdr i txn y txout batch)) a g k =
    if hasScrAddress (txout_scrAddr (fst txout))
       && bool_decide
            (a = txout_scrAddr (fst txout)
             /\ g = heightAndDupToHgtx (getBlockHeight hdr) (getDuplicateID hdr)
             /\ k = getBlkDataKeyNoPrefix4 (getBlockHeight hdr)
                      (getDuplicateID hdr) i y)
    then Some (default (txio_of hdr i txn y txout)
                 (lookup_txio (ssh_ batch) a g k))
    else lookup_txio (ssh_ batch) a g k.
Proof.
  unfold txout_step.
  destruct (hasScrAddress (txout_scrAddr (fst txout))) eqn:Hw;
    cbn [negb andb]; [|reflexivity].
  cbn [ssh_ blockHeight_ duplicateID_].
  set (scrAddr := txout_scrAddr (fst txout)).
  set (hgtx := heightAndDupToHgtx (getBlockHeight hdr) (getDuplicateID hdr)).
  set (key := getBlkDataKeyNoPrefix4 _ _ i y).
  set (txio := mkTxIOPair _ _ _).
  change (txio_of hdr i txn y txout) with txio.
  unfold lookup_txio at 1.
  destruct (decide (a = scrAddr)) as [->|Ha].
  - rewrite lookup_insert_eq. cbv beta iota.
    destruct (decide (g = hgtx)) as [->|Hg].
    + rewrite lookup_insert_eq. unfold map_insert, map_at, lookup_txio.
      destruct (ssh_ batch !! scrAddr) as [sub|]; cbn [default from_option id].
      * destruct (sub !! hgtx) as [txios|]; cbn [default from_option id].
        -- destruct (decide (k = key)) as [->|Hk].
           ++ rewrite bool_decide_eq_true_2 by now repeat split.
              destruct (txios !! key) as [old|] eqn:Eold.
              ** now rewrite Eold.
              ** now rewrite lookup_insert_eq.
           ++ rewrite bool_decide_eq_false_2 by (intros (_ & _ & ?); congruence).
              destruct (txios !! key) as [old|] eqn:Eold; [reflexivity|].
              now rewrite lookup_insert_ne by congruence.
        -- repeat (rewrite lookup_empty; cbn [default from_option id]).
           destruct (decide (k = key)) as [->|Hk].
           ++ rewrite bool_decide_eq_true_2 by now repeat split.
              now rewrite lookup_insert_eq.
           ++ rewrite bool_decide_eq_false_2 by (intros (_ & _ & ?); congruence).
              now rewrite lookup_insert_ne, lookup_empty by congruence.
      * repeat (rewrite lookup_empty; cbn [default from_option id]).
        destruct (decide (k = key)) as [->|Hk].
        -- rewrite bool_decide_eq_true_2 by now repeat split.
           now rewrite lookup_insert_eq.
        -- rewrite bool_decide_eq_false_2 by (intros (_ & _ & ?); congruence).
           now rewrite lookup_insert_ne, lookup_empty by congruence.
    + rewrite lookup_insert_ne by congruence.
      rewrite bool_decide_eq_false_2 by (intros (_ & ? & _); congruence).
      unfold map_at, lookup_txio.
      now destruct (ssh_ batch !! scrAddr) as [sub|]; cbn [default from_option id];
        rewrite ?lookup_empty.
  - rewrite lookup_insert_ne by congruence.
    rewrite bool_decide_eq_false_2 by (intros (? & _ & _); congruence).
    reflexivity.
Qed.

Lemma txout_step_keeps_txio hdr i txn y txout batch a g k txio :
  lookup_txio (ssh_ batch) a g k = Some txio ->
  lookup_txio (ssh_ (txout_step hdr i txn y txout batch)) a g k = Some txio.
Proof.
  intros Hl. rewrite txout_step_lookup_txio, Hl. now destruct (_ && _).
Qed.

Lemma txoutParser_keeps_txio blk batch a g k txio :
  lookup_txio (ssh_ batch) a g k = Some txio ->
  lookup_txio (ssh_ (txoutParser blk batch)) a g k = Some txio.
Proof.
  intros Hl. unfold txoutParser.
  apply (for_indexed_inv (fun b => lookup_txio (ssh_ b) a g k = Some txio));
    [|exact Hl].
  intros i txn b Hb.
  apply (for_indexed_inv (fun b => lookup_txio (ssh_ b) a g k = Some txio));
    [|exact Hb].
  intros y txout b' Hb'. now apply txout_step_keeps_txio.
Qed.

(** X15. Every watched output of the blocks has a history entry after the
    output pass, under its script address, its block and the key made of its
    transaction index and its output index. *)
Theorem output_pass_history_complete (links : list BlockData)
    (batch : BlockDataBatch) (blk : BlockData) (i : nat) (txn : BCTX)
    (y : nat) (txout : Z * Z)
    (Hblk : blk ∈ links)
    (Htx : txns_ blk !! i = Some txn)
    (Hout : txouts_ txn !! y = Some txout)
    (Hwatched : hasScrAddress (txout_scrAddr (fst txout)) = true) :
  is_Some
    (lookup_txio (ssh_ (scanBlockData_txouts links batch))
       (txout_scrAddr (fst txout))
       (heightAndDupToHgtx (getBlockHeight (header blk))
          (getDuplicateID (header blk)))
       (getBlkDataKeyNoPrefix4 (getBlockHeight (header blk))
          (getDuplicateID (header blk)) (Z.of_nat i) (Z.of_nat y))).
Proof.
  set (a := txout_scrAddr (fst txout)).
  set (g := heightAndDupToHgtx _ _).
  set (k := getBlkDataKeyNoPrefix4 _ _ _ _).
  set (Q := fun b : BlockDataBatch => is_Some (lookup_txio (ssh_ b) a g k)).
  assert (Hstep : forall hdr i' txn' y' txout' b,
             Q b -> Q (txout_step hdr i' txn' y' txout' b)).
  { intros hdr i' txn' y' txout' b [s Hs]. exists s.
    now apply txout_step_keeps_txio. }
  assert (Hparser : forall blk' b, Q b -> Q (txoutParser blk' b)).
  { intros blk' b [s Hs]. exists s. now apply txoutParser_keeps_txio. }
  unfold scanBlockData_txouts, blockDataLoop.
  apply (fold_left_reaches Q _ links batch blk Hblk); [|auto].
  intros b. unfold txoutParser.
  apply (for_indexed_reaches Q _ (txns_ blk) 0 _ i txn Htx).
  - intros b1.
    apply (for_indexed_reaches Q _ (txouts_ txn) 0 _ y txout Hout).
    + intros b2. unfold Q, a. rewrite txout_step_lookup_txio.
      rewrite Hwatched, !Z.add_0_l.
      rewrite bool_decide_eq_true_2 by now repeat split.
      cbn [andb]. eexists. reflexivity.
    + intros y' txout' b2. apply Hstep.
  - intros i' txn' b1 Hb1.
    apply (for_indexed_inv Q); [|exact Hb1].
    intros y' txout' b2. apply Hstep.
Qed.

(** X16. Every history entry the output pass leaves was there before or is
    the entry of a watched output of the blocks. *)
Theorem output_pass_history_sound (links : list BlockData)
    (batch : BlockDataBatch) (scrAddr : BinaryData) (hgtx key : DBKey)
    (txio : TxIOPair)
    (Hentry : lookup_txio (ssh_ (scanBlockData_txouts links batch))
                scrAddr hgtx key = Some txio) :
  lookup_txio (ssh_ batch) scrAddr hgtx key = Some txio
  \/ history_from links scrAddr hgtx key txio.
Proof.
  revert Hentry. unfold scanBlockData_txouts, blockDataLoop.
  set (P := fun (done : list BlockData) (b : BlockDataBatch) =>
              forall txio,
                lookup_txio (ssh_ b) scrAddr hgtx key = Some txio ->
                lookup_txio (ssh_ batch) scrAddr hgtx key = Some txio
                \/ history_from done scrAddr hgtx key txio).
  assert (Hmono : forall done done' b,
             (forall x, x ∈ done -> x ∈ done') -> P done b -> P done' b).
  { intros done done' b Hsub Hb t Ht.
    destruct (Hb t Ht)
      as [?|(blk & i & txn & y & txout & Hin & Hr)]; [now left|right].
    exists blk, i, txn, y, txout. split; [now apply Hsub|exact Hr]. }
  assert (Hgen : forall todo done b,
             P done b ->
             P (done ++ todo)
               (fold_left (fun b blk => txoutParser blk b) todo b)).
  { induction todo as [|blk todo IH]; intros done b Hb.
    - now rewrite app_nil_r.
    - simpl.
      replace (done ++ blk :: todo) with ((done ++ [blk]) ++ todo)
        by (rewrite <- app_assoc; reflexivity).
      apply IH. unfold txoutParser.
      apply (for_indexed_inv_at (P (done ++ [blk]))).
      + intros i txn b1 Hi Hb1.
        apply (for_indexed_inv_at (P (done ++ [blk]))); [|exact Hb1].
        intros y txout b2 Hy Hb2 t.
        rewrite txout_step_lookup_txio.
        destruct (hasScrAddress (txout_scrAddr (fst txout))) eqn:Hw;
          cbn [andb]; [|apply Hb2].
        destruct (bool_decide _) eqn:Hd; [|apply Hb2].
        apply bool_decide_eq_true_1 in Hd as (-> & -> & ->).
        destruct (lookup_txio (ssh_ b2) _ _ _) as [old|] eqn:Eold;
          cbn [default from_option id].
        * intros [= <-]. now apply Hb2.
        * intros [= <-]. right.
          exists blk, i, txn, y, txout.
          split; [apply elem_of_app; right;
                  now apply list_elem_of_singleton|].
          rewrite !Z.add_0_l. now repeat split.
      + apply (Hmono done); [|exact Hb].
        intros x Hx. apply elem_of_app. now left. }
  intros Hs. apply (Hgen links [] batch); [|exact Hs].
  intros s Hs'. now left.
Qed.
End HistoryLaws.

Lemma output_pass_history_complete_witness :
  let F := watching [addrA] in
  let U := script_address in
  let R := scripts_by_offset in
  blockA ∈ [blockA; blockB]
  /\ txns_ blockA !! 1%nat = Some txT
  /\ txouts_ txT !! 0%nat = Some (0, 11)
  /\ hasScrAddress (txout_scrAddr (fst (0, 11))) = true
  /\ is_Some
       (lookup_txio
          (ssh_ (scanBlockData_txouts [blockA; blockB] (new_batch 0 1)))
          addrA [0; 0] [0; 0; 1; 0]).
Proof.
  intros F U R.
  assert (Hb : blockA ∈ [blockA; blockB]) by apply list_elem_of_here.
  assert (Hw : hasScrAddress (txout_scrAddr (fst (0, 11))) = true)
    by (vm_compute; reflexivity).
  split; [exact Hb|]. split; [reflexivity|]. split; [reflexivity|].
  split; [exact Hw|].
  exact (output_pass_history_complete [blockA; blockB] (new_batch 0 1) blockA
           1 txT 0 (0, 11) Hb eq_refl eq_refl Hw).
Defined.

Lemma output_pass_history_sound_witness :
  let F := watching [addrA] in
  let U := script_address in
  let R := scripts_by_offset in
  let txio := txio_of (hdr 0 0) 1 txT 0 (0, 11) in
  lookup_txio (ssh_ (scanBlockData_txouts [blockA; blockB] (new_batch 0 1)))
    addrA [0; 0] [0; 0; 1; 0] = Some txio
  /\ (lookup_txio (ssh_ (new_batch 0 1)) addrA [0; 0] [0; 0; 1; 0]
      = Some txio
      \/ history_from [blockA; blockB] addrA [0; 0] [0; 0; 1; 0] txio).
Proof.
  intros F U R txio.
  assert (He : lookup_txio
                 (ssh_ (scanBlockData_txouts [blockA; blockB]
                          (new_batch 0 1)))
                 addrA [0; 0] [0; 0; 1; 0] = Some txio)
    by (vm_compute; reflexivity).
  split; [exact He|].
  exact (output_pass_history_sound [blockA; blockB] (new_batch 0 1) addrA
           [0; 0] [0; 0; 1; 0] txio He).
Defined.

(** ** [scanBlockData]: the input pass *)

Section InputLaws.
Context `{ScrAddrFilter} `{BtcUtils} `{OffsetReader}.

(** What [txin_step] does to the spent outputs: an input whose outpoint is in
    [utxoMap] appends that entry, marked spent; any other appends nothing. *)
Lemma txin_step_spent_eq utxoMap hdr i txn y txin batch :
  spentTxOuts_ (txin_step utxoMap hdr i txn y txin batch) =
    spentTxOuts_ batch ++
    match lookup2 utxoMap (fst (txin_outpoint txn txin))
            (snd (txin_outpoint txn txin)) with
    | Some found =>
        [mark_spent found
           (getBlkDataKeyNoPrefix4 (getBlockHeight hdr) (getDuplicateID hdr)
              i y)]
    | None => []
    end.
Proof.
  unfold txin_step, lookup2, txin_outpoint. cbn [fst snd].
  destruct (utxoMap !! slice (data_ txn) (fst txin) 32) as [utxos|];
    cbn [mbind option_bind]; [|now rewrite app_nil_r].
  destruct (utxos !! READ_UINT32_LE (data_ txn) (fst txin + 32)) as [found|];
    [reflexivity|now rewrite app_nil_r].
Qed.

Lemma txin_step_frame utxoMap hdr i txn y txin batch :
  utxos_ (txin_step utxoMap hdr i txn y txin batch) = utxos_ batch
  /\ start_ (txin_step utxoMap hdr i txn y txin batch) = start_ batch
  /\ end_ (txin_step utxoMap hdr i txn y txin batch) = end_ batch
  /\ highestProcessedHeight_ (txin_step utxoMap hdr i txn y txin batch)
     = highestProcessedHeight_ batch.
Proof.
  unfold txin_step.
  destruct (utxoMap !! _) as [utxos|]; [|now repeat split].
  destruct (utxos !! _) as [found|]; now repeat split.
Qed.


Lemma input_frame_step utxoMap hdr i txn y txin b0 b :
  input_frame b0 b -> input_frame b0 (txin_step utxoMap hdr i txn y txin b).
Proof.
  intros (F1 & F2 & F3 & F4 & more & F5).
  destruct (txin_step_frame utxoMap hdr i txn y txin b) as (G1 & G2 & G3 & G4).
  unfold input_frame. rewrite G1, G2, G3, G4, txin_step_spent_eq, F5.
  repeat (split; [assumption|]).
  eexists. rewrite <- app_assoc. reflexivity.
Qed.

Lemma input_pass_bounds utxoMap links batch :
  start_ (scanBlockData_txins utxoMap links batch) = start_ batch
  /\ end_ (scanBlockData_txins utxoMap links batch) = end_ batch.
Proof.
  unfold scanBlockData_txins, blockDataLoop.
  apply (fold_left_inv
           (fun b => start_ b = start_ batch /\ end_ b = end_ batch));
    [|now split].
  intros b blk Hb. unfold txinParser.
  apply (for_indexed_inv
           (fun b => start_ b = start_ batch /\ end_ b = end_ batch));
    [|exact Hb].
  intros i txn b1 Hb1.
  apply (for_indexed_inv
           (fun b => start_ b = start_ batch /\ end_ b = end_ batch));
    [|exact Hb1].
  intros y txin b2 Hb2.
  unfold txin_step.
  destruct (utxoMap !! _) as [utxos|]; [|exact Hb2].
  now destruct (utxos !! _).
Qed.

(** X19. The input pass leaves the unspent outputs, the bounds and the
    processed height of the batch as they are and only appends to its spent
    outputs; with no unspent output known to the scanner it changes
    nothing. *)
Theorem input_pass_frame (utxoMap : UtxoMap) (links : list BlockData)
    (batch : BlockDataBatch) :
  input_frame batch (scanBlockData_txins utxoMap links batch)
  /\ scanBlockData_txins ∅ links batch = batch.
Proof.
  split.
  - unfold scanBlockData_txins, blockDataLoop.
    apply (fold_left_inv (input_frame batch)).
    + intros b blk Hb. unfold txinParser.
      apply (for_indexed_inv (input_frame batch)); [|exact Hb].
      intros i txn b1 Hb1.
      apply (for_indexed_inv (input_frame batch)); [|exact Hb1].
      intros y txin b2. apply input_frame_step.
    + repeat (split; [reflexivity|]). exists []. now rewrite app_nil_r.
  - unfold scanBlockData_txins, blockDataLoop.
    apply (fold_left_inv (fun b => b = batch)); [|reflexivity].
    intros b blk ->. unfold txinParser.
    apply (for_indexed_inv (fun b => b = batch)); [|reflexivity].
    intros i txn b1 ->.
    apply (for_indexed_inv (fun b => b = batch)); [|reflexivity].
    intros y txin b2 ->. unfold txin_step. now rewrite lookup_empty.
Qed.

(** X17. Every spent output the input pass reports was reported before or is
    the entry of [utxoMap] an input of the blocks names, marked spent by that
    input. *)
Theorem input_pass_sound (utxoMap : UtxoMap) (links : list BlockData)
    (batch : BlockDataBatch) (stxo : StoredTxOut)
    (Hspent : stxo ∈ spentTxOuts_ (scanBlockData_txins utxoMap links batch)) :
  stxo ∈ spentTxOuts_ batch \/ spent_by_input utxoMap links stxo.
Proof.
  revert Hspent. unfold scanBlockData_txins, blockDataLoop.
  set (P := fun (done : list BlockData) (b : BlockDataBatch) =>
              forall stxo, stxo ∈ spentTxOuts_ b ->
                stxo ∈ spentTxOuts_ batch \/ spent_by_input utxoMap done stxo).
  assert (Hmono : forall done done' b,
             (forall x, x ∈ done -> x ∈ done') -> P done b -> P done' b).
  { intros done done' b Hsub Hb s Hs.
    destruct (Hb s Hs) as [?|(blk & i & txn & y & txin & found & Hin & Hr)];
      [now left|right].
    exists blk, i, txn, y, txin, found. split; [now apply Hsub|exact Hr]. }
  assert (Hgen : forall todo done b,
             P done b ->
             P (done ++ todo)
               (fold_left (fun b blk => txinParser utxoMap blk b) todo b)).
  { induction todo as [|blk todo IH]; intros done b Hb.
    - now rewrite app_nil_r.
    - simpl.
      replace (done ++ blk :: todo) with ((done ++ [blk]) ++ todo)
        by (rewrite <- app_assoc; reflexivity).
      apply IH. unfold txinParser.
      apply (for_indexed_inv_at (P (done ++ [blk]))).
      + intros i txn b1 Hi Hb1.
        apply (for_indexed_inv_at (P (done ++ [blk]))); [|exact Hb1].
        intros y txin b2 Hy Hb2 s.
        rewrite txin_step_spent_eq. intros Hs.
        apply elem_of_app in Hs as [Hs|Hs]; [now apply Hb2|].
        destruct (lookup2 utxoMap _ _) as [found|] eqn:Ef;
          [|now apply elem_of_nil in Hs].
        apply list_elem_of_singleton in Hs as ->. right.
        exists blk, i, txn, y, txin, found.
        split; [apply elem_of_app; right; now apply list_elem_of_singleton|].
        split; [exact Hi|]. split; [exact Hy|]. split; [exact Ef|].
        now rewrite !Z.add_0_l.
      + apply (Hmono done); [|exact Hb].
        intros x Hx. apply elem_of_app. now left. }
  intros Hs. apply (Hgen links [] batch); [|exact Hs].
  intros s Hs'. now left.
Qed.

(** X18. An input of the blocks whose outpoint is in [utxoMap] is reported:
    the entry, marked spent by that input, is among the spent outputs. *)
Theorem input_pass_complete (utxoMap : UtxoMap) (links : list BlockData)
    (batch : BlockDataBatch) (blk : BlockData) (i : nat) (txn : BCTX)
    (y : nat) (txin : Z * Z) (found : StoredTxOut)
    (Hblk : blk ∈ links)
    (Htx : txns_ blk !! i = Some txn)
    (Hin : txins_ txn !! y = Some txin)
    (Hfound : lookup2 utxoMap (fst (txin_outpoint txn txin))
                (snd (txin_outpoint txn txin)) = Some found) :
  mark_spent found
    (getBlkDataKeyNoPrefix4 (getBlockHeight (header blk))
       (getDuplicateID (header blk)) (Z.of_nat i) (Z.of_nat y))
  ∈ spentTxOuts_ (scanBlockData_txins utxoMap links batch).
Proof.
  set (s := mark_spent _ _).
  set (Q := fun b : BlockDataBatch => s ∈ spentTxOuts_ b).
  assert (Hstep : forall hdr i' txn' y' txin' b,
             Q b -> Q (txin_step utxoMap hdr i' txn' y' txin' b)).
  { intros hdr i' txn' y' txin' b Hb. unfold Q.
    rewrite txin_step_spent_eq. apply elem_of_app. now left. }
  unfold scanBlockData_txins, blockDataLoop.
  apply (fold_left_reaches Q _ links batch blk Hblk).
  - intros b. unfold txinParser.
    apply (for_indexed_reaches Q _ (txns_ blk) 0 _ i txn Htx).
    + intros b1.
      apply (for_indexed_reaches Q _ (txins_ txn) 0 _ y txin Hin).
      * intros b2. unfold Q. rewrite txin_step_spent_eq, Hfound.
        apply elem_of_app. right. rewrite !Z.add_0_l.
        now apply list_elem_of_singleton.
      * intros y' txin' b2. apply Hstep.
    + intros i' txn' b1 Hb1.
      apply (for_indexed_inv Q); [|exact Hb1].
      intros y' txin' b2. apply Hstep.
  - intros b blk' Hb. unfold txinParser.
    apply (for_indexed_inv Q); [|exact Hb].
    intros i' txn' b1 Hb1.
    apply (for_indexed_inv Q); [|exact Hb1].
    intros y' txin' b2. apply Hstep.
Qed.
End InputLaws.

Lemma input_pass_sound_witness :
  let F := watching [addrA] in
  let U := script_address in
  let R := scripts_by_offset in
  let b := scanBlockData_txouts [blockA; blockB] (new_batch 0 1) in
  let utxoMap := update_utxoMap ∅ [b] in
  let stxo :=
    mark_spent (stxo_of (hdr 0 0) 1 txT 0 (0, 11))
      (getBlkDataKeyNoPrefix4 1 0 1 0) in
  stxo ∈ spentTxOuts_ (scanBlockData_txins utxoMap [blockA; blockB] b)
  /\ (stxo ∈ spentTxOuts_ b
      \/ spent_by_input utxoMap [blockA; blockB] stxo).
Proof.
  intros F U R b utxoMap stxo.
  assert (Heq : spentTxOuts_ (scanBlockData_txins utxoMap [blockA; blockB] b)
                = [stxo]) by (vm_compute; reflexivity).
  assert (Hs : stxo
               ∈ spentTxOuts_ (scanBlockData_txins utxoMap [blockA; blockB] b))
    by (rewrite Heq; apply list_elem_of_here).
  split; [exact Hs|].
  exact (input_pass_sound utxoMap [blockA; blockB] b stxo Hs).
Defined.

Lemma input_pass_complete_witness :
  let F := watching [addrA] in
  let U := script_address in
  let R := scripts_by_offset in
  let b := scanBlockData_txouts [blockA; blockB] (new_batch 0 1) in
  let utxoMap := update_utxoMap ∅ [b] in
  let found := stxo_of (hdr 0 0) 1 txT 0 (0, 11) in
  blockB ∈ [blockA; blockB]
  /\ txns_ blockB !! 1%nat = Some txS
  /\ txins_ txS !! 0%nat = Some (0, 41)
  /\ lookup2 utxoMap (fst (txin_outpoint txS (0, 41)))
       (snd (txin_outpoint txS (0, 41))) = Some found
  /\ mark_spent found (getBlkDataKeyNoPrefix4 1 0 1 0)
     ∈ spentTxOuts_ (scanBlockData_txins utxoMap [blockA; blockB] b).
Proof.
  intros F U R b utxoMap found.
  assert (Hb : blockB ∈ [blockA; blockB])
    by apply list_elem_of_further, list_elem_of_here.
  assert (Hf : lookup2 utxoMap (fst (txin_outpoint txS (0, 41)))
                 (snd (txin_outpoint txS (0, 41))) = Some found)
    by (vm_compute; reflexivity).
  split; [exact Hb|]. split; [reflexivity|]. split; [reflexivity|].
  split; [exact Hf|].
  exact (input_pass_complete utxoMap [blockA; blockB] b blockB 1 txS 0
           (0, 41) found Hb eq_refl eq_refl Hf).
Defined.

(** ** [utxoMap_] between the passes and after them *)

Section MapLaws.
Context `{ScrAddrFilter} `{BtcUtils} `{OffsetReader} `{BlockDataLoader}.
Variable cfg : Config.

(** X20. The update of [utxoMap_] keeps the entry of a hash it has and gives
    a new hash the entry of the first batch that has one. *)
Theorem update_utxoMap_lookup (utxoMap : UtxoMap)
    (batchVec : list BlockDataBatch) (h : BinaryData) :
  update_utxoMap utxoMap batchVec !! h =
    match utxoMap !! h with
    | Some utxos => Some utxos
    | None => first_utxos batchVec h
    end.
Proof.
  unfold update_utxoMap, first_utxos. revert utxoMap.
  induction batchVec as [|b bv IH]; intros m; simpl.
  - now destruct (m !! h).
  - rewrite IH, lookup_union.
    destruct (m !! h) as [u|], (utxos_ b !! h) as [u'|]; reflexivity.
Qed.

Lemma prune_spent_lookup2 utxoMap s h k :
  lookup2 (prune_spent utxoMap s) h k =
    if bool_decide (parentHash_ s = h /\ txOutIndex_ s = k) then None
    else lookup2 utxoMap h k.
Proof.
  unfold prune_spent.
  destruct (utxoMap !! parentHash_ s) as [utxos|] eqn:Eh.
  - destruct (utxos !! txOutIndex_ s) as [found|] eqn:Ek.
    + destruct (bool_decide (size (delete (txOutIndex_ s) utxos) = 0%nat))
        eqn:Esz.
      * apply bool_decide_eq_true_1, map_size_empty_inv in Esz.
        unfold lookup2.
        destruct (decide (parentHash_ s = h)) as [<-|Hh].
        -- rewrite lookup_delete_eq, Eh.
           destruct (decide (txOutIndex_ s = k)) as [<-|Hk].
           ++ now rewrite bool_decide_eq_true_2.
           ++ rewrite bool_decide_eq_false_2 by (intros [_ ?]; contradiction).
              rewrite <- (lookup_delete_ne utxos (txOutIndex_ s) k Hk), Esz.
              now rewrite lookup_empty.
        -- rewrite lookup_delete_ne by exact Hh.
           now rewrite bool_decide_eq_false_2 by (intros [? _]; contradiction).
      * unfold lookup2.
        destruct (decide (parentHash_ s = h)) as [<-|Hh].
        -- rewrite lookup_insert_eq, Eh.
           destruct (decide (txOutIndex_ s = k)) as [<-|Hk].
           ++ rewrite bool_decide_eq_true_2 by (split; reflexivity).
              apply lookup_delete_eq.
           ++ rewrite bool_decide_eq_false_2 by (intros [_ ?]; contradiction).
              now apply lookup_delete_ne.
        -- rewrite lookup_insert_ne by exact Hh.
           now rewrite bool_decide_eq_false_2 by (intros [? _]; contradiction).
    + destruct (bool_decide _) eqn:Hd; [|reflexivity].
      apply bool_decide_eq_true_1 in Hd as [<- <-].
      unfold lookup2. now rewrite Eh.
  - destruct (bool_decide _) eqn:Hd; [|reflexivity].
    apply bool_decide_eq_true_1 in Hd as [<- _].
    unfold lookup2. now rewrite Eh.
Qed.

Lemma accumulate_utxoMap st batchVec :
  utxoMap_ (fst (accumulateDataBeforeBatchWrite cfg st batchVec)) =
    fold_left prune_spent (flat_map spentTxOuts_ batchVec) (utxoMap_ st).
Proof.
  unfold accumulateDataBeforeBatchWrite.
  now destruct (getHeaderByHeight _ _).
Qed.

(** X21. [accumulateDataBeforeBatchWrite] removes from [utxoMap_] the entries
    under (parent hash, output index) of the spent outputs of the batches,
    and no other. *)
Theorem accumulate_prunes_spent (st : ScannerState)
    (batchVec : list BlockDataBatch) (h : BinaryData) (k : Z) :
  lookup2 (utxoMap_ (fst (accumulateDataBeforeBatchWrite cfg st batchVec))) h k
  = if spent_in (flat_map spentTxOuts_ batchVec) h k then None
    else lookup2 (utxoMap_ st) h k.
Proof.
  rewrite accumulate_utxoMap.
  generalize (flat_map spentTxOuts_ batchVec) (utxoMap_ st).
  intros spent. induction spent as [|s spent IH]; intros m; simpl;
    [reflexivity|].
  rewrite IH, prune_spent_lookup2.
  destruct (bool_decide _); simpl; [|reflexivity].
  now destruct (spent_in spent h k).
Qed.

Lemma prune_spent_no_empty utxoMap s :
  no_empty_entry utxoMap -> no_empty_entry (prune_spent utxoMap s).
Proof.
  intros Hne. unfold prune_spent.
  destruct (utxoMap !! parentHash_ s) as [utxos|] eqn:Eh; [|exact Hne].
  destruct (utxos !! txOutIndex_ s) as [found|] eqn:Ek; [|exact Hne].
  destruct (bool_decide (size (delete (txOutIndex_ s) utxos) = 0%nat)) eqn:Esz.
  - intros h u Hu. apply lookup_delete_Some in Hu as [_ Hu]. now apply (Hne h).
  - apply bool_decide_eq_false_1 in Esz.
    intros h u Hu. apply lookup_insert_Some in Hu as [[_ <-]|[_ Hu]].
    + intros He. apply Esz. rewrite He. apply map_size_empty.
    + now apply (Hne h).
Qed.

Lemma txout_step_no_empty hdr i txn y txout batch :
  no_empty_entry (utxos_ batch) ->
  no_empty_entry (utxos_ (txout_step hdr i txn y txout batch)).
Proof.
  intros Hne. unfold txout_step.
  destruct (negb _); [exact Hne|]. cbn [utxos_].
  intros h u Hu. apply lookup_insert_Some in Hu as [[_ <-]|[_ Hu]];
    [|now apply (Hne h)].
  unfold map_insert, map_at.
  destruct (utxos_ batch !! txHash_ txn) as [old|] eqn:Eold;
    cbn [default from_option id].
  - destruct (old !! i) eqn:Ei; [now apply (Hne _ _ Eold)|].
    apply insert_non_empty.
  - rewrite lookup_empty. apply insert_non_empty.
Qed.

Lemma output_pass_no_empty links batch :
  no_empty_entry (utxos_ batch) ->
  no_empty_entry (utxos_ (scanBlockData_txouts links batch)).
Proof.
  intros Hne. unfold scanBlockData_txouts, blockDataLoop.
  apply (fold_left_inv (fun b => no_empty_entry (utxos_ b))); [|exact Hne].
  intros b blk Hb. unfold txoutParser.
  apply (for_indexed_inv (fun b => no_empty_entry (utxos_ b))); [|exact Hb].
  intros i txn b1 Hb1.
  apply (for_indexed_inv (fun b => no_empty_entry (utxos_ b))); [|exact Hb1].
  intros y txout b2. apply txout_step_no_empty.
Qed.

Lemma update_no_empty utxoMap batchVec :
  no_empty_entry utxoMap ->
  Forall (fun b => no_empty_entry (utxos_ b)) batchVec ->
  no_empty_entry (update_utxoMap utxoMap batchVec).
Proof.
  intros Hm Hbv. unfold update_utxoMap. revert utxoMap Hm.
  induction Hbv as [|b bv Hb _ IH]; intros m Hm; simpl; [exact Hm|].
  apply IH. intros h u Hu.
  apply lookup_union_Some_raw in Hu as [Hu|[_ Hu]].
  - now apply (Hm h).
  - now apply (Hb h).
Qed.

(** X22. No transaction hash of [utxoMap_] is left with an empty map of
    outputs by a turn of the scan: output passes on fresh batches, the
    update of [utxoMap_], input passes and the pruning of the spent
    outputs. *)
Theorem utxoMap_no_empty_entry (st : ScannerState)
    (links : list (list BlockData)) (ranges : list (Z * Z))
    (Hst : no_empty_entry (utxoMap_ st)) :
  let batchVec :=
    zip_with scanBlockData_txouts links
      (map (fun r => new_batch (fst r) (snd r)) ranges) in
  let utxoMap := update_utxoMap (utxoMap_ st) batchVec in
  let batchVec := zip_with (scanBlockData_txins utxoMap) links batchVec in
  no_empty_entry
    (utxoMap_ (fst (accumulateDataBeforeBatchWrite cfg
                      (mkScanner utxoMap (topScannedBlockHash_ st))
                      batchVec))).
Proof.
  intros bv1 m bv2. rewrite accumulate_utxoMap. cbn [utxoMap_].
  apply (fold_left_inv no_empty_entry).
  - intros a b. apply prune_spent_no_empty.
  - apply update_no_empty; [exact Hst|].
    unfold bv1. clear. revert ranges.
    induction links as [|l links IH]; intros [|r ranges]; simpl;
      try constructor; [|apply IH].
    apply output_pass_no_empty. intros h u Hu.
    unfold new_batch in Hu. cbn [utxos_] in Hu.
    now rewrite lookup_empty in Hu.
Qed.
End MapLaws.

Lemma utxoMap_no_empty_entry_witness :
  let F := watching [addrA] in
  let U := script_address in
  let R := scripts_by_offset in
  let batchVec :=
    zip_with scanBlockData_txouts [[blockA; blockB]] [new_batch 0 1] in
  let utxoMap := update_utxoMap (utxoMap_ scanner0) batchVec in
  let batchVec :=
    zip_with (scanBlockData_txins utxoMap) [[blockA; blockB]] batchVec in
  no_empty_entry (utxoMap_ scanner0)
  /\ no_empty_entry
       (utxoMap_ (fst (accumulateDataBeforeBatchWrite cfgAB
                         (mkScanner utxoMap (topScannedBlockHash_ scanner0))
                         batchVec))).
Proof.
  intros F U R batchVec utxoMap batchVec'.
  assert (H0 : no_empty_entry (utxoMap_ scanner0)).
  { intros h u Hu. unfold scanner0 in Hu. cbn [utxoMap_] in Hu.
    rewrite lookup_empty in Hu. discriminate Hu. }
  split; [exact H0|].
  exact (utxoMap_no_empty_entry cfgAB scanner0 [[blockA; blockB]] [(0, 1)] H0).
Defined.

(** ** The key of an unspent output *)

Section KeyFacts.
Context `{ScrAddrFilter} `{BtcUtils} `{OffsetReader}.

Lemma fold_left_inv_in {A B} (P : A -> Prop) (g : A -> B -> A) : forall l a,
  (forall a b, b ∈ l -> P a -> P (g a b)) -> P a -> P (fold_left g l a).
Proof.
  induction l as [|b l IH]; intros a Hg Ha; simpl; [exact Ha|].
  apply IH.
  - intros a' b' Hb'. apply Hg. now apply list_elem_of_further.
  - apply Hg; [apply list_elem_of_here|exact Ha].
Qed.

(** A loop invariant that depends on the number of turns done. *)
Lemma for_indexed_ind {A St : Type} (body : Z -> A -> St -> St) :
  forall l (P : nat -> St -> Prop) idx s,
  P 0%nat s ->
  (forall (j : nat) a s,
     l !! j = Some a -> P j s -> P (S j) (body (idx + Z.of_nat j) a s)) ->
  P (length l) (for_indexed body idx l s).
Proof.
  induction l as [|a l IH]; intros P idx s Hzero Hstep; simpl; [exact Hzero|].
  apply (IH (fun j => P (S j))).
  - replace idx with (idx + Z.of_nat 0) at 1 by (simpl; lia).
    now apply Hstep.
  - intros j a' s' Hj Hs'.
    replace (idx + 1 + Z.of_nat j) with (idx + Z.of_nat (S j)) by lia.
    now apply Hstep.
Qed.

Lemma in_utxoMap_false (m : UtxoMap) h y :
  in_utxoMap m (h, y) = false
  <-> forall k e, lookup2 m h k = Some e -> txOutIndex_ e <> y.
Proof.
  unfold in_utxoMap, lookup2. cbn [fst snd].
  destruct (m !! h) as [utxos|]; [|split; [discriminate|reflexivity]].
  split.
  - intros Hex k e Hk Hy.
    assert (Hin : In (k, e) (map_to_list utxos)).
    { apply list_elem_of_In. now apply elem_of_map_to_list. }
    assert (Ht : existsb (fun '(_, stxo) => txOutIndex_ stxo =? y)
                   (map_to_list utxos) = true).
    { apply existsb_exists. exists (k, e). split; [exact Hin|].
      now apply Z.eqb_eq. }
    congruence.
  - intros Hall.
    destruct (existsb _ _) eqn:Hex; [|reflexivity].
    apply existsb_exists in Hex as ([k e] & Hin & Hy).
    apply list_elem_of_In, elem_of_map_to_list in Hin.
    apply Z.eqb_eq in Hy. now destruct (Hall k e Hin).
Qed.

Section OneTransaction.
Variable txn : BCTX.
Variables y1 y2 : nat.
Variable o1 : Z * Z.
Hypothesis Hout1 : txouts_ txn !! y1 = Some o1.
Hypothesis Hw1 : hasScrAddress (txout_scrAddr (fst o1)) = true.
Hypothesis Hlt : (y1 < y2)%nat.

(** The loop over the outputs of [txn]: output [y1] takes the place of the
    transaction, or finds it taken, before the loop comes to output
    [y2]. *)
Lemma outputs_of_txn_no_record hdr i batch :
  no_record txn y2 (utxos_ batch) ->
  no_record txn y2
    (utxos_ (for_indexed (txout_step hdr i txn) 0 (txouts_ txn) batch)).
Proof.
  intros Hinv.
  apply (for_indexed_ind (txout_step hdr i txn) (txouts_ txn)
           (fun j b =>
              no_record txn y2 (utxos_ b)
              /\ ((y1 < j)%nat ->
                  is_Some (lookup2 (utxos_ b) (txHash_ txn) i)))).
  - split; [exact Hinv|lia].
  - intros j a s Hj [Hs Hfilled]. rewrite Z.add_0_l. split.
    + intros k e. rewrite txout_step_lookup2.
      destruct (hasScrAddress (txout_scrAddr (fst a))
                && bool_decide (txHash_ txn = txHash_ txn /\ k = i)) eqn:Hc;
        [|apply Hs].
      apply andb_true_iff in Hc as [_ Hk].
      apply bool_decide_eq_true_1 in Hk as [_ ->].
      destruct (lookup2 (utxos_ s) (txHash_ txn) i) as [e0|] eqn:Eold;
        cbn [default from_option id].
      * intros [= <-]. exact (Hs _ _ Eold).
      * intros [= <-]. cbn [txOutIndex_ stxo_of]. intros Hy.
        assert (j = y2) by lia. subst j.
        destruct (Hfilled Hlt) as [e0 He0]. congruence.
    + intros Hj1. rewrite txout_step_lookup2.
      destruct (decide (j = y1)) as [->|Hne].
      * rewrite Hout1 in Hj. injection Hj as <-. rewrite Hw1.
        rewrite bool_decide_eq_true_2 by (now split). cbn [andb].
        now eexists.
      * destruct (Hfilled ltac:(lia)) as [e0 He0]. rewrite He0.
        destruct (_ && _); now eexists.
Qed.

(** The outputs of a transaction with another hash leave the entries under
    the hash of [txn] as they are. *)
Lemma outputs_of_other_no_record hdr i txn' batch :
  txHash_ txn' <> txHash_ txn ->
  no_record txn y2 (utxos_ batch) ->
  no_record txn y2
    (utxos_ (for_indexed (txout_step hdr i txn') 0 (txouts_ txn') batch)).
Proof.
  intros Hne Hinv.
  apply (for_indexed_inv (fun b => no_record txn y2 (utxos_ b))); [|exact Hinv].
  intros y txout b Hb k e. rewrite txout_step_lookup2.
  rewrite (bool_decide_eq_false_2 (txHash_ txn = txHash_ txn' /\ k = i))
    by (intros [Hh _]; congruence).
  rewrite andb_false_r. apply Hb.
Qed.

Lemma txoutParser_no_record blk batch :
  (forall (i : nat) txn',
     txns_ blk !! i = Some txn' -> txHash_ txn' = txHash_ txn -> txn' = txn) ->
  no_record txn y2 (utxos_ batch) ->
  no_record txn y2 (utxos_ (txoutParser blk batch)).
Proof.
  intros Hnames Hinv. unfold txoutParser.
  apply (for_indexed_inv_at (fun b => no_record txn y2 (utxos_ b)));
    [|exact Hinv].
  intros i txn' b Hi Hb.
  destruct (decide (txHash_ txn' = txHash_ txn)) as [Heq|Hne].
  - rewrite (Hnames i txn' Hi Heq). now apply outputs_of_txn_no_record.
  - now apply outputs_of_other_no_record.
Qed.

Lemma output_pass_no_record blocks batch :
  (forall blk (i : nat) txn',
     blk ∈ blocks -> txns_ blk !! i = Some txn' ->
     txHash_ txn' = txHash_ txn -> txn' = txn) ->
  no_record txn y2 (utxos_ batch) ->
  no_record txn y2 (utxos_ (scanBlockData_txouts blocks batch)).
Proof.
  intros Hnames Hinv. unfold scanBlockData_txouts, blockDataLoop.
  apply (fold_left_inv_in (fun b => no_record txn y2 (utxos_ b)));
    [|exact Hinv].
  intros b blk Hblk Hb. apply txoutParser_no_record; [|exact Hb].
  intros i txn'. now apply Hnames.
Qed.

Lemma update_utxoMap_no_record batchVec : forall utxoMap,
  no_record txn y2 utxoMap ->
  Forall (fun b => no_record txn y2 (utxos_ b)) batchVec ->
  no_record txn y2 (update_utxoMap utxoMap batchVec).
Proof.
  unfold update_utxoMap.
  induction batchVec as [|b batchVec IH]; intros utxoMap Hm Hall; simpl;
    [exact Hm|].
  inversion Hall as [|? ? Hb Hrest]; subst.
  apply IH; [|exact Hrest].
  intros k e. unfold lookup2.
  destruct ((utxoMap ∪ utxos_ b) !! txHash_ txn) as [utxos|] eqn:Eu;
    [|discriminate].
  apply lookup_union_Some_raw in Eu as [Eu|[_ Eu]]; intros He.
  - apply (Hm k e). unfold lookup2. now rewrite Eu.
  - apply (Hb k e). unfold lookup2. now rewrite Eu.
Qed.

Lemma group_no_record (links : list (list BlockData)) : forall batchVec,
  hash_names links txn ->
  Forall (fun b => no_record txn y2 (utxos_ b)) batchVec ->
  Forall (fun b => no_record txn y2 (utxos_ b))
    (zip_with scanBlockData_txouts links batchVec).
Proof.
  induction links as [|blocks links IH]; intros batchVec Hnames Hall;
    [constructor|].
  destruct batchVec as [|b batchVec]; [constructor|].
  inversion Hall as [|? ? Hb Hrest]; subst. simpl. constructor.
  - apply output_pass_no_record; [|exact Hb].
    intros blk i txn' Hblk. apply (Hnames blocks blk i txn');
      [apply list_elem_of_here|exact Hblk].
  - apply IH; [|exact Hrest].
    intros blocks' blk i txn' Hbs. apply Hnames.
    now apply list_elem_of_further.
Qed.
End OneTransaction.

Lemma new_batches_no_record txn y2 (ranges : list (Z * Z)) :
  Forall (fun b => no_record txn y2 (utxos_ b))
    (map (fun r => new_batch (fst r) (snd r)) ranges).
Proof.
  apply Forall_map, Forall_forall. intros r _ k e.
  unfold lookup2. cbn [new_batch utxos_]. now rewrite lookup_empty.
Qed.

Lemma new_batches_keyed (links : list (list BlockData)) :
  forall ranges : list (Z * Z),
  Forall (fun b => keyed_by_txIndex (utxos_ b))
    (zip_with scanBlockData_txouts links
       (map (fun r => new_batch (fst r) (snd r)) ranges)).
Proof.
  induction links as [|blocks links IH]; intros [|r ranges]; simpl;
    try constructor; [|apply IH].
  apply scan_txouts_keyed. apply keyed_empty.
Qed.

Lemma watched_outputs_has blk (i : nat) txn (y : nat) txout :
  txns_ blk !! i = Some txn ->
  txouts_ txn !! y = Some txout ->
  hasScrAddress (txout_scrAddr (fst txout)) = true ->
  (txHash_ txn, Z.of_nat y) ∈ watched_outputs blk.
Proof.
  intros Htx Hout Hw. unfold watched_outputs.
  apply list_elem_of_In, in_flat_map. exists txn. split.
  - apply list_elem_of_In. now apply list_elem_of_lookup_2 with i.
  - apply in_flat_map. exists (y, txout). split.
    + apply list_elem_of_In, list_elem_of_lookup. exists y.
      rewrite list_lookup_imap, Hout. reflexivity.
    + rewrite Hw. now left.
Qed.

(** C5.  The unspent outputs are kept under (transaction hash, index of
    the transaction in its block), so the watched outputs of one
    transaction share a place and [insert] keeps the first.  For a
    transaction of a block of the group, the only one of the group with its
    hash, that has two watched outputs [y1 < y2]: output [y2] is among the
    watched outputs the output pass finds in the block, and when the input
    passes start [utxoMap_] has no entry for it, unless it had one before the
    group. *)
Theorem watched_output_missing_from_utxoMap (utxoMap : UtxoMap)
    (links : list (list BlockData)) (ranges : list (Z * Z))
    (blocks : list BlockData) (blk : BlockData) (i : nat) (txn : BCTX)
    (y1 y2 : nat) (o1 o2 : Z * Z)
    (Hblocks : blocks ∈ links)
    (Hblk : blk ∈ blocks)
    (Htx : txns_ blk !! i = Some txn)
    (Hnames : hash_names links txn)
    (Hout1 : txouts_ txn !! y1 = Some o1)
    (Hw1 : hasScrAddress (txout_scrAddr (fst o1)) = true)
    (Hout2 : txouts_ txn !! y2 = Some o2)
    (Hw2 : hasScrAddress (txout_scrAddr (fst o2)) = true)
    (Hlt : (y1 < y2)%nat)
    (Hbefore : in_utxoMap utxoMap (txHash_ txn, Z.of_nat y2) = false) :
  (txHash_ txn, Z.of_nat y2) ∈ watched_outputs blk
  /\ in_utxoMap (utxoMap_at_barrier utxoMap links ranges)
       (txHash_ txn, Z.of_nat y2) = false.
Proof.
  split; [exact (watched_outputs_has blk i txn y2 o2 Htx Hout2 Hw2)|].
  apply (proj2 (in_utxoMap_false _ _ _)).
  pose proof (proj1 (in_utxoMap_false _ _ _) Hbefore) as Hclear.
  unfold utxoMap_at_barrier.
  apply (update_utxoMap_no_record txn y2); [exact Hclear|].
  apply (group_no_record txn y1 y2 o1 Hout1 Hw1 Hlt); [exact Hnames|].
  apply new_batches_no_record.
Qed.

(** C1.  When the input passes of a batch group start, every entry of
    [utxoMap_] sits under its parent hash and, inside, under the index of its
    transaction in the block, not under its output index; and for every
    output the input pass of a thread marks spent, the input at the recorded
    txin key names (parent hash, index of the transaction), not (parent
    hash, output index). *)
Theorem spent_output_index_mismatch (utxoMap : UtxoMap)
    (links : list (list BlockData)) (ranges : list (Z * Z))
    (blocks : list BlockData) (batch : BlockDataBatch) (stxo : StoredTxOut)
    (Hmap : keyed_by_txIndex utxoMap)
    (Hspent : stxo ∈ spentTxOuts_
                (scanBlockData_txins (utxoMap_at_barrier utxoMap links ranges)
                   blocks batch))
    (Hnew : stxo ∉ spentTxOuts_ batch) :
  keyed_by_txIndex (utxoMap_at_barrier utxoMap links ranges)
  /\ exists blk (i : nat) txn (y : nat) txin,
       blk ∈ blocks
       /\ txns_ blk !! i = Some txn
       /\ txins_ txn !! y = Some txin
       /\ spentness_ stxo = TXOUT_SPENT
       /\ spentByTxInKey_ stxo
          = getBlkDataKeyNoPrefix4 (getBlockHeight (header blk))
              (getDuplicateID (header blk)) (Z.of_nat i) (Z.of_nat y)
       /\ txin_outpoint txn txin = (parentHash_ stxo, txIndex_ stxo).
Proof.
  assert (Hkeyed : keyed_by_txIndex (utxoMap_at_barrier utxoMap links ranges)).
  { unfold utxoMap_at_barrier.
    apply update_utxoMap_keyed; [exact Hmap|apply new_batches_keyed]. }
  split; [exact Hkeyed|].
  set (m := utxoMap_at_barrier utxoMap links ranges) in *.
  set (P := fun (b : BlockDataBatch) =>
              forall s, s ∈ spentTxOuts_ b ->
                s ∈ spentTxOuts_ batch
                \/ exists blk (i : nat) txn (y : nat) txin,
                     blk ∈ blocks
                     /\ txns_ blk !! i = Some txn
                     /\ txins_ txn !! y = Some txin
                     /\ spentness_ s = TXOUT_SPENT
                     /\ spentByTxInKey_ s
                        = getBlkDataKeyNoPrefix4 (getBlockHeight (header blk))
                            (getDuplicateID (header blk)) (Z.of_nat i)
                            (Z.of_nat y)
                     /\ txin_outpoint txn txin
                        = (parentHash_ s, txIndex_ s)).
  assert (Hpass : P (scanBlockData_txins m blocks batch)).
  { unfold scanBlockData_txins, blockDataLoop.
    apply (fold_left_inv_in P); [|intros s Hs; now left].
    intros b blk Hblk Hb. unfold txinParser.
    apply (for_indexed_inv_at P); [|exact Hb].
    intros i txn b1 Hi Hb1.
    apply (for_indexed_inv_at P); [|exact Hb1].
    intros y txin b2 Hy Hb2 s Hs. rewrite !Z.add_0_l in Hs.
    destruct (txin_step_spent m (header blk) (Z.of_nat i) txn (Z.of_nat y)
                txin b2 s Hkeyed Hs) as [Hold|(Hsp & Hkey & Hpoint)];
      [now apply Hb2|].
    right. exists blk, i, txn, y, txin. now repeat split. }
  destruct (Hpass stxo Hspent) as [Hold|Hfrom]; [contradiction|exact Hfrom].
Qed.
End KeyFacts.

Lemma blockA_names_txT : hash_names [[blockA]] txT.
Proof.
  intros blocks blk i txn' Hblocks Hblk Htx Hhash.
  apply list_elem_of_singleton in Hblocks. subst blocks.
  apply list_elem_of_singleton in Hblk. subst blk.
  destruct i as [|[|i]]; simpl in Htx.
  - injection Htx as <-. discriminate Hhash.
  - now injection Htx as <-.
  - discriminate Htx.
Defined.

Lemma watched_output_missing_from_utxoMap_witness :
  let F := watching [addrA; addrC] in
  let U := script_address in
  let R := scripts_by_offset in
  [blockA] ∈ [[blockA]]
  /\ blockA ∈ [blockA]
  /\ txns_ blockA !! 1%nat = Some txT
  /\ hash_names [[blockA]] txT
  /\ txouts_ txT !! 0%nat = Some (0, 11)
  /\ hasScrAddress (txout_scrAddr (fst (0, 11))) = true
  /\ txouts_ txT !! 1%nat = Some (11, 11)
  /\ hasScrAddress (txout_scrAddr (fst (11, 11))) = true
  /\ (0 < 1)%nat
  /\ in_utxoMap (utxoMap_ scanner0) (txHash_ txT, Z.of_nat 1) = false
  /\ (txHash_ txT, Z.of_nat 1) ∈ watched_outputs blockA
  /\ in_utxoMap (utxoMap_at_barrier (utxoMap_ scanner0) [[blockA]] [(0, 0)])
       (txHash_ txT, Z.of_nat 1) = false.
Proof.
  intros F U R.
  assert (H1 : [blockA] ∈ [[blockA]]) by apply list_elem_of_here.
  assert (H2 : blockA ∈ [blockA]) by apply list_elem_of_here.
  assert (H3 : txns_ blockA !! 1%nat = Some txT) by reflexivity.
  assert (H4 : txouts_ txT !! 0%nat = Some (0, 11)) by reflexivity.
  assert (H5 : hasScrAddress (txout_scrAddr (fst (0, 11))) = true)
    by (vm_compute; reflexivity).
  assert (H6 : txouts_ txT !! 1%nat = Some (11, 11)) by reflexivity.
  assert (H7 : hasScrAddress (txout_scrAddr (fst (11, 11))) = true)
    by (vm_compute; reflexivity).
  assert (H8 : (0 < 1)%nat) by lia.
  assert (H9 : in_utxoMap (utxoMap_ scanner0) (txHash_ txT, Z.of_nat 1) = false)
    by reflexivity.
  split; [exact H1|]. split; [exact H2|]. split; [exact H3|].
  split; [exact blockA_names_txT|]. split; [exact H4|]. split; [exact H5|].
  split; [exact H6|]. split; [exact H7|]. split; [exact H8|].
  split; [exact H9|].
  exact (watched_output_missing_from_utxoMap (utxoMap_ scanner0)
           [[blockA]] [(0, 0)] [blockA]
           blockA 1 txT 0 1 (0, 11) (11, 11) H1 H2 H3 blockA_names_txT H4 H5
           H6 H7 H8 H9).
Defined.

Lemma spent_output_index_mismatch_witness :
  let F := watching [addrA] in
  let U := script_address in
  let R := scripts_by_offset in
  let batch := scanBlockData_txouts [blockA; blockB] (new_batch 0 1) in
  let utxoMap :=
    utxoMap_at_barrier (utxoMap_ scanner0) [[blockA; blockB]] [(0, 1)] in
  keyed_by_txIndex (utxoMap_ scanner0)
  /\ spentT0
     ∈ spentTxOuts_ (scanBlockData_txins utxoMap [blockA; blockB] batch)
  /\ (spentT0 ∉ spentTxOuts_ batch)
  /\ (parentHash_ spentT0, txOutIndex_ spentT0) = (hashT, 0)
  /\ txin_at [blockA; blockB] (spentByTxInKey_ spentT0) = Some (hashT, 1)
  /\ lookup2 utxoMap hashT 1 = Some (stxo_of (hdr 0 0) 1 txT 0 (0, 11))
  /\ keyed_by_txIndex utxoMap
  /\ exists blk (i : nat) txn (y : nat) txin,
       blk ∈ [blockA; blockB]
       /\ txns_ blk !! i = Some txn
       /\ txins_ txn !! y = Some txin
       /\ spentness_ spentT0 = TXOUT_SPENT
       /\ spentByTxInKey_ spentT0
          = getBlkDataKeyNoPrefix4 (getBlockHeight (header blk))
              (getDuplicateID (header blk)) (Z.of_nat i) (Z.of_nat y)
       /\ txin_outpoint txn txin = (parentHash_ spentT0, txIndex_ spentT0).
Proof.
  intros F U R batch utxoMap.
  assert (H1 : keyed_by_txIndex (utxoMap_ scanner0)) by exact keyed_empty.
  assert (H2 : spentT0 ∈ spentTxOuts_
                 (scanBlockData_txins utxoMap [blockA; blockB] batch)).
  { replace (spentTxOuts_ (scanBlockData_txins utxoMap [blockA; blockB] batch))
      with [spentT0] by (vm_compute; reflexivity).
    apply list_elem_of_here. }
  assert (H3 : spentT0 ∉ spentTxOuts_ batch).
  { replace (spentTxOuts_ batch) with (@nil StoredTxOut)
      by (vm_compute; reflexivity).
    apply not_elem_of_nil. }
  split; [exact H1|]. split; [exact H2|]. split; [exact H3|].
  split; [reflexivity|]. split; [reflexivity|].
  split; [vm_compute; reflexivity|].
  exact (spent_output_index_mismatch (utxoMap_ scanner0) [[blockA; blockB]] [(0, 1)]
           [blockA; blockB] batch spentT0 H1 H2 H3).
Defined.

(** ** The batch groups of [scan] *)

Section TargetLaws.
Context `{ScrAddrFilter} `{BtcUtils} `{OffsetReader} `{BlockDataLoader}.
Variable cfg : Config.
Hypothesis Hchain : chain_to_top (blockchain_ cfg).

Let bc := blockchain_ cfg.
Let topHeight := getBlockHeight (top (blockchain_ cfg)).

(** X23. For a start height of the chain, the end of the batch group is a
    height from the start to the top; every height before it has a block
    file below the target file number, and when it is below the top its own
    block file has reached the target. *)
Theorem find_targetHeight_spec (startHeight : Z) (startHeader : BlockHeader)
    (Hstart : 0 <= startHeight <= getBlockHeight (top (blockchain_ cfg)))
    (Hheader : getHeaderByHeight (blockchain_ cfg) startHeight
               = Ok startHeader) :
  let target :=
    wrap32 (getBlockFileNum startHeader + nBlockFilesPerBatch_ cfg) in
  exists endHeight,
    find_targetHeight cfg startHeight = Ok endHeight
    /\ startHeight <= endHeight <= getBlockHeight (top (blockchain_ cfg))
    /\ (forall t, startHeight <= t < endHeight ->
          file_below (blockchain_ cfg) target t)
    /\ (endHeight < getBlockHeight (top (blockchain_ cfg)) ->
        exists hdr, getHeaderByHeight (blockchain_ cfg) endHeight = Ok hdr
                    /\ target <= getBlockFileNum hdr).
Proof.
  intros target. unfold find_targetHeight. rewrite Hheader.
  fold target.
  destruct (targetHeight_loop_spec cfg Hchain target
              (S (length (headersByHeight (blockchain_ cfg))))
              startHeader startHeight Hstart Hheader)
    as (e & He & Hbelow & [(Htop & -> & Hfile)|(-> & ->)]).
  { destruct Hchain as [Hlen _]. subst topHeight. lia. }
  - exists e. split; [reflexivity|]. split; [subst topHeight; lia|].
    split; [|intros _; exact Hfile].
    intros t Ht. apply Hbelow; [lia|subst topHeight; lia].
  - fold topHeight.
    replace (topHeight + 1 <? topHeight) with false
      by (symmetry; apply Z.ltb_ge; lia).
    exists topHeight. split; [reflexivity|]. split; [lia|].
    split; [|intros; lia].
    intros t Ht. apply Hbelow; lia.
Qed.
End TargetLaws.

Lemma find_targetHeight_spec_witness :
  chain_to_top (blockchain_ cfg6)
  /\ 0 <= 1 <= getBlockHeight (top (blockchain_ cfg6))
  /\ getHeaderByHeight (blockchain_ cfg6) 1 = Ok (hdr 1 1)
  /\ exists endHeight,
       find_targetHeight cfg6 1 = Ok endHeight
       /\ 1 <= endHeight <= getBlockHeight (top (blockchain_ cfg6))
       /\ (forall t, 1 <= t < endHeight ->
             file_below (blockchain_ cfg6) (wrap32 (1 + 1)) t)
       /\ (endHeight < getBlockHeight (top (blockchain_ cfg6)) ->
           exists h, getHeaderByHeight (blockchain_ cfg6) endHeight = Ok h
                     /\ wrap32 (1 + 1) <= getBlockFileNum h).
Proof.
  assert (Hs : 0 <= 1 <= getBlockHeight (top (blockchain_ cfg6)))
    by (split; discriminate).
  split; [exact chain6_to_top|]. split; [exact Hs|]. split; [reflexivity|].
  exact (find_targetHeight_spec cfg6 chain6_to_top 1 (hdr 1 1) Hs eq_refl).
Defined.

(** ** [writeBlockData]: what is stored *)

Section WriterLaws.
Variable txhints_db : gmap BinaryData StoredTxHints.

Lemma sdbi_updates_app tr1 tr2 :
  sdbi_updates (tr1 ++ tr2) = sdbi_updates tr1 ++ sdbi_updates tr2.
Proof. apply flat_map_app. Qed.

Lemma sdbi_updates_none tr :
  none_of is_sdbi_update tr -> sdbi_updates tr = [].
Proof.
  induction tr as [|e tr IH]; intros Hn; simpl; [reflexivity|].
  rewrite IH by (intros x Hx; apply Hn; now right).
  assert (He : is_sdbi_update e = false) by (apply Hn; now left).
  destruct e as [| | | | | | | |db h|]; try reflexivity.
  now destruct db.
Qed.

Lemma sdbi_updates_interleave l r m :
  interleave l r m -> none_of is_sdbi_update r ->
  sdbi_updates m = sdbi_updates l.
Proof.
  induction 1 as [|a l r m _ IH|a l r m _ IH]; intros Hr; simpl.
  - reflexivity.
  - now rewrite IH.
  - rewrite IH by (intros x Hx; apply Hr; now right).
    assert (He : is_sdbi_update a = false) by (apply Hr; now left).
    destruct a as [| | | | | | | |db h|]; try reflexivity.
    now destruct db.
Qed.

Lemma sdbi_updates_body link :
  sdbi_updates (writeBlockData_body link) = [link_topScannedBlockHash_ link].
Proof.
  destruct (body_split link) as (pre & -> & Hpre & _).
  rewrite sdbi_updates_app, sdbi_updates_none by exact Hpre. reflexivity.
Qed.

(** X29. In a run of the writer in which every turn ends, whatever the
    schedule of the hints threads, the writer stores the
    top block hashes of the batch groups in the order it received the
    groups, one per group. *)
Theorem sdbi_updates_in_link_order (links : list BatchLink)
    (tr : list DBEvent)
    (Htr : writeBlockData txhints_db links tr) :
  sdbi_updates tr = map link_topScannedBlockHash_ links.
Proof.
  induction Htr as [|link links tr trs (m & Hil & ->) _ IH]; [reflexivity|].
  rewrite sdbi_updates_app, IH. simpl. f_equal.
  rewrite sdbi_updates_app. simpl. rewrite app_nil_r.
  rewrite (sdbi_updates_interleave _ _ _ Hil).
  - rewrite sdbi_updates_body. reflexivity.
  - now apply hints_none.
Qed.

Lemma fold_left_flat_map {A B C} (g : A -> C -> A) (f : B -> list C) l :
  forall a,
  fold_left (fun a b => fold_left g (f b) a) l a
  = fold_left g (flat_map f l) a.
Proof.
  induction l as [|b l IH]; intros a; simpl; [reflexivity|].
  now rewrite IH, fold_left_app.
Qed.

Lemma find_snoc {A} (p : A -> bool) l a :
  List.find p (l ++ [a]) =
    match List.find p l with
    | Some x => Some x
    | None => if p a then Some a else None
    end.
Proof.
  induction l as [|b l IH]; simpl; [reflexivity|].
  now destruct (p b).
Qed.

Lemma serialize_spent_lookup batchVec : forall m key,
  serialize_spent batchVec m !! key =
    match last_spent (spent_of batchVec) key with
    | Some s => Some [s]
    | None => m !! key
    end.
Proof.
  unfold serialize_spent, last_spent, spent_of. intros m key.
  rewrite (fold_left_flat_map
             (fun m stxo => <[getDBKey stxo := [stxo]]> m) spentTxOuts_).
  generalize (flat_map spentTxOuts_ batchVec). intros spent. revert m.
  induction spent as [|s spent IH]; intros m; simpl; [reflexivity|].
  rewrite IH, find_snoc.
  destruct (List.find _ (rev spent)) as [s'|]; [reflexivity|].
  simpl. destruct (decide (getDBKey s = key)) as [<-|Hne].
  - rewrite bool_decide_eq_true_2 by reflexivity. apply lookup_insert_eq.
  - rewrite bool_decide_eq_false_2 by exact Hne. now apply lookup_insert_ne.
Qed.

Lemma elem_of_map_pairs {K V} `{Countable K} (g : K -> V -> DBEvent)
    (m : gmap K V) e :
  e ∈ map (fun '(k, v) => g k v) (map_to_list m)
  <-> exists k v, e = g k v /\ m !! k = Some v.
Proof.
  rewrite list_elem_of_In, in_map_iff. split.
  - intros ([k v] & <- & Hin). exists k, v. split; [reflexivity|].
    now apply elem_of_map_to_list, list_elem_of_In.
  - intros (k & v & -> & Hl). exists (k, v). split; [reflexivity|].
    now apply list_elem_of_In, elem_of_map_to_list.
Qed.

Lemma stxo_put_in_body link key v :
  putValue_STXO key v ∈ writeBlockData_body link
  <-> serialize_spent (batchVec_ link) (serialize_utxos (batchVec_ link))
        !! key = Some v.
Proof.
  unfold writeBlockData_body. cbn zeta.
  rewrite !elem_of_app, !elem_of_map_pairs.
  rewrite !elem_of_cons, !elem_of_nil. split.
  - intros Hin.
    repeat (destruct Hin as [Hin|Hin]); try discriminate; try contradiction;
      destruct Hin as (k & v' & Heq & Hl); try discriminate.
    now injection Heq as -> ->.
  - intros Hl. right. left. now exists key, v.
Qed.

(** X27. The [STXO] record the writer puts under a key is the last spent
    output of the group with that key, alone, when the group has one, and
    what the pass over the unspent outputs serialised under the key
    otherwise. *)
Theorem stxo_record_spent_overrides (link : BatchLink) (key : DBKey)
    (v : list StoredTxOut) :
  putValue_STXO key v ∈ writeBlockData_body link
  <-> match last_spent (spent_of (batchVec_ link)) key with
      | Some s => v = [s]
      | None => serialize_utxos (batchVec_ link) !! key = Some v
      end.
Proof.
  rewrite stxo_put_in_body, serialize_spent_lookup.
  destruct (last_spent _ _) as [s|]; [|reflexivity].
  split; [now intros [= <-]|now intros ->].
Qed.

Lemma serialize_into_keeps (u x : StoredTxOut) (key : DBKey)
    (m : gmap DBKey (list StoredTxOut)) :
  u ∈ default [] (m !! getDBKey u) ->
  u ∈ default [] (serialize_into key x m !! getDBKey u).
Proof.
  intros Hu. unfold serialize_into.
  destruct (decide (key = getDBKey u)) as [->|Hne].
  - rewrite lookup_insert_eq. cbn. apply elem_of_app. now left.
  - now rewrite lookup_insert_ne.
Qed.

Lemma serialize_utxos_has batchVec batch h k u :
  batch ∈ batchVec ->
  lookup2 (utxos_ batch) h k = Some u ->
  u ∈ default [] (serialize_utxos batchVec !! getDBKey u).
Proof.
  intros Hb Hl. unfold serialize_utxos.
  set (Q := fun m : gmap DBKey (list StoredTxOut) =>
              u ∈ default [] (m !! getDBKey u)).
  assert (Hinner : forall (l : list (Z * StoredTxOut)) m,
             Q m ->
             Q (fold_left
                  (fun m '(_, utxo) => serialize_into (getDBKey utxo) utxo m)
                  l m)).
  { intros l m Hm. apply (fold_left_inv Q); [|exact Hm].
    intros a [z x] Ha. now apply serialize_into_keeps. }
  assert (Hmid : forall (l : list (BinaryData * gmap Z StoredTxOut)) m,
             Q m ->
             Q (fold_left
                  (fun m '(_, utxos) =>
                     fold_left
                       (fun m '(_, utxo) =>
                          serialize_into (getDBKey utxo) utxo m)
                       (map_to_list (utxos : gmap Z StoredTxOut)) m)
                  l m)).
  { intros l m Hm. apply (fold_left_inv Q); [|exact Hm].
    intros a [z x] Ha. now apply Hinner. }
  unfold lookup2 in Hl.
  destruct (utxos_ batch !! h) as [utxos|] eqn:Eh; [|discriminate].
  apply (fold_left_reaches Q _ batchVec ∅ batch Hb).
  - intros m.
    apply (fold_left_reaches Q _ (map_to_list (utxos_ batch)) m (h, utxos)).
    + now apply elem_of_map_to_list.
    + intros m'.
      apply (fold_left_reaches Q _ (map_to_list utxos) m' (k, u)).
      * now apply elem_of_map_to_list.
      * intros m''. unfold Q, serialize_into. rewrite lookup_insert_eq.
        cbn. apply elem_of_app. right. now apply list_elem_of_singleton.
      * intros a [z x] Ha. now apply serialize_into_keeps.
    + intros a [z x] Ha. now apply Hinner.
  - intros a b' Ha. now apply Hmid.
Qed.

(** X28. An unspent output of a batch of the group whose key no spent output
    of the group has is in the [STXO] record the writer puts under its
    key. *)
Theorem utxo_record_put (link : BatchLink) (batch : BlockDataBatch)
    (h : BinaryData) (k : Z) (u : StoredTxOut)
    (Hbatch : batch ∈ batchVec_ link)
    (Hutxo : lookup2 (utxos_ batch) h k = Some u)
    (Hunspent : last_spent (spent_of (batchVec_ link)) (getDBKey u) = None) :
  exists v, putValue_STXO (getDBKey u) v ∈ writeBlockData_body link /\ u ∈ v.
Proof.
  pose proof (serialize_utxos_has _ _ _ _ _ Hbatch Hutxo) as Hin.
  destruct (serialize_utxos (batchVec_ link) !! getDBKey u) as [v|] eqn:Ev;
    [|now apply elem_of_nil in Hin].
  exists v. split; [|exact Hin].
  apply stxo_put_in_body. now rewrite serialize_spent_lookup, Hunspent.
Qed.
End WriterLaws.

Lemma sdbi_updates_in_link_order_witness :
  writeBlockData ∅ [linkAB] (writer_then_hints ++ [])
  /\ sdbi_updates (writer_then_hints ++ []) = [getThisHash (hdr 1 0)].
Proof.
  assert (Hw : writeBlockData ∅ [linkAB] (writer_then_hints ++ [])).
  { apply write_next; [|apply write_done].
    exists (writeBlockData_body linkAB
            ++ processAndCommitTxHints ∅ (batchVec_ linkAB)).
    split; [apply interleave_app|reflexivity]. }
  split; [exact Hw|].
  exact (sdbi_updates_in_link_order ∅ [linkAB] (writer_then_hints ++ []) Hw).
Defined.

Lemma utxo_record_put_witness :
  let F := watching [addrA] in
  let U := script_address in
  let R := scripts_by_offset in
  let u := stxo_of (hdr 0 0) 1 txT 0 (0, 11) in
  batchA ∈ batchVec_ linkA
  /\ lookup2 (utxos_ batchA) hashT 1 = Some u
  /\ last_spent (spent_of (batchVec_ linkA)) (getDBKey u) = None
  /\ exists v, putValue_STXO (getDBKey u) v ∈ writeBlockData_body linkA
               /\ u ∈ v.
Proof.
  intros F U R u.
  assert (Hb : batchA ∈ batchVec_ linkA) by apply list_elem_of_here.
  assert (Hu : lookup2 (utxos_ batchA) hashT 1 = Some u)
    by (vm_compute; reflexivity).
  assert (Hn : last_spent (spent_of (batchVec_ linkA)) (getDBKey u) = None)
    by (vm_compute; reflexivity).
  split; [exact Hb|]. split; [exact Hu|]. split; [exact Hn|].
  exact (utxo_record_put linkA batchA hashT 1 u Hb Hu Hn).
Defined.

